(** * KnowledgeSync: entry model, topic graph, store engine and merge engine

    A shallow embedding of [knowledgesync.py] (classes [KnowledgeEntry],
    [KnowledgeGraph] and [KnowledgeSync]) together with the properties of
    its specification.

    Conventions of the embedding.
    - [str] is [string], a string of ASCII characters: [lower], [upper]
      and [strip] are the code's maps on that text. Outside it
      [str.lower] and [str.upper] are the Unicode maps, which may change
      the length of a string; what is stated of [upper] beyond its being
      idempotent is stated for ASCII text ([ascii_only]).
    - [datetime] is [Time], an integer count of microseconds since
      [datetime.min]; comparisons of naive datetimes are comparisons in [Z].
    - [float] confidences and weights are rationals ([Q]): every finite float
      is one, and the code only compares them.
    - A Python [dict] is an insertion-ordered association list with unique
      keys ([Dict]): iteration order is observable through [query].
    - [datetime.now()] is an effect: every call consumes one reading of a
      wall clock that is threaded through the operations ([M]).
    - [hashlib.sha256] and [datetime.isoformat] are parameters of the store
      section. *)

From Stdlib Require Import List String Ascii ZArith QArith Qminmax Bool Lia.
From Stdlib Require Import Sorted Permutation.
Import ListNotations.

Local Open Scope string_scope.
Local Open Scope Z_scope.
Local Open Scope list_scope.

(* ===================================================================== *)
(** ** Strings *)
(* ===================================================================== *)

Module Str.

Definition code (c : ascii) : nat := nat_of_ascii c.

Definition between (lo hi n : nat) : bool :=
  (Nat.leb lo n && Nat.leb n hi)%bool.

Definition lower_char (c : ascii) : ascii :=
  if between 65 90 (code c) then ascii_of_nat (code c + 32) else c.

Definition upper_char (c : ascii) : ascii :=
  if between 97 122 (code c) then ascii_of_nat (code c - 32) else c.

Fixpoint map_chars (f : ascii -> ascii) (s : string) : string :=
  match s with
  | EmptyString => EmptyString
  | String c s' => String (f c) (map_chars f s')
  end.

(** [str.lower()] and [str.upper()], on ASCII text: the letters [A-Z],
    resp. [a-z], are mapped and every other character is kept. *)
Definition lower : string -> string := map_chars lower_char.
Definition upper : string -> string := map_chars upper_char.

(** The ASCII characters for which [str.isspace()] holds: TAB, LF, VT, FF,
    CR, the four separators FS, GS, RS, US, and the space. *)
Definition is_space (c : ascii) : bool :=
  (between 9 13 (code c) || between 28 32 (code c))%bool.

Fixpoint lstrip (s : string) : string :=
  match s with
  | EmptyString => EmptyString
  | String c s' => if is_space c then lstrip s' else s
  end.

Fixpoint rstrip (s : string) : string :=
  match s with
  | EmptyString => EmptyString
  | String c s' =>
      match rstrip s' with
      | EmptyString => if is_space c then EmptyString else String c EmptyString
      | r => String c r
      end
  end.

(** [str.strip()]. *)
Definition strip (s : string) : string := rstrip (lstrip s).

Fixpoint whitespace_only (s : string) : bool :=
  match s with
  | EmptyString => true
  | String c s' => (is_space c && whitespace_only s')%bool
  end.

(** Truthiness of a string: [bool(s)]. *)
Definition truthy (s : string) : bool :=
  match s with EmptyString => false | _ => true end.

(** [needle in hay] on strings. *)
Fixpoint contains (needle hay : string) : bool :=
  (String.prefix needle hay ||
   match hay with
   | EmptyString => false
   | String _ hay' => contains needle hay'
   end)%bool.

End Str.

(* ===================================================================== *)
(** ** Insertion-ordered dictionaries with string keys *)
(* ===================================================================== *)

Module Dict.
Section WithValue.
Context {V : Type}.

Definition t : Type := list (string * V).

Definition empty : t := [].

(** [d.get(k)]. *)
Fixpoint get (k : string) (d : t) : option V :=
  match d with
  | [] => None
  | (k', v) :: d' => if String.eqb k' k then Some v else get k d'
  end.

(** [k in d]. *)
Definition mem (k : string) (d : t) : bool :=
  match get k d with Some _ => true | None => false end.

(** [d[k] = v]: an existing key keeps its position, a new key goes last. *)
Fixpoint set (k : string) (v : V) (d : t) : t :=
  match d with
  | [] => [(k, v)]
  | (k', v') :: d' =>
      if String.eqb k' k then (k', v) :: d' else (k', v') :: set k v d'
  end.

(** [del d[k]]. *)
Fixpoint del (k : string) (d : t) : t :=
  match d with
  | [] => []
  | (k', v') :: d' =>
      if String.eqb k' k then d' else (k', v') :: del k d'
  end.

(** [d.update(other)]. *)
Definition update (d other : t) : t :=
  fold_left (fun acc kv => set (fst kv) (snd kv) acc) other d.

Definition keys (d : t) : list string := map fst d.
Definition values (d : t) : list V := map snd d.

End WithValue.
Arguments t : clear implicits.
End Dict.

(** Python sets of strings, up to iteration order: duplicate-free lists. *)
Module StrSet.

Definition t : Type := list string.

Definition mem (x : string) (s : t) : bool := existsb (String.eqb x) s.

Definition add (x : string) (s : t) : t := if mem x s then s else s ++ [x].

(** [s.update(xs)], also [set(xs)] from the empty set. *)
Definition update (s : t) (xs : list string) : t :=
  fold_left (fun acc x => add x acc) xs s.

Definition of_list (xs : list string) : t := update [] xs.

(** Truthiness of [s.intersection(s')]. *)
Definition intersects (s s' : t) : bool := existsb (fun x => mem x s') s.

End StrSet.

(* ===================================================================== *)
(** ** Floats as rationals *)
(* ===================================================================== *)

Definition Qltb (x y : Q) : bool := negb (Qle_bool y x).

(** [max(a, b)] keeps [a] unless [b > a]; [min(a, b)] keeps [a] unless
    [b < a]. *)
Definition py_max (a b : Q) : Q := if Qltb a b then b else a.
Definition py_min (a b : Q) : Q := if Qltb b a then b else a.

(* ===================================================================== *)
(** ** The wall clock *)
(* ===================================================================== *)

(** A naive [datetime]: microseconds since [datetime.min]. *)
Definition Time : Type := Z.

(** [datetime.max], as microseconds since [datetime.min]. *)
Definition datetime_max : Time := 3652059 * 86400 * 1000000 - 1.

(** The clock: [wall k] is what the [k]-th call of [datetime.now()] returns,
    [ticks] counts the calls made so far. *)
Record Clock : Type := MkClock { wall : nat -> Time; ticks : nat }.

(** Computations that may read the clock. *)
Definition M (A : Type) : Type := Clock -> A * Clock.

Definition ret {A : Type} (a : A) : M A := fun c => (a, c).

Definition bind {A B : Type} (m : M A) (f : A -> M B) : M B :=
  fun c => let (a, c') := m c in f a c'.

Notation "x <- m ;; k" := (bind m (fun x => k))
  (at level 61, m at next level, right associativity).

(** [datetime.now()]. *)
Definition datetime_now : M Time :=
  fun c => (wall c (ticks c), MkClock (wall c) (S (ticks c))).

(** A [for] loop threading an accumulator. *)
Fixpoint for_each {A S : Type} (xs : list A) (body : S -> A -> M S) (s : S)
  : M S :=
  match xs with
  | [] => ret s
  | x :: xs' => s' <- body s x ;; for_each xs' body s'
  end.

(** A clock that stands still at [t]. *)
Definition frozen (t : Time) : Clock := MkClock (fun _ => t) 0.

(** A clock whose [k]-th reading is [t + k]. *)
Definition running (t : Time) : Clock := MkClock (fun k => t + Z.of_nat k) 0.

(** Exceptions the modelled operations raise. *)
Inductive Exn : Type :=
| ValueError (msg : string)
| OverflowError.

Inductive Result (A : Type) : Type :=
| Ok (a : A)
| Raise (e : Exn).
Arguments Ok {A} a.
Arguments Raise {A} e.

(* ===================================================================== *)
(** ** Entry model: class [KnowledgeEntry] *)
(* ===================================================================== *)

(** The module constant [CATEGORIES]: category name to description. *)
Definition CATEGORIES : Dict.t string :=
  [ ("DECISION", "Decision made");
    ("FINDING", "Discovery or finding");
    ("PROBLEM", "Problem identified");
    ("SOLUTION", "Solution implemented");
    ("TODO", "Task or action item");
    ("REFERENCE", "Reference or documentation");
    ("CONFIG", "Configuration or setting");
    ("RELATIONSHIP", "Relationship between concepts");
    ("FACT", "General fact");
    ("INSIGHT", "Insight or observation") ].

(** Open-ended metadata; values are kept as text. *)
Definition Metadata : Type := Dict.t string.

(** [x or []] for an optional list. *)
Definition or_nil {A : Type} (x : option (list A)) : list A :=
  match x with Some l => l | None => [] end.

(** The serialised form of an entry, as [to_dict] produces it and
    [from_dict] reads it. A field is [None] when the key is absent or its
    value is [None] (for the timestamps also when it is the empty string). *)
Module EntryDict.
Record t : Type := Build {
  entry_id : option string;
  content : string;
  source : string;
  category : option string;
  topics : option (list string);
  confidence : option Q;
  created : option Time;
  updated : option Time;
  expires : option Time;
  references : option (list string);
  metadata : option Metadata
}.
End EntryDict.

Module KnowledgeEntry.

Record t : Type := Build {
  entry_id : string;
  content : string;
  source : string;
  category : string;
  topics : list string;
  confidence : Q;
  created : Time;
  updated : Time;
  expires : option Time;
  references : list string;
  metadata : Metadata
}.

Section Init.
(** [hashlib.sha256(s.encode()).hexdigest()[:16]] and
    [datetime.isoformat()]. *)
Variable sha256_hex16 : string -> string.
Variable isoformat : Time -> string.

(** [KnowledgeEntry.__init__]. *)
Definition init (content source category : string)
    (topics : option (list string)) (confidence : Q)
    (expires : option Time) (references : option (list string))
    (metadata : option Metadata) (entry_id : option string)
    (created updated : option Time) : M t :=
  created' <- match created with
              | Some tm => ret tm
              | None => datetime_now
              end ;;
  let derived :=
    sha256_hex16 (content ++ ":" ++ source ++ ":" ++ isoformat created')%string in
  ret (Build
         (match entry_id with
          | Some i => if Str.truthy i then i else derived
          | None => derived
          end)
         content
         (Str.upper source)
         (if Dict.mem (Str.upper category) CATEGORIES
          then Str.upper category else "FACT")
         (map Str.lower (or_nil topics))
         (py_min 1 (py_max 0 confidence))
         created'
         (match updated with Some tm => tm | None => created' end)
         expires
         (or_nil references)
         (match metadata with Some m => m | None => Dict.empty end)).

(** [KnowledgeEntry.from_dict]. *)
Definition from_dict (data : EntryDict.t) : M t :=
  init (EntryDict.content data)
       (EntryDict.source data)
       (match EntryDict.category data with Some c => c | None => "FACT" end)
       (Some (or_nil (EntryDict.topics data)))
       (match EntryDict.confidence data with Some c => c | None => 8 # 10 end)
       (EntryDict.expires data)
       (Some (or_nil (EntryDict.references data)))
       (Some (match EntryDict.metadata data with
              | Some m => m
              | None => Dict.empty
              end))
       (EntryDict.entry_id data)
       (EntryDict.created data)
       (EntryDict.updated data).

End Init.

(** [KnowledgeEntry.to_dict]. *)
Definition to_dict (e : t) : EntryDict.t :=
  EntryDict.Build (Some (entry_id e)) (content e) (source e)
    (Some (category e)) (Some (topics e)) (Some (confidence e))
    (Some (created e)) (Some (updated e)) (expires e)
    (Some (references e)) (Some (metadata e)).

(** The comparison of [is_expired], at a given reading of the clock. *)
Definition expired_at (now : Time) (e : t) : bool :=
  match expires e with
  | None => false
  | Some x => now >? x
  end.

(** [KnowledgeEntry.is_expired]: the clock is read only when [expires] is
    set. *)
Definition is_expired (e : t) : M bool :=
  match expires e with
  | None => ret false
  | Some x => now <- datetime_now ;; ret (now >? x)
  end.

(** [KnowledgeEntry.matches_query]. *)
Definition matches_query (e : t) (query : string) : bool :=
  let query_lower := Str.lower query in
  if Str.contains query_lower (Str.lower (content e)) then true
  else if existsb (fun topic => Str.contains query_lower topic) (topics e)
  then true
  else if Str.contains query_lower (Str.lower (category e)) then true
  else false.

(** Field updates used by the store. *)
Definition with_content (v : string) (e : t) : t :=
  Build (entry_id e) v (source e) (category e) (topics e) (confidence e)
        (created e) (updated e) (expires e) (references e) (metadata e).
Definition with_category (v : string) (e : t) : t :=
  Build (entry_id e) (content e) (source e) v (topics e) (confidence e)
        (created e) (updated e) (expires e) (references e) (metadata e).
Definition with_topics (v : list string) (e : t) : t :=
  Build (entry_id e) (content e) (source e) (category e) v (confidence e)
        (created e) (updated e) (expires e) (references e) (metadata e).
Definition with_confidence (v : Q) (e : t) : t :=
  Build (entry_id e) (content e) (source e) (category e) (topics e) v
        (created e) (updated e) (expires e) (references e) (metadata e).
Definition with_metadata (v : Metadata) (e : t) : t :=
  Build (entry_id e) (content e) (source e) (category e) (topics e)
        (confidence e) (created e) (updated e) (expires e) (references e) v.
Definition with_updated (v : Time) (e : t) : t :=
  Build (entry_id e) (content e) (source e) (category e) (topics e)
        (confidence e) (created e) v (expires e) (references e) (metadata e).

End KnowledgeEntry.

(* ===================================================================== *)
(** ** Topic graph: class [KnowledgeGraph] *)
(* ===================================================================== *)

(** Node metadata: the keys ["created"] and ["references"], and whatever
    else a caller or a loaded document supplies. [references] is [None]
    when the key is missing (only possible for metadata that [add_node] did
    not create). *)
Module Node.
Record t : Type := Build {
  created : Time;
  references : option Z;
  extra : Dict.t string
}.
End Node.

(** The optional [metadata] argument of [add_node], spliced over the default
    keys with [**]: it may override ["created"] and ["references"]. *)
Module NodeAttrs.
Record t : Type := Build {
  created : option Time;
  references : option Z;
  extra : Dict.t string
}.
End NodeAttrs.

Module Edge.
Record t : Type := Build {
  source : string;
  target : string;
  relation : string;
  weight : Q;
  created : Time
}.

(** The ordered endpoint pair. *)
Definition key (e : t) : string * string := (source e, target e).

(** The test of the edge loops: [edge["source"] == s and edge["target"] == t]. *)
Definition joins (s t' : string) (e : t) : bool :=
  (String.eqb (source e) s && String.eqb (target e) t')%bool.
End Edge.

Module KnowledgeGraph.

Record t : Type := Build {
  nodes : Dict.t Node.t;
  edges : list Edge.t
}.

(** [KnowledgeGraph.__init__]. *)
Definition init : t := Build Dict.empty [].

Definition new_node (now : Time) (metadata : option NodeAttrs.t) : Node.t :=
  match metadata with
  | None => Node.Build now (Some 0) Dict.empty
  | Some a =>
      Node.Build
        (match NodeAttrs.created a with Some c => c | None => now end)
        (match NodeAttrs.references a with Some r => Some r | None => Some 0 end)
        (NodeAttrs.extra a)
  end.

(** [nodes[topic]["references"] = nodes[topic].get("references", 0) + 1]. *)
Definition count_reference (n : Node.t) : Node.t :=
  Node.Build (Node.created n)
    (Some (match Node.references n with Some r => r | None => 0 end + 1))
    (Node.extra n).

(** [KnowledgeGraph.add_node]. *)
Definition add_node (g : t) (topic : string) (metadata : option NodeAttrs.t)
  : M t :=
  let topic := Str.lower topic in
  nodes' <- (if Dict.mem topic (nodes g) then ret (nodes g)
             else now <- datetime_now ;;
                  ret (Dict.set topic (new_node now metadata) (nodes g))) ;;
  ret (Build
         (match Dict.get topic nodes' with
          | Some n => Dict.set topic (count_reference n) nodes'
          | None => nodes'
          end)
         (edges g)).

(** The loop of [add_edge] over the edge list: the first edge joining
    [source] to [target] gets the new relation and the larger weight;
    [None] when the loop falls through. *)
Fixpoint update_existing (source target relation : string) (weight : Q)
    (es : list Edge.t) : option (list Edge.t) :=
  match es with
  | [] => None
  | edge :: es' =>
      if Edge.joins source target edge
      then Some (Edge.Build (Edge.source edge) (Edge.target edge) relation
                   (py_max (Edge.weight edge) weight) (Edge.created edge)
                 :: es')
      else option_map (cons edge)
             (update_existing source target relation weight es')
  end.

(** [KnowledgeGraph.add_edge]. *)
Definition add_edge (g : t) (source target relation : string) (weight : Q)
  : M t :=
  let source := Str.lower source in
  let target := Str.lower target in
  g1 <- add_node g source None ;;
  g2 <- add_node g1 target None ;;
  match update_existing source target relation weight (edges g2) with
  | Some es => ret (Build (nodes g2) es)
  | None =>
      now <- datetime_now ;;
      ret (Build (nodes g2)
             (edges g2 ++ [Edge.Build source target relation weight now]))
  end.

(** One ring of [get_related]: the neighbours of [current] that are not in
    [visited], following edges in both directions. *)
Definition next_level (es : list Edge.t) (visited current : StrSet.t)
  : StrSet.t :=
  fold_left
    (fun acc node =>
       fold_left
         (fun acc edge =>
            if (String.eqb (Edge.source edge) node
                && negb (StrSet.mem (Edge.target edge) visited))%bool
            then StrSet.add (Edge.target edge) acc
            else if (String.eqb (Edge.target edge) node
                     && negb (StrSet.mem (Edge.source edge) visited))%bool
            then StrSet.add (Edge.source edge) acc
            else acc)
         es acc)
    current [].

Fixpoint rings (es : list Edge.t) (depth : nat)
    (related visited current : StrSet.t) : StrSet.t :=
  match depth with
  | O => related
  | S depth' =>
      let next := next_level es visited current in
      let related' := StrSet.update related next in
      let visited' := StrSet.update visited next in
      match next with
      | [] => related'
      | _ => rings es depth' related' visited' next
      end
  end.

(** [KnowledgeGraph.get_related]. *)
Definition get_related (g : t) (topic : string) (depth : Z) : StrSet.t :=
  let topic := Str.lower topic in
  if negb (Dict.mem topic (nodes g)) then []
  else rings (edges g) (Z.to_nat depth) [] [topic] [topic].

(** Replaying a list of [add_edge] calls. *)
Definition EdgeCall : Type := string * string * string * Q.

Definition add_edges (g : t) (calls : list EdgeCall) : M t :=
  for_each calls
    (fun g call =>
       let '(source, target, relation, weight) := call in
       add_edge g source target relation weight)
    g.

End KnowledgeGraph.

(* ===================================================================== *)
(** ** Store and merge engine: class [KnowledgeSync] *)
(* ===================================================================== *)

(** The dictionary returned by [sync] and [import_from_sync]. *)
Module Stats.
Record t : Type := Build { added : nat; updated : nat; conflicts : nat }.
Definition zero : t := Build 0 0 0.
Definition count_added (s : t) : t := Build (S (added s)) (updated s) (conflicts s).
Definition count_updated (s : t) : t := Build (added s) (S (updated s)) (conflicts s).
Definition count_conflict (s : t) : t := Build (added s) (updated s) (S (conflicts s)).
End Stats.

(** One record of the sync log. *)
Module SyncRecord.
Record t : Type := Build {
  timestamp : Time;
  agent : string;
  synced_with : string;
  stats : Stats.t
}.
End SyncRecord.

(** The ["graph"] part of an export. *)
Module GraphDict.
Record t : Type := Build {
  nodes : option (Dict.t Node.t);
  edges : option (list Edge.t)
}.
End GraphDict.

(** The payload of [export_for_sync] / [import_from_sync]; a field is
    [None] when its key is absent. *)
Module SyncData.
Record t : Type := Build {
  exported_at : option Time;
  agent : option string;
  entries : option (list EntryDict.t);
  graph : option GraphDict.t
}.
End SyncData.

Module KnowledgeSync.

(** The store. The storage directory belongs to the persistence boundary
    and is left out. Subscription callbacks are caller code run for its own
    effect, with every exception caught: they are taken not to touch the
    store, so [_notify_subscriptions] does not appear in the operations. *)
Record t : Type := Build {
  agent : string;
  auto_sync : bool;
  entries : Dict.t KnowledgeEntry.t;
  graph : KnowledgeGraph.t;
  sync_log : list SyncRecord.t
}.

Definition with_entries (es : Dict.t KnowledgeEntry.t) (ks : t) : t :=
  Build (agent ks) (auto_sync ks) es (graph ks) (sync_log ks).
Definition with_graph (g : KnowledgeGraph.t) (ks : t) : t :=
  Build (agent ks) (auto_sync ks) (entries ks) g (sync_log ks).

(** A fresh store with nothing loaded. *)
Definition init (agent : string) (auto_sync : bool) : t :=
  Build (Str.upper agent) auto_sync Dict.empty KnowledgeGraph.init [].

(** [_save]: the documents go to the persistence boundary; what is left of
    it here is the one reading of the clock for the ["updated"] stamp. *)
Definition save (ks : t) : M unit := _ <- datetime_now ;; ret tt.

Definition save_if_auto_sync (ks : t) : M unit :=
  if auto_sync ks then save ks else ret tt.

(** The co-occurrence loops of [add]: an edge from every topic to each
    topic after it. *)
Fixpoint add_cooccurrences (g : KnowledgeGraph.t) (ts : list string)
  : M KnowledgeGraph.t :=
  match ts with
  | [] => ret g
  | topic1 :: rest =>
      g' <- for_each rest
              (fun g topic2 =>
                 KnowledgeGraph.add_edge g topic1 topic2 "co-occurs" 1)
              g ;;
      add_cooccurrences g' rest
  end.

(** [datetime.now() + timedelta(days=d)], which raises [OverflowError]
    outside the ranges of [timedelta] and [datetime]. *)
Definition now_plus_days (d : Z) : M (Result Time) :=
  now <- datetime_now ;;
  if Z.abs d >? 999999999 then ret (Raise OverflowError)
  else
    let tm := now + d * 86400 * 1000000 in
    if ((tm <? 0) || (tm >? datetime_max))%bool then ret (Raise OverflowError)
    else ret (Ok tm).

Section Store.
Variable sha256_hex16 : string -> string.
Variable isoformat : Time -> string.

(** [KnowledgeSync.add]. The result pairs what the call returns or raises
    with the store it leaves behind. *)
Definition add (ks : t) (content category : string)
    (topics : option (list string)) (confidence : Q)
    (expires_in_days : option Z) (references : option (list string))
    (metadata : option Metadata) : M (Result KnowledgeEntry.t * t) :=
  if (negb (Str.truthy content) || negb (Str.truthy (Str.strip content)))%bool
  then ret (Raise (ValueError "Content cannot be empty"), ks)
  else
    expires <- match expires_in_days with
               | None => ret (Ok None)
               | Some d =>
                   if d =? 0 then ret (Ok None)
                   else r <- now_plus_days d ;;
                        ret match r with
                            | Ok tm => Ok (Some tm)
                            | Raise e => Raise e
                            end
               end ;;
    match expires with
    | Raise e => ret (Raise e, ks)
    | Ok expires =>
        entry <- KnowledgeEntry.init sha256_hex16 isoformat
                   (Str.strip content) (agent ks) category
                   (Some (or_nil topics)) confidence expires references
                   metadata None None None ;;
        let entries' :=
          Dict.set (KnowledgeEntry.entry_id entry) entry (entries ks) in
        g1 <- for_each (KnowledgeEntry.topics entry)
                (fun g topic => KnowledgeGraph.add_node g topic None)
                (graph ks) ;;
        g2 <- add_cooccurrences g1 (KnowledgeEntry.topics entry) ;;
        let ks' := with_graph g2 (with_entries entries' ks) in
        _ <- save_if_auto_sync ks' ;;
        ret (Ok entry, ks')
    end.

(** The loop of [import_from_sync] over the incoming records. *)
Definition import_entry (acc : Dict.t KnowledgeEntry.t * Stats.t)
    (entry_data : EntryDict.t) : M (Dict.t KnowledgeEntry.t * Stats.t) :=
  let '(es, stats) := acc in
  entry <- KnowledgeEntry.from_dict sha256_hex16 isoformat entry_data ;;
  match Dict.get (KnowledgeEntry.entry_id entry) es with
  | None =>
      ret (Dict.set (KnowledgeEntry.entry_id entry) entry es,
           Stats.count_added stats)
  | Some our_entry =>
      if KnowledgeEntry.updated entry >? KnowledgeEntry.updated our_entry
      then ret (Dict.set (KnowledgeEntry.entry_id entry) entry es,
                Stats.count_updated stats)
      else if ((KnowledgeEntry.updated entry =? KnowledgeEntry.updated our_entry)
               && negb (String.eqb (KnowledgeEntry.content entry)
                                   (KnowledgeEntry.content our_entry)))%bool
      then ret (es, Stats.count_conflict stats)
      else ret (es, stats)
  end.

(** Node merge of both merge forms: an incoming key absent locally is
    taken over with its metadata. *)
Definition merge_nodes (ours theirs : Dict.t Node.t) : Dict.t Node.t :=
  fold_left
    (fun acc kv => if Dict.mem (fst kv) acc then acc
                   else Dict.set (fst kv) (snd kv) acc)
    theirs ours.

(** [KnowledgeSync.import_from_sync]. *)
Definition import_from_sync (ks : t) (data : SyncData.t) : M (Stats.t * t) :=
  r <- for_each (or_nil (SyncData.entries data)) import_entry
         (entries ks, Stats.zero) ;;
  let '(entries', stats) := r in
  let graph' :=
    match SyncData.graph data with
    | None => graph ks
    | Some graph_data =>
        KnowledgeGraph.Build
          (merge_nodes (KnowledgeGraph.nodes (graph ks))
             (match GraphDict.nodes graph_data with
              | Some ns => ns
              | None => Dict.empty
              end))
          (fold_left (fun es edge => es ++ [edge])
             (or_nil (GraphDict.edges graph_data))
             (KnowledgeGraph.edges (graph ks)))
    end in
  let ks' := with_graph graph' (with_entries entries' ks) in
  _ <- save ks' ;;
  ret (stats, ks').

End Store.

(** [KnowledgeSync.update]. *)
Definition update (ks : t) (entry_id : string) (content category : option string)
    (topics : option (list string)) (confidence : option Q)
    (metadata : option Metadata) : M (option KnowledgeEntry.t * t) :=
  match Dict.get entry_id (entries ks) with
  | None => ret (None, ks)
  | Some entry =>
      let entry :=
        match content with
        | Some c => KnowledgeEntry.with_content (Str.strip c) entry
        | None => entry
        end in
      let entry :=
        match category with
        | Some c => KnowledgeEntry.with_category (Str.upper c) entry
        | None => entry
        end in
      let entry :=
        match topics with
        | Some ts => KnowledgeEntry.with_topics (map Str.lower ts) entry
        | None => entry
        end in
      let entry :=
        match confidence with
        | Some c =>
            KnowledgeEntry.with_confidence (py_min 1 (py_max 0 c)) entry
        | None => entry
        end in
      let entry :=
        match metadata with
        | Some m =>
            KnowledgeEntry.with_metadata
              (Dict.update (KnowledgeEntry.metadata entry) m) entry
        | None => entry
        end in
      now <- datetime_now ;;
      let entry := KnowledgeEntry.with_updated now entry in
      let ks' := with_entries (Dict.set entry_id entry (entries ks)) ks in
      _ <- save_if_auto_sync ks' ;;
      ret (Some entry, ks')
  end.

(** [KnowledgeSync.delete]. *)
Definition delete (ks : t) (entry_id : string) : M (bool * t) :=
  if negb (Dict.mem entry_id (entries ks)) then ret (false, ks)
  else
    let ks' := with_entries (Dict.del entry_id (entries ks)) ks in
    _ <- save_if_auto_sync ks' ;;
    ret (true, ks').

(** [KnowledgeSync.get]. *)
Definition get (ks : t) (entry_id : string) : option KnowledgeEntry.t :=
  Dict.get entry_id (entries ks).

(** The key of the sort in [query]: the tuple [(confidence, updated)],
    compared as Python compares tuples. *)
Definition key_lt (a b : KnowledgeEntry.t) : bool :=
  if Qeq_bool (KnowledgeEntry.confidence a) (KnowledgeEntry.confidence b)
  then KnowledgeEntry.updated a <? KnowledgeEntry.updated b
  else Qltb (KnowledgeEntry.confidence a) (KnowledgeEntry.confidence b).

(** [list.sort(key=..., reverse=True)]: the stable sort into descending
    order, entries with equal keys keeping their relative order. *)
Fixpoint insert_desc (x : KnowledgeEntry.t) (l : list KnowledgeEntry.t)
  : list KnowledgeEntry.t :=
  match l with
  | [] => [x]
  | y :: l' => if key_lt x y then y :: insert_desc x l' else x :: l
  end.

Definition sort_desc (l : list KnowledgeEntry.t) : list KnowledgeEntry.t :=
  fold_right insert_desc [] l.

(** The slice [l[:limit]]: a negative [limit] counts from the end. *)
Definition slice_to {A : Type} (l : list A) (limit : Z) : list A :=
  if limit <? 0 then firstn (Z.to_nat (Z.of_nat (List.length l) + limit)) l
  else firstn (Z.to_nat limit) l.

(** Truthiness of an optional string argument. *)
Definition given (x : option string) : option string :=
  match x with
  | Some s => if Str.truthy s then Some s else None
  | None => None
  end.

(** The filters of [query] that come after the expiry test; [true] when
    the entry is kept. *)
Definition passes_filters (search : string) (source category : option string)
    (min_confidence : Q) (expanded_topics : StrSet.t)
    (entry : KnowledgeEntry.t) : bool :=
  if match given source with
     | Some s => negb (String.eqb (KnowledgeEntry.source entry) (Str.upper s))
     | None => false
     end then false
  else if match given category with
          | Some c =>
              negb (String.eqb (KnowledgeEntry.category entry) (Str.upper c))
          | None => false
          end then false
  else if Qltb (KnowledgeEntry.confidence entry) min_confidence then false
  else if match expanded_topics with
          | [] => false
          | _ => negb (StrSet.intersects
                         (StrSet.of_list (KnowledgeEntry.topics entry))
                         expanded_topics)
          end then false
  else if (Str.truthy search
           && negb (KnowledgeEntry.matches_query entry search))%bool then false
  else true.

(** The topic filter set of [query]. *)
Definition expand_topics (g : KnowledgeGraph.t) (topics : option (list string))
    (include_related : bool) : StrSet.t :=
  let expanded_topics := StrSet.of_list (map Str.lower (or_nil topics)) in
  match include_related, expanded_topics with
  | true, _ :: _ =>
      fold_left
        (fun acc topic => StrSet.update acc (KnowledgeGraph.get_related g topic 1))
        expanded_topics expanded_topics
  | _, _ => expanded_topics
  end.

(** The loop of [query] over [entries.values()]. *)
Definition collect (search : string) (source category : option string)
    (min_confidence : Q) (expanded_topics : StrSet.t)
    (results : list KnowledgeEntry.t) (entry : KnowledgeEntry.t)
  : M (list KnowledgeEntry.t) :=
  expired <- KnowledgeEntry.is_expired entry ;;
  if expired then ret results
  else if passes_filters search source category min_confidence
            expanded_topics entry
  then ret (results ++ [entry])
  else ret results.

(** [KnowledgeSync.query]. *)
Definition query (ks : t) (search : string) (source category : option string)
    (topics : option (list string)) (min_confidence : Q) (limit : Z)
    (include_related : bool) : M (list KnowledgeEntry.t) :=
  let expanded_topics := expand_topics (graph ks) topics include_related in
  results <- for_each (Dict.values (entries ks))
               (collect search source category min_confidence expanded_topics)
               [] ;;
  ret (slice_to (sort_desc results) limit).

(** [KnowledgeSync.cleanup_expired]. *)
Definition cleanup_expired (ks : t) : M (nat * t) :=
  expired_ids <- for_each (entries ks)
                   (fun ids kv =>
                      expired <- KnowledgeEntry.is_expired (snd kv) ;;
                      ret (if expired then ids ++ [fst kv] else ids))
                   [] ;;
  let ks' :=
    with_entries
      (fold_left (fun es entry_id => Dict.del entry_id es) expired_ids
         (entries ks))
      ks in
  _ <- match expired_ids with
       | [] => ret tt
       | _ => save_if_auto_sync ks'
       end ;;
  ret (List.length expired_ids, ks').

(** The entry loop of [sync]: one incoming [(entry_id, other_entry)]. *)
Definition sync_entry (acc : Dict.t KnowledgeEntry.t * Stats.t)
    (kv : string * KnowledgeEntry.t) : Dict.t KnowledgeEntry.t * Stats.t :=
  let '(es, stats) := acc in
  let '(entry_id, other_entry) := kv in
  match Dict.get entry_id es with
  | None => (Dict.set entry_id other_entry es, Stats.count_added stats)
  | Some our_entry =>
      if KnowledgeEntry.updated other_entry >? KnowledgeEntry.updated our_entry
      then (Dict.set entry_id other_entry es, Stats.count_updated stats)
      else if KnowledgeEntry.updated other_entry
              =? KnowledgeEntry.updated our_entry
      then (es, Stats.count_conflict stats)
      else (es, stats)
  end.

(** The edge loop of [sync]: one incoming edge. *)
Definition sync_edge (ours : list Edge.t) (edge : Edge.t) : list Edge.t :=
  if existsb (Edge.joins (Edge.source edge) (Edge.target edge)) ours
  then ours
  else ours ++ [edge].

(** [KnowledgeSync.sync]. *)
Definition sync (ks : t) (other : option t) : M (Stats.t * t) :=
  match other with
  | None => _ <- save ks ;; ret (Stats.zero, ks)
  | Some other =>
      let '(entries', stats) :=
        fold_left sync_entry (entries other) (entries ks, Stats.zero) in
      let graph' :=
        KnowledgeGraph.Build
          (merge_nodes (KnowledgeGraph.nodes (graph ks))
             (KnowledgeGraph.nodes (graph other)))
          (fold_left sync_edge (KnowledgeGraph.edges (graph other))
             (KnowledgeGraph.edges (graph ks))) in
      now <- datetime_now ;;
      let ks' :=
        Build (agent ks) (auto_sync ks) entries' graph'
          (sync_log ks ++ [SyncRecord.Build now (agent ks) (agent other) stats])
      in
      _ <- save ks' ;;
      ret (stats, ks')
  end.

(** [KnowledgeSync.export_for_sync]. The entries are serialised into new
    dicts; the graph part is [self.graph.nodes] and [self.graph.edges]
    themselves, not copies of them. A payload is a value here, so what is
    stated of [import_from_sync] holds for a payload whose edge list is not
    the edge list of the importing store: a parsed document or the export
    of another store. (A store given its own live export appends to the
    list it iterates over.) *)
Definition export_for_sync (ks : t) : M SyncData.t :=
  now <- datetime_now ;;
  ret (SyncData.Build (Some now) (Some (agent ks))
         (Some (map KnowledgeEntry.to_dict (Dict.values (entries ks))))
         (Some (GraphDict.Build
                  (Some (KnowledgeGraph.nodes (graph ks)))
                  (Some (KnowledgeGraph.edges (graph ks)))))).

(** [KnowledgeSync.query_agent]. *)
Definition query_agent (ks : t) (agent : string) (topic : option string)
  : M (list KnowledgeEntry.t) :=
  query ks (match given topic with Some s => s | None => EmptyString end)
    (Some agent) None None 0 100 false.

(** The sort of [get_topics]: [sorted(topics, key=lambda x: x[1],
    reverse=True)], stable and descending in the count. *)
Fixpoint insert_by_count (x : string * Z) (l : list (string * Z))
  : list (string * Z) :=
  match l with
  | [] => [x]
  | y :: l' => if snd x <? snd y then y :: insert_by_count x l' else x :: l
  end.

(** [KnowledgeSync.get_topics]. *)
Definition get_topics (ks : t) : list (string * Z) :=
  fold_right insert_by_count []
    (map (fun kv =>
            (fst kv,
             match Node.references (snd kv) with Some r => r | None => 0 end))
       (KnowledgeGraph.nodes (graph ks))).

End KnowledgeSync.

(* ===================================================================== *)
(** ** Subscriptions *)
(* ===================================================================== *)

(** The attribute [subscriptions] of the store and the three methods that
    work on it. A callback is known by a handle: Python compares callables
    by identity. [notify] gives the calls that [_notify_subscriptions]
    makes, in order; what a callback does, or raises, is its own affair. *)
Module Subscriptions.

Definition Callback : Type := nat.

Definition t : Type := Dict.t (list Callback).

(** [KnowledgeSync.subscribe]. *)
Definition subscribe (subs : t) (topic : string) (callback : Callback) : t :=
  let topic := Str.lower topic in
  let subs := if Dict.mem topic subs then subs else Dict.set topic [] subs in
  match Dict.get topic subs with
  | Some l => Dict.set topic (l ++ [callback]) subs
  | None => subs
  end.

(** [list.remove(x)]: the first occurrence goes; [None] stands for the
    [ValueError] of a missing element. *)
Fixpoint remove_first (x : Callback) (l : list Callback)
  : option (list Callback) :=
  match l with
  | [] => None
  | y :: l' =>
      if Nat.eqb y x then Some l'
      else option_map (cons y) (remove_first x l')
  end.

(** [KnowledgeSync.unsubscribe]. *)
Definition unsubscribe (subs : t) (topic : string) (callback : Callback)
  : bool * t :=
  let topic := Str.lower topic in
  match Dict.get topic subs with
  | Some l =>
      match remove_first callback l with
      | Some l' => (true, Dict.set topic l' subs)
      | None => (false, subs)
      end
  | None => (false, subs)
  end.


End Subscriptions.

(* ===================================================================== *)
(** ** Vocabulary of the specification *)
(* ===================================================================== *)

(** Running a computation from a clock: the value, and the clock after. *)
Definition value {A : Type} (r : A * Clock) : A := fst r.
Definition clock_after {A : Type} (r : A * Clock) : Clock := snd r.

(** Two edges have the same endpoints, read as an unordered pair. *)
Definition same_unordered_pair (e1 e2 : Edge.t) : Prop :=
  Edge.key e1 = Edge.key e2 \/
  Edge.key e1 = (Edge.target e2, Edge.source e2).

(** No two positions of the edge list hold the same unordered pair. *)
Definition one_edge_per_unordered_pair (es : list Edge.t) : Prop :=
  forall i j e1 e2,
    nth_error es i = Some e1 -> nth_error es j = Some e2 ->
    same_unordered_pair e1 e2 -> i = j.

(** No two positions of the edge list hold the same ordered pair. *)
Definition one_edge_per_ordered_pair (es : list Edge.t) : Prop :=
  NoDup (map Edge.key es).

(** What [add_edge] does to an edge that joins [source] to [target]: the
    relation becomes the new one, the weight the larger one. *)
Definition refresh (source target relation : string) (weight : Q)
    (e : Edge.t) : Edge.t :=
  if Edge.joins source target e
  then Edge.Build (Edge.source e) (Edge.target e) relation
         (py_max (Edge.weight e) weight) (Edge.created e)
  else e.

(** The printable range of [str]: every character is an ASCII one. *)
Definition ascii_only (s : string) : bool :=
  forallb (fun a => Nat.ltb (nat_of_ascii a) 128) (list_ascii_of_string s).

(** The shape the two entry loops share: an unknown id is added, a newer
    incoming entry replaces the local one, and otherwise [conflict] decides
    whether the pair is counted; the local entry stays in both cases. *)
Definition merge_with (conflict : KnowledgeEntry.t -> KnowledgeEntry.t -> bool)
    (acc : Dict.t KnowledgeEntry.t * Stats.t)
    (kv : string * KnowledgeEntry.t) : Dict.t KnowledgeEntry.t * Stats.t :=
  let '(es, stats) := acc in
  let '(entry_id, entry) := kv in
  match Dict.get entry_id es with
  | None => (Dict.set entry_id entry es, Stats.count_added stats)
  | Some our_entry =>
      if KnowledgeEntry.updated entry >? KnowledgeEntry.updated our_entry
      then (Dict.set entry_id entry es, Stats.count_updated stats)
      else if conflict entry our_entry
      then (es, Stats.count_conflict stats)
      else (es, stats)
  end.

(** The incoming entry carries the [updated] stamp of the local one. *)
Definition same_stamp (theirs ours : KnowledgeEntry.t) : bool :=
  KnowledgeEntry.updated theirs =? KnowledgeEntry.updated ours.

(** The same, and the two contents differ. *)
Definition same_stamp_other_content (theirs ours : KnowledgeEntry.t) : bool :=
  (KnowledgeEntry.updated theirs =? KnowledgeEntry.updated ours)
  && negb (String.eqb (KnowledgeEntry.content theirs)
             (KnowledgeEntry.content ours)).

(** The incoming pair [(entry_id, theirs)] meets a local entry of the same
    id that it is in [conflict] with. *)
Definition tied (conflict : KnowledgeEntry.t -> KnowledgeEntry.t -> bool)
    (es : Dict.t KnowledgeEntry.t) (kv : string * KnowledgeEntry.t) : bool :=
  match Dict.get (fst kv) es with
  | Some ours => conflict (snd kv) ours
  | None => false
  end.

(** Some edge of [es] has the same unordered, resp. ordered, pair as
    [edge]. *)
Definition unordered_pair_present (edge : Edge.t) (es : list Edge.t) : Prop :=
  exists e, In e es /\ same_unordered_pair e edge.

Definition ordered_pair_present (edge : Edge.t) (es : list Edge.t) : Prop :=
  exists e, In e es /\ Edge.key e = Edge.key edge.

(* ===================================================================== *)
(** ** Example data *)
(* ===================================================================== *)

(** Instances of the two parameters, for running the store on examples;
    nothing proved in general depends on them. *)
Definition example_sha256_hex16 (s : string) : string :=
  ("h:" ++ s)%string.
Definition example_isoformat (tm : Time) : string :=
  match tm with 0 => "0001-01-01T00:00:00" | _ => "0001-01-01T00:00:01" end.

(** The calls [add_edge("a", "b")] and [add_edge("b", "a")]. *)
Definition two_way_calls : list KnowledgeGraph.EdgeCall :=
  [ ("a", "b", "related_to", 1%Q); ("b", "a", "related_to", 1%Q) ].

(** The graph after [add_edge("a", "b")] on an empty graph. *)
Definition graph_ab : KnowledgeGraph.t :=
  value (KnowledgeGraph.add_edge KnowledgeGraph.init "a" "b" "related_to" 1
           (frozen 0)).

(** An entry that expires at the instant [x]. *)
Definition entry_expiring_at (x : Time) : KnowledgeEntry.t :=
  KnowledgeEntry.Build "00aa11bb22cc33dd" "Cache is warm" "FORGE" "FACT" []
    (8 # 10) 0 0 (Some x) [] Dict.empty.

(** A stored entry without topics and without expiry, and a store of agent
    FORGE holding just that entry, as [add("BCH uses port 8080",
    category="CONFIG")] leaves it. *)
Definition port_note : KnowledgeEntry.t :=
  KnowledgeEntry.Build "5f2a9c0e7b1d4a63" "BCH uses port 8080" "FORGE"
    "CONFIG" [] (8 # 10) 100 100 None [] Dict.empty.

Definition store_with_note : KnowledgeSync.t :=
  KnowledgeSync.Build "FORGE" false
    [ ("5f2a9c0e7b1d4a63", port_note) ] KnowledgeGraph.init [].

(** A second copy of the stored entry, from agent ATLAS' store: same id and
    same [updated] stamp, other content. *)
Definition port_note_remote : KnowledgeEntry.t :=
  KnowledgeEntry.Build "5f2a9c0e7b1d4a63" "BCH uses port 9090" "ATLAS"
    "CONFIG" [] (8 # 10) 100 100 None [] Dict.empty.

Definition store_remote : KnowledgeSync.t :=
  KnowledgeSync.Build "ATLAS" false
    [ ("5f2a9c0e7b1d4a63", port_note_remote) ] KnowledgeGraph.init [].

(** Two stores without entries whose graphs hold one edge each, between
    the same two topics in opposite orientation. *)
Definition store_ab : KnowledgeSync.t :=
  KnowledgeSync.Build "FORGE" false Dict.empty graph_ab [].

Definition store_ba : KnowledgeSync.t :=
  KnowledgeSync.Build "ATLAS" false Dict.empty
    (value (KnowledgeGraph.add_edge KnowledgeGraph.init "b" "a" "related_to"
              1 (frozen 0)))
    [].

(** A third store, of agent NEXUS, whose graph also holds the edge from
    [a] to [b]. *)
Definition store_ab_peer : KnowledgeSync.t :=
  KnowledgeSync.Build "NEXUS" false Dict.empty graph_ab [].

(** [a] may stand before [b] in a list sorted by [(confidence, updated)],
    both descending: higher confidence first, on equal confidence the more
    recently updated first. *)
Definition precedes (a b : KnowledgeEntry.t) : Prop :=
  (KnowledgeEntry.confidence b < KnowledgeEntry.confidence a)%Q \/
  ((KnowledgeEntry.confidence a == KnowledgeEntry.confidence b)%Q /\
   KnowledgeEntry.updated b <= KnowledgeEntry.updated a).

(** Between the clocks [c] and [c'] the entry was found not expired: it has
    no expiry, or one of the readings taken in between shows it live. *)
Definition unexpired_when_tested (c c' : Clock) (e : KnowledgeEntry.t) : Prop :=
  KnowledgeEntry.expires e = None \/
  exists k, (ticks c <= k < ticks c')%nat /\
            KnowledgeEntry.expired_at (wall c k) e = false.

(** A store with two entries that never expire. *)
Definition latency_note : KnowledgeEntry.t :=
  KnowledgeEntry.Build "9d3e1f0a2b4c5d6e" "X uses 50ms avg latency" "FORGE"
    "FINDING" ["x"; "latency"] (6 # 10) 150 150 None [] Dict.empty.

Definition store_two_notes : KnowledgeSync.t :=
  KnowledgeSync.Build "FORGE" false
    [ ("5f2a9c0e7b1d4a63", port_note); ("9d3e1f0a2b4c5d6e", latency_note) ]
    KnowledgeGraph.init [].

(** The topic has a graph node whose reference count is at least 1. *)
Definition node_counted (g : KnowledgeGraph.t) (topic : string) : Prop :=
  exists n r, Dict.get topic (KnowledgeGraph.nodes g) = Some n /\
              Node.references n = Some r /\ 1 <= r.

(** The store invariant of the specification, at the instant [now]: every
    topic of every entry that is live at [now] has a counted node. *)
Definition topics_have_nodes (now : Time) (ks : KnowledgeSync.t) : Prop :=
  forall e topic,
    In e (Dict.values (KnowledgeSync.entries ks)) ->
    KnowledgeEntry.expired_at now e = false ->
    In topic (KnowledgeEntry.topics e) ->
    node_counted (KnowledgeSync.graph ks) topic.

(** Every node of the graph carries a reference count of at least 1, as
    [add_node] leaves them. *)
Definition nodes_counted (g : KnowledgeGraph.t) : Prop :=
  forall topic n,
    Dict.get topic (KnowledgeGraph.nodes g) = Some n ->
    exists r, Node.references n = Some r /\ 1 <= r.

(** [g'] has every node of [g], and counts them all if [g] does. *)
Definition grows (g g' : KnowledgeGraph.t) : Prop :=
  (nodes_counted g -> nodes_counted g') /\
  forall topic, Dict.mem topic (KnowledgeGraph.nodes g) = true ->
                Dict.mem topic (KnowledgeGraph.nodes g') = true.

(** The store after [add("X uses 50ms avg latency", category="FINDING",
    topics=["x", "latency"])] by agent AGENT1, on a running clock. *)
Definition store_after_add : KnowledgeSync.t :=
  snd (value (KnowledgeSync.add example_sha256_hex16 example_isoformat
                (KnowledgeSync.init "agent1" false)
                "X uses 50ms avg latency" "FINDING" (Some ["x"; "latency"])
                (8 # 10) None None None (running 1000))).

(** A store with one entry tagged [a, b] and one tagged [b]. *)
Definition store_related : KnowledgeSync.t :=
  let ks0 := KnowledgeSync.init "agent1" false in
  let ks1 := snd (value (KnowledgeSync.add example_sha256_hex16
                           example_isoformat ks0 "first" "FACT"
                           (Some ["a"; "b"]) (8 # 10) None None None
                           (running 1000))) in
  snd (value (KnowledgeSync.add example_sha256_hex16 example_isoformat ks1
                "second" "FACT" (Some ["b"]) (8 # 10) None None None
                (running 2000))).

(** [confidence] as [__init__] and [update] store it. *)
Definition clamp (c : Q) : Q := py_min 1 (py_max 0 c).

(** An entry's timestamps and identity aside, the fields are in the form
    the constructor gives them. *)
Definition normalised (e : KnowledgeEntry.t) : Prop :=
  Str.truthy (KnowledgeEntry.entry_id e) = true /\
  Str.upper (KnowledgeEntry.source e) = KnowledgeEntry.source e /\
  Str.upper (KnowledgeEntry.category e) = KnowledgeEntry.category e /\
  Dict.mem (KnowledgeEntry.category e) CATEGORIES = true /\
  map Str.lower (KnowledgeEntry.topics e) = KnowledgeEntry.topics e /\
  clamp (KnowledgeEntry.confidence e) = KnowledgeEntry.confidence e.

(** The reference count of a topic in the graph: 0 when the node or its
    ["references"] key is missing. *)
Definition reference_count (g : KnowledgeGraph.t) (topic : string) : Z :=
  match Dict.get topic (KnowledgeGraph.nodes g) with
  | Some n => match Node.references n with Some r => r | None => 0 end
  | None => 0
  end.

(** What one edge contributes to the ring around [node] in [get_related]:
    its far end, when that is not visited yet. *)
Definition hit (visited : StrSet.t) (node : string) (edge : Edge.t)
  : option string :=
  if (String.eqb (Edge.source edge) node
      && negb (StrSet.mem (Edge.target edge) visited))%bool
  then Some (Edge.target edge)
  else if (String.eqb (Edge.target edge) node
           && negb (StrSet.mem (Edge.source edge) visited))%bool
  then Some (Edge.source edge)
  else None.

(** [x] and [y] are the two ends of some edge, in either orientation. *)
Definition adjacent (es : list Edge.t) (x y : string) : Prop :=
  exists edge, In edge es /\
    ((Edge.source edge = x /\ Edge.target edge = y) \/
     (Edge.target edge = x /\ Edge.source edge = y)).

(** The clock shows [now] at every reading. *)
Definition stands_still (c : Clock) (now : Time) : Prop :=
  forall k, wall c k = now.

(** What [query] keeps, at the instant [now]: the entries that are not
    expired and pass every filter. *)
Definition kept (now : Time) (search : string) (source category : option string)
    (min_confidence : Q) (expanded_topics : StrSet.t)
    (e : KnowledgeEntry.t) : bool :=
  (negb (KnowledgeEntry.expired_at now e)
   && KnowledgeSync.passes_filters search source category min_confidence
        expanded_topics e)%bool.
(* ===================================================================== *)
(** ** Facts about strings, dictionaries and the clock *)
(* ===================================================================== *)

Lemma lstrip_whitespace_only s :
  Str.whitespace_only s = true -> Str.lstrip s = EmptyString.
Proof.
  induction s as [|c s IH]; simpl; [reflexivity|].
  intros H. apply andb_true_iff in H as [Hc Hs].
  rewrite Hc. now apply IH.
Qed.

Lemma rstrip_empty_whitespace s :
  Str.rstrip s = EmptyString -> Str.whitespace_only s = true.
Proof.
  induction s as [|c s IH]; simpl; [reflexivity|].
  destruct (Str.rstrip s) eqn:E; [|discriminate].
  destruct (Str.is_space c); [|discriminate].
  intros _. now rewrite IH.
Qed.

Lemma lstrip_whitespace_tail s :
  Str.whitespace_only (Str.lstrip s) = true -> Str.whitespace_only s = true.
Proof.
  induction s as [|c s IH]; simpl; [reflexivity|].
  destruct (Str.is_space c) eqn:E; simpl.
  - exact IH.
  - rewrite E. discriminate.
Qed.

(** [strip] yields the empty string exactly on whitespace-only input. *)
Lemma strip_empty_iff s :
  Str.strip s = EmptyString <-> Str.whitespace_only s = true.
Proof.
  split.
  - intros H. apply lstrip_whitespace_tail.
    now apply rstrip_empty_whitespace.
  - intros H. unfold Str.strip. now rewrite (lstrip_whitespace_only s H).
Qed.

(** The guard of [add], [not content or not content.strip()], holds exactly
    on whitespace-only content. *)
Lemma blank_iff_whitespace_only s :
  (negb (Str.truthy s) || negb (Str.truthy (Str.strip s)))%bool
  = Str.whitespace_only s.
Proof.
  destruct (Str.whitespace_only s) eqn:E.
  - apply strip_empty_iff in E. rewrite E. simpl. apply orb_true_r.
  - destruct s as [|a s]; [discriminate|]. simpl Str.truthy. simpl negb.
    rewrite orb_false_l.
    destruct (Str.strip (String a s)) eqn:Es; [|reflexivity].
    apply strip_empty_iff in Es. congruence.
Qed.

Section DictFacts.
Context {V : Type}.
Implicit Types (d : Dict.t V) (k : string) (v : V).

Lemma get_set_same k v d : Dict.get k (Dict.set k v d) = Some v.
Proof.
  induction d as [|[k' v'] d IH]; simpl.
  - now rewrite String.eqb_refl.
  - destruct (String.eqb k' k) eqn:E; simpl; rewrite E; auto.
Qed.

Lemma get_set_other k k' v d :
  k <> k' -> Dict.get k' (Dict.set k v d) = Dict.get k' d.
Proof.
  intros Hne. induction d as [|[k0 v0] d IH]; simpl.
  - destruct (String.eqb k k') eqn:E; auto.
    apply String.eqb_eq in E. contradiction.
  - destruct (String.eqb k0 k) eqn:E; simpl.
    + apply String.eqb_eq in E. subst k0.
      destruct (String.eqb k k') eqn:E'; auto.
      apply String.eqb_eq in E'. contradiction.
    + now rewrite IH.
Qed.

Lemma get_In k v d : Dict.get k d = Some v -> In (k, v) d.
Proof.
  induction d as [|[k0 v0] d IH]; simpl; [discriminate|].
  destruct (String.eqb k0 k) eqn:E.
  - apply String.eqb_eq in E. subst. intros [= ->]. now left.
  - intros H. right. now apply IH.
Qed.

End DictFacts.

(* ===================================================================== *)
(** ** The embedding on the scenarios of the test suite *)
(* ===================================================================== *)

(** [test_add_node]: ["python"] then ["Python"] is one node, counted
    twice. *)
Example add_node_normalises :
  let g1 := value (KnowledgeGraph.add_node KnowledgeGraph.init "python" None
                     (frozen 0)) in
  let g2 := value (KnowledgeGraph.add_node g1 "Python" None (frozen 1)) in
  KnowledgeGraph.nodes g2 = [("python", Node.Build 0 (Some 2) Dict.empty)].
Proof. reflexivity. Qed.

(** The same [add_edge] call twice leaves one edge, with the weight given
    once. *)
Example add_edge_twice :
  KnowledgeGraph.edges
    (value (KnowledgeGraph.add_edges KnowledgeGraph.init
              [("a", "b", "is_a", 1%Q); ("a", "b", "is_a", 1%Q)] (frozen 0)))
  = [Edge.Build "a" "b" "is_a" 1 0].
Proof. reflexivity. Qed.

(** One entry with two topics: a node for each, one co-occurrence edge, and
    [query("latency")] finds the entry. *)
Example add_then_query :
  Dict.keys (KnowledgeGraph.nodes (KnowledgeSync.graph store_after_add))
  = ["x"; "latency"] /\
  map Edge.key (KnowledgeGraph.edges (KnowledgeSync.graph store_after_add))
  = [("x", "latency")] /\
  map KnowledgeEntry.content
    (value (KnowledgeSync.query store_after_add "latency" None None None 0
              50 false (running 5000)))
  = ["X uses 50ms avg latency"].
Proof. repeat split; vm_compute; reflexivity. Qed.

(** [query(topics=["a"], include_related=True)] also reaches the entry that
    is tagged [b] only, over the [a]-[b] co-occurrence edge. *)
Example query_include_related :
  map KnowledgeEntry.content
    (value (KnowledgeSync.query store_related EmptyString None None (Some ["a"]) 0 50
              true (running 5000)))
  = ["second"; "first"] /\
  map KnowledgeEntry.content
    (value (KnowledgeSync.query store_related EmptyString None None (Some ["a"]) 0 50
              false (running 5000)))
  = ["first"].
Proof. split; vm_compute; reflexivity. Qed.

(* ===================================================================== *)
(** ** Topic graph: one edge per ordered endpoint pair *)
(* ===================================================================== *)

Lemma Qltb_true (x y : Q) : Qltb x y = true <-> (x < y)%Q.
Proof.
  unfold Qltb. rewrite negb_true_iff. split.
  - intros H. apply Qnot_le_lt. intros Hle.
    apply Qle_bool_iff in Hle. congruence.
  - intros H. destruct (Qle_bool y x) eqn:E; [|reflexivity].
    apply Qle_bool_iff in E. exfalso. now apply (Qlt_not_le x y).
Qed.

Lemma Qltb_false (x y : Q) : Qltb x y = false <-> (y <= x)%Q.
Proof.
  unfold Qltb. rewrite negb_false_iff. apply Qle_bool_iff.
Qed.

(** [py_max] is the maximum of the two weights. *)
Lemma py_max_is_Qmax (a b : Q) : (py_max a b == Qmax a b)%Q.
Proof.
  unfold py_max. destruct (Qltb a b) eqn:E.
  - apply Qltb_true in E. symmetry. apply Q.max_r. now apply Qlt_le_weak.
  - apply Qltb_false in E. symmetry. now apply Q.max_l.
Qed.

Lemma joins_key (s t : string) (e : Edge.t) :
  Edge.joins s t e = true <-> Edge.key e = (s, t).
Proof.
  unfold Edge.joins, Edge.key. rewrite andb_true_iff, !String.eqb_eq.
  split; [intros [-> ->]; reflexivity | intros [= -> ->]; auto].
Qed.

Lemma add_node_edges g topic metadata c :
  KnowledgeGraph.edges (value (KnowledgeGraph.add_node g topic metadata c))
  = KnowledgeGraph.edges g.
Proof.
  unfold KnowledgeGraph.add_node, value, bind.
  destruct (Dict.mem (Str.lower topic) (KnowledgeGraph.nodes g));
    reflexivity.
Qed.

Lemma update_existing_None s t r w es :
  KnowledgeGraph.update_existing s t r w es = None <->
  existsb (Edge.joins s t) es = false.
Proof.
  induction es as [|e es IH]; simpl; [tauto|].
  destruct (Edge.joins s t e); simpl; [split; discriminate|].
  rewrite <- IH.
  destruct (KnowledgeGraph.update_existing s t r w es); simpl;
    split; congruence.
Qed.

Lemma refresh_key s t r w e : Edge.key (refresh s t r w e) = Edge.key e.
Proof. unfold refresh. now destruct (Edge.joins s t e). Qed.

Lemma refresh_keys s t r w es :
  map Edge.key (map (refresh s t r w) es) = map Edge.key es.
Proof.
  rewrite map_map. apply map_ext. intros e. apply refresh_key.
Qed.

Lemma refresh_elsewhere s t r w es :
  ~ In (s, t) (map Edge.key es) -> map (refresh s t r w) es = es.
Proof.
  induction es as [|e es IH]; simpl; [reflexivity|].
  intros H. unfold refresh at 1.
  destruct (Edge.joins s t e) eqn:E.
  - apply joins_key in E. exfalso. apply H. now left.
  - f_equal. apply IH. tauto.
Qed.

(** Under unique ordered pairs the loop of [add_edge] refreshes exactly the
    edges that join [s] to [t]. *)
Lemma update_existing_refresh s t r w es es' :
  one_edge_per_ordered_pair es ->
  KnowledgeGraph.update_existing s t r w es = Some es' ->
  es' = map (refresh s t r w) es.
Proof.
  unfold one_edge_per_ordered_pair.
  revert es'. induction es as [|e es IH]; simpl; [discriminate|].
  intros es' Hnd. inversion Hnd as [|? ? Hnotin Hnd']; subst.
  unfold refresh at 1.
  destruct (Edge.joins s t e) eqn:E.
  - intros [= <-]. f_equal. symmetry. apply refresh_elsewhere.
    apply joins_key in E. now rewrite <- E.
  - destruct (KnowledgeGraph.update_existing s t r w es) as [l|] eqn:U;
      simpl; [|discriminate].
    intros [= <-]. f_equal. now apply IH.
Qed.

(** The edge list that one [add_edge] call leaves. *)
Lemma add_edge_edges g source target relation weight c :
  let s := Str.lower source in
  let t := Str.lower target in
  let es' := KnowledgeGraph.edges
               (value (KnowledgeGraph.add_edge g source target relation
                         weight c)) in
  match KnowledgeGraph.update_existing s t relation weight
          (KnowledgeGraph.edges g) with
  | Some es => es' = es
  | None => exists now,
      es' = KnowledgeGraph.edges g ++ [Edge.Build s t relation weight now]
  end.
Proof.
  cbv zeta. unfold KnowledgeGraph.add_edge, value, bind.
  pose proof (add_node_edges g (Str.lower source) None c) as H1.
  unfold value in H1.
  destruct (KnowledgeGraph.add_node g (Str.lower source) None c)
    as [g1 c1].
  pose proof (add_node_edges g1 (Str.lower target) None c1) as H2.
  unfold value in H2.
  destruct (KnowledgeGraph.add_node g1 (Str.lower target) None c1)
    as [g2 c2].
  simpl in H1, H2. rewrite H2, H1.
  destruct (KnowledgeGraph.update_existing (Str.lower source)
              (Str.lower target) relation weight (KnowledgeGraph.edges g))
    as [es|]; simpl; [reflexivity|].
  eexists. reflexivity.
Qed.

Lemma add_edge_keeps_ordered_pairs g source target relation weight c :
  one_edge_per_ordered_pair (KnowledgeGraph.edges g) ->
  one_edge_per_ordered_pair
    (KnowledgeGraph.edges
       (value (KnowledgeGraph.add_edge g source target relation weight c))).
Proof.
  intros Hnd.
  pose proof (add_edge_edges g source target relation weight c) as H.
  cbv zeta in H.
  destruct (KnowledgeGraph.update_existing (Str.lower source)
              (Str.lower target) relation weight (KnowledgeGraph.edges g))
    as [es|] eqn:U.
  - rewrite H. rewrite (update_existing_refresh _ _ _ _ _ _ Hnd U).
    unfold one_edge_per_ordered_pair. now rewrite refresh_keys.
  - destruct H as [now ->]. unfold one_edge_per_ordered_pair in *.
    rewrite map_app. simpl.
    apply update_existing_None in U.
    assert (Hnot : ~ In (Str.lower source, Str.lower target)
                        (map Edge.key (KnowledgeGraph.edges g))).
    { intros Hin. apply in_map_iff in Hin as [e [Hk He]].
      apply joins_key in Hk.
      assert (existsb (Edge.joins (Str.lower source) (Str.lower target))
                (KnowledgeGraph.edges g) = true)
        by (apply existsb_exists; eauto).
      congruence. }
    clear U. induction (map Edge.key (KnowledgeGraph.edges g)) as [|k ks IH].
    + simpl. constructor; [tauto | constructor].
    + simpl. inversion Hnd; subst. constructor.
      * rewrite in_app_iff. simpl. intros [Hin | [Heq | []]]; [tauto|].
        apply Hnot. now left.
      * apply IH; auto. intros Hin. apply Hnot. now right.
Qed.

Lemma add_edges_keeps_ordered_pairs calls : forall g c,
  one_edge_per_ordered_pair (KnowledgeGraph.edges g) ->
  one_edge_per_ordered_pair
    (KnowledgeGraph.edges (value (KnowledgeGraph.add_edges g calls c))).
Proof.
  induction calls as [|[[[s t] r] w] calls IH]; intros g c Hnd.
  - exact Hnd.
  - unfold KnowledgeGraph.add_edges, value in *. simpl. unfold bind.
    pose proof (add_edge_keeps_ordered_pairs g s t r w c Hnd) as H1.
    unfold value in H1.
    destruct (KnowledgeGraph.add_edge g s t r w c) as [g1 c1].
    apply (IH g1 c1). exact H1.
Qed.

(** C1, as the code has it. From a graph with at most one edge per ordered
    [(source, target)] pair, every sequence of [add_edge] calls leaves at
    most one edge per ordered pair; a call whose normalised ordered pair is
    already there gives that edge the newest relation and the weight
    [max(existing, new)] and leaves every other edge alone, and a call
    whose ordered pair is new appends exactly one edge. *)
Theorem add_edge_one_edge_per_ordered_pair
    (g : KnowledgeGraph.t) (calls : list KnowledgeGraph.EdgeCall)
    (source target relation : string) (weight : Q) (c : Clock) :
  one_edge_per_ordered_pair (KnowledgeGraph.edges g) ->
  one_edge_per_ordered_pair
    (KnowledgeGraph.edges (value (KnowledgeGraph.add_edges g calls c))) /\
  let s := Str.lower source in
  let t := Str.lower target in
  let es' := KnowledgeGraph.edges
               (value (KnowledgeGraph.add_edge g source target relation
                         weight c)) in
  if existsb (Edge.joins s t) (KnowledgeGraph.edges g)
  then es' = map (refresh s t relation weight) (KnowledgeGraph.edges g)
  else exists now,
      es' = KnowledgeGraph.edges g ++ [Edge.Build s t relation weight now].
Proof.
  intros Hnd. split; [now apply add_edges_keeps_ordered_pairs|].
  cbv zeta.
  pose proof (add_edge_edges g source target relation weight c) as H.
  cbv zeta in H.
  destruct (KnowledgeGraph.update_existing (Str.lower source)
              (Str.lower target) relation weight (KnowledgeGraph.edges g))
    as [es|] eqn:U.
  - destruct (existsb (Edge.joins (Str.lower source) (Str.lower target))
                (KnowledgeGraph.edges g)) eqn:Ex.
    + rewrite H. now apply update_existing_refresh.
    + apply (proj2 (update_existing_None _ _ relation weight _)) in Ex.
      congruence.
  - apply update_existing_None in U. rewrite U. exact H.
Qed.

(** The graph of two opposite [add_edge] calls holds two edges over the same
    unordered pair: C1 as stated fails on the code. *)
Lemma add_edge_opposite_orientation_appends :
  one_edge_per_unordered_pair (KnowledgeGraph.edges KnowledgeGraph.init) /\
  ~ one_edge_per_unordered_pair
      (KnowledgeGraph.edges
         (value (KnowledgeGraph.add_edges KnowledgeGraph.init two_way_calls
                   (frozen 0)))).
Proof.
  split.
  - intros i j e1 e2 Hi. destruct i; discriminate.
  - intros H.
    specialize (H 0%nat 1%nat
                  (Edge.Build "a" "b" "related_to" 1 0)
                  (Edge.Build "b" "a" "related_to" 1 0)
                  eq_refl eq_refl).
    assert (Hp : same_unordered_pair
                   (Edge.Build "a" "b" "related_to" 1 0)
                   (Edge.Build "b" "a" "related_to" 1 0))
      by (right; reflexivity).
    specialize (H Hp). discriminate.
Qed.

Lemma add_edge_one_edge_per_ordered_pair_witness :
  one_edge_per_ordered_pair (KnowledgeGraph.edges graph_ab) /\
  one_edge_per_ordered_pair
    (KnowledgeGraph.edges
       (value (KnowledgeGraph.add_edges graph_ab two_way_calls (frozen 1)))) /\
  KnowledgeGraph.edges
    (value (KnowledgeGraph.add_edge graph_ab "A" "B" "depends_on" (3 # 2)
              (frozen 1)))
  = [Edge.Build "a" "b" "depends_on" (3 # 2) 0].
Proof.
  assert (H : one_edge_per_ordered_pair (KnowledgeGraph.edges graph_ab)).
  { vm_compute. constructor; [simpl; tauto | constructor]. }
  split; [exact H|].
  destruct (add_edge_one_edge_per_ordered_pair graph_ab two_way_calls
              "A" "B" "depends_on" (3 # 2) (frozen 1) H) as [H1 H2].
  split; [exact H1|].
  cbv zeta in H2. vm_compute in H2. vm_compute. exact H2.
Defined.

(* ===================================================================== *)
(** ** Entry model: expiry, construction, categories *)
(* ===================================================================== *)

(** C8, as the code has it. [is_expired] returns false exactly when
    [expires] is unset or is not before the instant the clock shows: an
    entry whose [expires] equals that instant is not expired yet. *)
Theorem is_expired_false_iff (e : KnowledgeEntry.t) (c : Clock) :
  value (KnowledgeEntry.is_expired e c) = false <->
  (KnowledgeEntry.expires e = None \/
   exists x, KnowledgeEntry.expires e = Some x /\ wall c (ticks c) <= x).
Proof.
  unfold KnowledgeEntry.is_expired, value, bind, datetime_now.
  destruct (KnowledgeEntry.expires e) as [x|]; simpl.
  - rewrite Z.gtb_ltb, Z.ltb_ge. split.
    + intros H. right. exists x. auto.
    + intros [H | [y [[= <-] H]]]; [discriminate | exact H].
  - split; auto.
Qed.

(** At the instant of expiry itself [is_expired] still answers false,
    although [expires] is neither unset nor in the future: C8 as stated
    fails on the code. *)
Lemma is_expired_at_expiry_instant :
  ~ (value (KnowledgeEntry.is_expired (entry_expiring_at 5) (frozen 5)) = false
     <->
     (KnowledgeEntry.expires (entry_expiring_at 5) = None \/
      exists x, KnowledgeEntry.expires (entry_expiring_at 5) = Some x /\
                wall (frozen 5) (ticks (frozen 5)) < x)).
Proof.
  intros [H _]. destruct (H eq_refl) as [H' | [x [H1 H2]]].
  - discriminate.
  - simpl in H1, H2. injection H1 as <-. lia.
Qed.


(** C7 at a failing input: [update(id, category="bogus")] on a store that
    holds [id] stores the category BOGUS, which is outside [CATEGORIES]. *)
Theorem update_category_not_coerced :
  let ks' := snd (value (KnowledgeSync.update store_with_note
                           "5f2a9c0e7b1d4a63" None (Some "bogus") None None
                           None (frozen 200))) in
  exists e,
    KnowledgeSync.get ks' "5f2a9c0e7b1d4a63" = Some e /\
    KnowledgeEntry.category e = "BOGUS" /\
    Dict.mem (KnowledgeEntry.category e) CATEGORIES = false.
Proof.
  cbv zeta. eexists. split; [vm_compute; reflexivity|].
  split; reflexivity.
Qed.

(* ===================================================================== *)
(** ** Store engine: [add] and [update] *)
(* ===================================================================== *)

Lemma init_content sha256_hex16 isoformat content source category topics
    confidence expires references metadata entry_id created updated c :
  KnowledgeEntry.content
    (value (KnowledgeEntry.init sha256_hex16 isoformat content source
              category topics confidence expires references metadata
              entry_id created updated c))
  = content.
Proof.
  unfold KnowledgeEntry.init, value, bind. now destruct created.
Qed.

Lemma init_expires sha256_hex16 isoformat content source category topics
    confidence expires references metadata entry_id created updated c :
  KnowledgeEntry.expires
    (value (KnowledgeEntry.init sha256_hex16 isoformat content source
              category topics confidence expires references metadata
              entry_id created updated c))
  = expires.
Proof.
  unfold KnowledgeEntry.init, value, bind. now destruct created.
Qed.

(** C5, as the code has it. The store's [add] raises [ValueError] at once
    when the content is empty or whitespace-only: nothing is stored and the
    clock is not even read. The constructor itself does not validate: it
    keeps whatever content it is given. *)
Theorem add_rejects_blank_content
    (sha256_hex16 : string -> string) (isoformat : Time -> string)
    (ks : KnowledgeSync.t) (content category : string)
    (topics : option (list string)) (confidence : Q)
    (expires_in_days : option Z) (references : option (list string))
    (metadata : option Metadata) (c : Clock) :
  Str.whitespace_only content = true ->
  KnowledgeSync.add sha256_hex16 isoformat ks content category topics
    confidence expires_in_days references metadata c
  = (Raise (ValueError "Content cannot be empty"), ks, c)
  /\ forall source expires entry_id created updated,
       KnowledgeEntry.content
         (value (KnowledgeEntry.init sha256_hex16 isoformat content source
                   category topics confidence expires references metadata
                   entry_id created updated c))
       = content.
Proof.
  intros Hblank. split.
  - unfold KnowledgeSync.add.
    rewrite blank_iff_whitespace_only, Hblank. reflexivity.
  - intros. apply init_content.
Qed.

Lemma add_rejects_blank_content_witness :
  Str.whitespace_only "  " = true /\
  KnowledgeSync.add example_sha256_hex16 example_isoformat
    (KnowledgeSync.init "forge" true) "  " "FACT" None (8 # 10) None None
    None (frozen 7)
  = (Raise (ValueError "Content cannot be empty"),
     KnowledgeSync.init "forge" true, frozen 7).
Proof.
  split; [reflexivity|].
  apply (add_rejects_blank_content example_sha256_hex16 example_isoformat
           (KnowledgeSync.init "forge" true) "  " "FACT" None (8 # 10) None
           None None (frozen 7)).
  reflexivity.
Defined.

(** Constructing an entry with whitespace-only content succeeds and keeps
    that content, and [import_from_sync] stores such an entry: C5 as stated
    fails on the code. *)
Lemma blank_content_entry_constructed_and_stored :
  let e := value (KnowledgeEntry.init example_sha256_hex16 example_isoformat
                    "  " "forge" "FACT" None (8 # 10) None None None
                    (Some "0123456789abcdef") (Some 0) None (frozen 0)) in
  let data := SyncData.Build None None
                (Some [KnowledgeEntry.to_dict e]) None in
  let ks' := snd (value (KnowledgeSync.import_from_sync example_sha256_hex16
                           example_isoformat
                           (KnowledgeSync.init "atlas" false) data
                           (frozen 0))) in
  Str.whitespace_only (KnowledgeEntry.content e) = true /\
  KnowledgeSync.get ks' "0123456789abcdef" = Some e.
Proof.
  cbv zeta. split; vm_compute; reflexivity.
Qed.

(** C9. [update(id, content=c)] on a stored id replaces the content by
    [c.strip()] without validating it: for empty or whitespace-only [c] the
    stored content becomes the empty string. *)
Theorem update_content_unvalidated
    (ks : KnowledgeSync.t) (entry_id c : string) (e : KnowledgeEntry.t)
    (category : option string) (topics : option (list string))
    (confidence : option Q) (metadata : option Metadata) (clk : Clock) :
  Dict.get entry_id (KnowledgeSync.entries ks) = Some e ->
  let r := value (KnowledgeSync.update ks entry_id (Some c) category topics
                    confidence metadata clk) in
  exists e',
    fst r = Some e' /\
    KnowledgeSync.get (snd r) entry_id = Some e' /\
    KnowledgeEntry.content e' = Str.strip c /\
    (Str.whitespace_only c = true -> KnowledgeEntry.content e' = EmptyString).
Proof.
  intros Hget. cbv zeta.
  unfold KnowledgeSync.update, value, bind. rewrite Hget.
  unfold datetime_now, KnowledgeSync.save_if_auto_sync, KnowledgeSync.save,
    KnowledgeSync.get, bind, datetime_now.
  destruct (KnowledgeSync.auto_sync _), category, topics, confidence,
    metadata; simpl;
    (eexists; split; [reflexivity|]);
    (split; [apply get_set_same|]);
    (split; [reflexivity | intros Hb; now apply strip_empty_iff]).
Qed.

Lemma update_content_unvalidated_witness :
  Dict.get "5f2a9c0e7b1d4a63" (KnowledgeSync.entries store_with_note)
  = Some port_note /\
  exists e',
    fst (value (KnowledgeSync.update store_with_note "5f2a9c0e7b1d4a63"
                  (Some "   ") None None None None (frozen 200))) = Some e' /\
    KnowledgeEntry.content e' = EmptyString.
Proof.
  split; [reflexivity|].
  destruct (update_content_unvalidated store_with_note "5f2a9c0e7b1d4a63"
              "   " port_note None None None None (frozen 200) eq_refl)
    as [e' [H1 [_ [_ H4]]]].
  exists e'. split; [exact H1 | exact (H4 eq_refl)].
Defined.

(** C10. [add] with [expires_in_days = 0] behaves exactly as [add] without
    the argument, and the entry it returns has no expiry. *)
Theorem add_zero_days_never_expires
    (sha256_hex16 : string -> string) (isoformat : Time -> string)
    (ks : KnowledgeSync.t) (content category : string)
    (topics : option (list string)) (confidence : Q)
    (references : option (list string)) (metadata : option Metadata)
    (c : Clock) :
  KnowledgeSync.add sha256_hex16 isoformat ks content category topics
    confidence (Some 0) references metadata c
  = KnowledgeSync.add sha256_hex16 isoformat ks content category topics
      confidence None references metadata c
  /\ match fst (value (KnowledgeSync.add sha256_hex16 isoformat ks content
                         category topics confidence (Some 0) references
                         metadata c)) with
     | Ok e => KnowledgeEntry.expires e = None /\
               Str.whitespace_only content = false
     | Raise e => Str.whitespace_only content = true
     end.
Proof.
  split; [reflexivity|].
  unfold KnowledgeSync.add, value.
  rewrite blank_iff_whitespace_only.
  destruct (Str.whitespace_only content); [reflexivity|].
  simpl Z.eqb. cbv iota. unfold bind at 1. unfold ret at 1.
  unfold bind at 1.
  pose proof (init_expires sha256_hex16 isoformat (Str.strip content)
                (KnowledgeSync.agent ks) category (Some (or_nil topics))
                confidence None references metadata None None None c) as He.
  unfold value in He.
  destruct (KnowledgeEntry.init sha256_hex16 isoformat (Str.strip content)
              (KnowledgeSync.agent ks) category (Some (or_nil topics))
              confidence None references metadata None None None c)
    as [entry c1].
  simpl in He. unfold bind.
  destruct (for_each (KnowledgeEntry.topics entry) _ _ c1) as [g1 c2].
  destruct (KnowledgeSync.add_cooccurrences g1 _ c2) as [g2 c3].
  destruct (KnowledgeSync.save_if_auto_sync _ c3) as [u c4].
  simpl. auto.
Qed.

(* ===================================================================== *)
(** ** Merge engine: entries *)
(* ===================================================================== *)

Lemma sync_entry_other_key es stats k v entry_id :
  k <> entry_id ->
  Dict.get entry_id (fst (KnowledgeSync.sync_entry (es, stats) (k, v)))
  = Dict.get entry_id es.
Proof.
  intros Hne. unfold KnowledgeSync.sync_entry.
  destruct (Dict.get k es) as [our|]; simpl.
  - destruct (_ >? _); simpl; [now apply get_set_other|].
    now destruct (_ =? _).
  - now apply get_set_other.
Qed.

Lemma sync_entry_conflicts_mono acc kv :
  (Stats.conflicts (snd acc)
   <= Stats.conflicts (snd (KnowledgeSync.sync_entry acc kv)))%nat.
Proof.
  destruct acc as [es stats], kv as [k v]. unfold KnowledgeSync.sync_entry.
  destruct (Dict.get k es) as [our|]; simpl; [|lia].
  destruct (_ >? _); simpl; [lia|].
  destruct (_ =? _); simpl; lia.
Qed.

Lemma sync_entries_other_keys incoming : forall acc entry_id,
  ~ In entry_id (Dict.keys incoming) ->
  Dict.get entry_id (fst (fold_left KnowledgeSync.sync_entry incoming acc))
  = Dict.get entry_id (fst acc).
Proof.
  induction incoming as [|[k v] incoming IH]; intros [es stats] entry_id Hnot;
    simpl; [reflexivity|].
  simpl in Hnot. rewrite IH by tauto.
  apply sync_entry_other_key. tauto.
Qed.

Lemma sync_entries_conflicts_mono incoming : forall acc,
  (Stats.conflicts (snd acc)
   <= Stats.conflicts (snd (fold_left KnowledgeSync.sync_entry incoming acc)))%nat.
Proof.
  induction incoming as [|kv incoming IH]; intros acc; simpl; [lia|].
  etransitivity; [apply (sync_entry_conflicts_mono acc kv) | apply IH].
Qed.

(** One step of the live-store merge on equal timestamps. *)
Lemma sync_entry_equal_timestamps es stats entry_id ours theirs :
  Dict.get entry_id es = Some ours ->
  KnowledgeEntry.updated theirs = KnowledgeEntry.updated ours ->
  KnowledgeSync.sync_entry (es, stats) (entry_id, theirs)
  = (es, Stats.count_conflict stats).
Proof.
  intros Hget Heq. unfold KnowledgeSync.sync_entry.
  rewrite Hget, Heq, Z.gtb_ltb, Z.ltb_irrefl, Z.eqb_refl. reflexivity.
Qed.

(** A whole live-store merge: the local entry survives and the conflict is
    counted. *)
Lemma sync_keeps_local_on_equal_timestamps ks other entry_id ours theirs c :
  NoDup (Dict.keys (KnowledgeSync.entries other)) ->
  Dict.get entry_id (KnowledgeSync.entries ks) = Some ours ->
  Dict.get entry_id (KnowledgeSync.entries other) = Some theirs ->
  KnowledgeEntry.updated theirs = KnowledgeEntry.updated ours ->
  let r := value (KnowledgeSync.sync ks (Some other) c) in
  KnowledgeSync.get (snd r) entry_id = Some ours /\
  (1 <= Stats.conflicts (fst r))%nat.
Proof.
  intros Hnd Hours Htheirs Heq. cbv zeta.
  unfold KnowledgeSync.sync, value, KnowledgeSync.get.
  apply get_In in Htheirs. apply in_split in Htheirs as [l1 [l2 Hsplit]].
  rewrite Hsplit in *. unfold Dict.keys in Hnd. rewrite map_app in Hnd.
  simpl in Hnd. apply NoDup_remove_2 in Hnd.
  rewrite fold_left_app.
  pose proof (sync_entries_other_keys l1
                (KnowledgeSync.entries ks, Stats.zero) entry_id) as H1.
  destruct (fold_left KnowledgeSync.sync_entry l1
              (KnowledgeSync.entries ks, Stats.zero)) as [es1 st1].
  simpl in H1. rewrite Hours in H1. cbn [fold_left].
  rewrite (sync_entry_equal_timestamps es1 st1 entry_id ours theirs);
    [| apply H1; rewrite in_app_iff in Hnd; tauto | exact Heq].
  pose proof (sync_entries_other_keys l2
                (es1, Stats.count_conflict st1) entry_id) as H2.
  pose proof (sync_entries_conflicts_mono l2
                (es1, Stats.count_conflict st1)) as H3.
  destruct (fold_left KnowledgeSync.sync_entry l2
              (es1, Stats.count_conflict st1)) as [es2 st2].
  simpl in H2, H3. unfold bind, datetime_now, KnowledgeSync.save, ret, bind.
  simpl. split.
  - rewrite H2; [apply H1|]; rewrite in_app_iff in Hnd; tauto.
  - lia.
Qed.

(** The two merge forms on a copy with equal stamp and equal content: the
    live-store merge counts a conflict, the import merge counts none. *)
Example equal_content_asymmetry :
  Stats.conflicts
    (fst (value (KnowledgeSync.sync store_with_note (Some store_with_note)
                   (frozen 300)))) = 1%nat /\
  Stats.conflicts
    (fst (value (KnowledgeSync.import_from_sync example_sha256_hex16
                   example_isoformat store_with_note
                   (SyncData.Build None None
                      (Some [KnowledgeEntry.to_dict port_note]) None)
                   (frozen 300)))) = 0%nat.
Proof. split; vm_compute; reflexivity. Qed.

(* ===================================================================== *)
(** ** Merge engine: edges *)
(* ===================================================================== *)

Lemma existsb_joins_present edge ours :
  existsb (Edge.joins (Edge.source edge) (Edge.target edge)) ours = true <->
  ordered_pair_present edge ours.
Proof.
  unfold ordered_pair_present. rewrite existsb_exists.
  split; intros [e [He Hk]]; exists e; split; auto;
    now apply joins_key in Hk.
Qed.

Lemma sync_edge_present ours edge :
  ordered_pair_present edge ours -> KnowledgeSync.sync_edge ours edge = ours.
Proof.
  intros H. apply existsb_joins_present in H.
  unfold KnowledgeSync.sync_edge. now rewrite H.
Qed.

Lemma sync_edge_absent ours edge :
  ~ ordered_pair_present edge ours ->
  KnowledgeSync.sync_edge ours edge = ours ++ [edge].
Proof.
  intros H. unfold KnowledgeSync.sync_edge.
  destruct (existsb _ ours) eqn:E; [|reflexivity].
  apply existsb_joins_present in E. contradiction.
Qed.

(** One incoming edge of [sync]: appended as it is exactly when no edge of
    the list has the same ordered pair. *)
Lemma sync_edge_appends_iff ours edge :
  KnowledgeSync.sync_edge ours edge = ours ++ [edge] <->
  ~ ordered_pair_present edge ours.
Proof.
  split; [|apply sync_edge_absent].
  intros Happ Hpres. rewrite (sync_edge_present _ _ Hpres) in Happ.
  apply (f_equal (@List.length _)) in Happ.
  rewrite length_app in Happ. simpl in Happ. lia.
Qed.

Lemma ordered_pair_present_app edge l1 l2 :
  ordered_pair_present edge (l1 ++ l2) <->
  ordered_pair_present edge l1 \/ ordered_pair_present edge l2.
Proof.
  unfold ordered_pair_present. split.
  - intros [e [Hin Hk]]. apply in_app_or in Hin as [Hin | Hin];
      [left | right]; eauto.
  - intros [[e [Hin Hk]] | [e [Hin Hk]]]; exists e; split; auto;
      apply in_or_app; auto.
Qed.

(** The edge loop of [sync] as a whole. *)
Lemma sync_edges_additive incoming : forall ours,
  exists appended,
    fold_left KnowledgeSync.sync_edge incoming ours = ours ++ appended /\
    (forall e, In e appended ->
               In e incoming /\ ~ ordered_pair_present e ours) /\
    (forall e, In e incoming ->
               ordered_pair_present e (ours ++ appended)).
Proof.
  induction incoming as [|edge incoming IH]; intros ours; simpl.
  - exists []. rewrite app_nil_r.
    split; [reflexivity|]. split; intros e He; destruct He.
  - destruct (existsb (Edge.joins (Edge.source edge) (Edge.target edge)) ours)
      eqn:E.
    + assert (Hp : ordered_pair_present edge ours)
        by now apply existsb_joins_present.
      rewrite (sync_edge_present _ _ Hp).
      destruct (IH ours) as [app [Heq [Hnew Hall]]].
      exists app. split; [exact Heq|]. split.
      * intros e He. destruct (Hnew e He). auto.
      * intros e [Heq' | He]; [subst e|auto].
        apply ordered_pair_present_app. now left.
    + assert (Hp : ~ ordered_pair_present edge ours).
      { intros Hp. apply existsb_joins_present in Hp. congruence. }
      rewrite (sync_edge_absent _ _ Hp).
      destruct (IH (ours ++ [edge])) as [app [Heq [Hnew Hall]]].
      exists (edge :: app). rewrite Heq, <- app_assoc. simpl.
      split; [reflexivity|]. split.
      * intros e [Heq' | He]; [subst e; auto|].
        destruct (Hnew e He) as [Hin Hno]. split; [auto|].
        intros Hpres. apply Hno. apply ordered_pair_present_app. now left.
      * intros e [Heq' | He].
        -- subst e. exists edge. split; [|reflexivity].
           apply in_or_app. right. now left.
        -- specialize (Hall e He). now rewrite <- app_assoc in Hall.
Qed.

Lemma append_each {A : Type} (xs : list A) : forall l,
  fold_left (fun es x => es ++ [x]) xs l = l ++ xs.
Proof.
  induction xs as [|x xs IH]; intros l; simpl.
  - now rewrite app_nil_r.
  - rewrite IH, <- app_assoc. reflexivity.
Qed.

Lemma sync_result_edges ks other c :
  KnowledgeGraph.edges
    (KnowledgeSync.graph (snd (value (KnowledgeSync.sync ks (Some other) c))))
  = fold_left KnowledgeSync.sync_edge
      (KnowledgeGraph.edges (KnowledgeSync.graph other))
      (KnowledgeGraph.edges (KnowledgeSync.graph ks)).
Proof.
  unfold KnowledgeSync.sync, value.
  destruct (fold_left KnowledgeSync.sync_entry _ _) as [es st].
  reflexivity.
Qed.

Lemma import_result_edges sha256_hex16 isoformat ks data c :
  KnowledgeGraph.edges
    (KnowledgeSync.graph
       (snd (value (KnowledgeSync.import_from_sync sha256_hex16 isoformat
                      ks data c))))
  = KnowledgeGraph.edges (KnowledgeSync.graph ks) ++
    match SyncData.graph data with
    | Some graph_data => or_nil (GraphDict.edges graph_data)
    | None => []
    end.
Proof.
  unfold KnowledgeSync.import_from_sync, value, bind.
  destruct (for_each _ _ _ c) as [[es st] c1].
  unfold KnowledgeSync.save, bind, datetime_now, ret. simpl.
  destruct (SyncData.graph data) as [gd|]; simpl.
  - apply append_each.
  - now rewrite app_nil_r.
Qed.

(** C4, as the code has it. In the live-store merge an incoming edge is
    appended as it is exactly when no edge with the same ordered
    [(source, target)] pair is in the local list at that point, and is
    dropped otherwise; in both merge forms the local edges stay, unchanged
    and in place, at the front of the merged list. *)
Theorem merge_edges_additive
    (sha256_hex16 : string -> string) (isoformat : Time -> string)
    (ks other : KnowledgeSync.t) (data : SyncData.t) (c : Clock) :
  let es := KnowledgeGraph.edges (KnowledgeSync.graph ks) in
  let incoming := KnowledgeGraph.edges (KnowledgeSync.graph other) in
  let es_sync :=
    KnowledgeGraph.edges
      (KnowledgeSync.graph
         (snd (value (KnowledgeSync.sync ks (Some other) c)))) in
  let es_import :=
    KnowledgeGraph.edges
      (KnowledgeSync.graph
         (snd (value (KnowledgeSync.import_from_sync sha256_hex16 isoformat
                        ks data c)))) in
  (forall ours edge,
      (KnowledgeSync.sync_edge ours edge = ours ++ [edge] <->
       ~ ordered_pair_present edge ours) /\
      (ordered_pair_present edge ours ->
       KnowledgeSync.sync_edge ours edge = ours)) /\
  es_sync = fold_left KnowledgeSync.sync_edge incoming es /\
  (exists appended,
      es_sync = es ++ appended /\
      (forall e, In e appended ->
                 In e incoming /\ ~ ordered_pair_present e es) /\
      (forall e, In e incoming -> ordered_pair_present e es_sync)) /\
  (exists appended, es_import = es ++ appended).
Proof.
  cbv zeta. split; [|split; [|split]].
  - intros ours edge. split;
      [apply sync_edge_appends_iff | apply sync_edge_present].
  - apply sync_result_edges.
  - rewrite sync_result_edges.
    destruct (sync_edges_additive
                (KnowledgeGraph.edges (KnowledgeSync.graph other))
                (KnowledgeGraph.edges (KnowledgeSync.graph ks)))
      as [app [Heq [Hnew Hall]]].
    exists app. rewrite Heq. auto.
  - rewrite import_result_edges. eexists. reflexivity.
Qed.

(** An incoming edge whose unordered pair is already there is appended all
    the same, by [sync] when the orientation differs and by
    [import_from_sync], here of another store's export, even when the
    orientation is the same: C4 as stated fails on the code. *)
Lemma merge_appends_over_existing_pair :
  let ours := KnowledgeGraph.edges (KnowledgeSync.graph store_ab) in
  let ab := Edge.Build "a" "b" "related_to" 1 0 in
  let ba := Edge.Build "b" "a" "related_to" 1 0 in
  ours = [ab] /\
  KnowledgeGraph.edges (KnowledgeSync.graph store_ba) = [ba] /\
  unordered_pair_present ba ours /\
  KnowledgeGraph.edges
    (KnowledgeSync.graph
       (snd (value (KnowledgeSync.sync store_ab (Some store_ba) (frozen 9)))))
  = ours ++ [ba] /\
  unordered_pair_present ab ours /\
  KnowledgeGraph.edges
    (KnowledgeSync.graph
       (snd (value (KnowledgeSync.import_from_sync example_sha256_hex16
                      example_isoformat store_ab
                      (value (KnowledgeSync.export_for_sync store_ab_peer
                                (frozen 9)))
                      (frozen 9)))))
  = ours ++ [ab].
Proof.
  cbv zeta. split; [reflexivity|]. split; [reflexivity|]. split.
  - eexists. split; [left; reflexivity|]. right. reflexivity.
  - split; [vm_compute; reflexivity|]. split.
    + eexists. split; [left; reflexivity|]. left. reflexivity.
    + vm_compute. reflexivity.
Qed.

Lemma merge_edges_additive_witness :
  ordered_pair_present (Edge.Build "a" "b" "co-occurs" 2 7)
    (KnowledgeGraph.edges (KnowledgeSync.graph store_ab)) /\
  KnowledgeSync.sync_edge
    (KnowledgeGraph.edges (KnowledgeSync.graph store_ab))
    (Edge.Build "a" "b" "co-occurs" 2 7)
  = KnowledgeGraph.edges (KnowledgeSync.graph store_ab) /\
  KnowledgeGraph.edges
    (KnowledgeSync.graph
       (snd (value (KnowledgeSync.sync store_ab (Some store_ab) (frozen 9)))))
  = KnowledgeGraph.edges (KnowledgeSync.graph store_ab).
Proof.
  destruct (merge_edges_additive example_sha256_hex16 example_isoformat
              store_ab store_ab (SyncData.Build None None None None)
              (frozen 9)) as [Hstep [Hsync _]].
  assert (Hp : ordered_pair_present (Edge.Build "a" "b" "co-occurs" 2 7)
                 (KnowledgeGraph.edges (KnowledgeSync.graph store_ab))).
  { eexists. split; [left; reflexivity | reflexivity]. }
  split; [exact Hp|]. split.
  - exact (proj2 (Hstep _ _) Hp).
  - rewrite Hsync. reflexivity.
Defined.

(* ===================================================================== *)
(** ** Store engine: [query] *)
(* ===================================================================== *)

Lemma key_lt_false_precedes a b :
  KnowledgeSync.key_lt a b = false -> precedes a b.
Proof.
  unfold KnowledgeSync.key_lt, precedes.
  destruct (Qeq_bool _ _) eqn:E.
  - apply Qeq_bool_iff in E. rewrite Z.ltb_ge. auto.
  - intros H. apply Qltb_false in H. left.
    apply Qle_lt_or_eq in H as [H | H]; [exact H|].
    apply Qeq_sym, Qeq_bool_iff in H. congruence.
Qed.

Lemma key_lt_true_precedes a b :
  KnowledgeSync.key_lt a b = true -> precedes b a.
Proof.
  unfold KnowledgeSync.key_lt, precedes.
  destruct (Qeq_bool _ _) eqn:E.
  - apply Qeq_bool_iff in E. rewrite Z.ltb_lt. intros H. right.
    split; [now apply Qeq_sym | lia].
  - intros H. apply Qltb_true in H. now left.
Qed.

Lemma precedes_trans a b c : precedes a b -> precedes b c -> precedes a c.
Proof.
  unfold precedes. intros [H1 | [H1 U1]] [H2 | [H2 U2]].
  - left. eapply Qlt_trans; eauto.
  - left. now rewrite <- H2.
  - left. now rewrite H1.
  - right. split; [eapply Qeq_trans; eauto | lia].
Qed.

Lemma insert_desc_head x l :
  forall y, precedes y x -> HdRel precedes y l ->
            HdRel precedes y (KnowledgeSync.insert_desc x l).
Proof.
  intros y Hyx Hhd. destruct l as [|z l]; simpl.
  - now constructor.
  - destruct (KnowledgeSync.key_lt x z); constructor; auto.
    now inversion Hhd.
Qed.

Lemma insert_desc_sorted x l :
  Sorted precedes l -> Sorted precedes (KnowledgeSync.insert_desc x l).
Proof.
  induction l as [|y l IH]; simpl; intros Hs.
  - repeat constructor.
  - inversion Hs as [|? ? Hs' Hhd]; subst.
    destruct (KnowledgeSync.key_lt x y) eqn:E.
    + constructor; [now apply IH|].
      apply insert_desc_head; [now apply key_lt_true_precedes | exact Hhd].
    + constructor; [exact Hs|]. constructor.
      now apply key_lt_false_precedes.
Qed.

Lemma sort_desc_sorted l : StronglySorted precedes (KnowledgeSync.sort_desc l).
Proof.
  apply Sorted_StronglySorted.
  - intros a b c. apply precedes_trans.
  - induction l as [|x l IH]; simpl; [constructor|].
    now apply insert_desc_sorted.
Qed.

Lemma insert_desc_perm x l :
  Permutation (KnowledgeSync.insert_desc x l) (x :: l).
Proof.
  induction l as [|y l IH]; simpl; [reflexivity|].
  destruct (KnowledgeSync.key_lt x y); [|reflexivity].
  rewrite IH. apply perm_swap.
Qed.

(** The sort only reorders. *)
Lemma sort_desc_perm l : Permutation (KnowledgeSync.sort_desc l) l.
Proof.
  induction l as [|x l IH]; simpl; [reflexivity|].
  rewrite insert_desc_perm. now constructor.
Qed.

Lemma firstn_strongly_sorted {A : Type} (R : A -> A -> Prop) n : forall l,
  StronglySorted R l -> StronglySorted R (firstn n l).
Proof.
  induction n as [|n IH]; intros l Hs; simpl; [constructor|].
  destruct l as [|x l]; [constructor|].
  inversion Hs as [|? ? Hs' Hall]; subst.
  constructor; [now apply IH|].
  rewrite Forall_forall in *. intros y Hy. apply Hall.
  rewrite <- (firstn_skipn n l). apply in_or_app. now left.
Qed.

Lemma slice_to_sorted {A : Type} (R : A -> A -> Prop) l limit :
  StronglySorted R l -> StronglySorted R (KnowledgeSync.slice_to l limit).
Proof.
  unfold KnowledgeSync.slice_to.
  destruct (limit <? 0); apply firstn_strongly_sorted.
Qed.

Lemma slice_to_In {A : Type} (l : list A) limit x :
  In x (KnowledgeSync.slice_to l limit) -> In x l.
Proof.
  unfold KnowledgeSync.slice_to.
  destruct (limit <? 0); intros H;
    match goal with
    | H : In _ (firstn ?n _) |- _ =>
        rewrite <- (firstn_skipn n l); apply in_or_app; now left
    end.
Qed.

Lemma slice_to_length {A : Type} (l : list A) limit :
  0 <= limit ->
  Z.of_nat (List.length (KnowledgeSync.slice_to l limit)) <= limit.
Proof.
  intros H. unfold KnowledgeSync.slice_to.
  destruct (limit <? 0) eqn:E; [apply Z.ltb_lt in E; lia|].
  pose proof (firstn_le_length (Z.to_nat limit) l). lia.
Qed.

Lemma unexpired_when_tested_widen c1 c2 c c' e :
  wall c1 = wall c -> (ticks c <= ticks c1)%nat -> (ticks c2 <= ticks c')%nat ->
  unexpired_when_tested c1 c2 e -> unexpired_when_tested c c' e.
Proof.
  intros Hw H1 H2 [Hn | [k [Hk He]]]; [now left|].
  right. exists k. split; [lia|]. now rewrite <- Hw.
Qed.

(** One turn of the loop of [query]. *)
Lemma collect_step search source category min_confidence expanded results
    entry c :
  let r := KnowledgeSync.collect search source category min_confidence
             expanded results entry c in
  wall (clock_after r) = wall c /\
  (ticks c <= ticks (clock_after r))%nat /\
  forall e, In e (value r) ->
            In e results \/
            (e = entry /\ unexpired_when_tested c (clock_after r) e).
Proof.
  cbv zeta.
  unfold KnowledgeSync.collect, KnowledgeEntry.is_expired, value,
    clock_after, bind.
  destruct (KnowledgeEntry.expires entry) as [x|] eqn:Ex.
  - unfold datetime_now, ret. cbn [fst snd wall ticks].
    destruct (wall c (ticks c) >? x) eqn:Eg; cbn [fst snd wall ticks].
    + split; [reflexivity|]. split; [lia|]. intros e He. now left.
    + destruct (KnowledgeSync.passes_filters _ _ _ _ _ _);
        cbn [fst snd wall ticks];
        (split; [reflexivity|]); (split; [lia|]); intros e He;
        [|now left].
      apply in_app_or in He as [He | [<- | []]]; [now left|].
      right. split; [reflexivity|]. right. exists (ticks c).
      split; [simpl; lia|]. unfold KnowledgeEntry.expired_at. now rewrite Ex.
  - unfold ret. cbn [fst snd].
    destruct (KnowledgeSync.passes_filters _ _ _ _ _ _);
      cbn [fst snd];
      (split; [reflexivity|]); (split; [lia|]); intros e He;
      [|now left].
    apply in_app_or in He as [He | [<- | []]]; [now left|].
    right. split; [reflexivity | now left].
Qed.

(** The loop of [query] as a whole. *)
Lemma collect_all search source category min_confidence expanded entries :
  forall results c,
  let r := for_each entries
             (KnowledgeSync.collect search source category min_confidence
                expanded)
             results c in
  wall (clock_after r) = wall c /\
  (ticks c <= ticks (clock_after r))%nat /\
  forall e, In e (value r) ->
            In e results \/
            (In e entries /\ unexpired_when_tested c (clock_after r) e).
Proof.
  induction entries as [|entry entries IH]; intros results c; cbv zeta.
  - simpl. repeat split; auto.
  - simpl for_each. unfold bind.
    pose proof (collect_step search source category min_confidence expanded
                  results entry c) as Hstep.
    cbv zeta in Hstep. unfold value, clock_after in *.
    destruct (KnowledgeSync.collect search source category min_confidence
                expanded results entry c) as [results1 c1].
    cbn [fst snd] in Hstep. destruct Hstep as [Hw1 [Ht1 Hin1]].
    specialize (IH results1 c1). cbv zeta in IH.
    destruct (for_each entries _ results1 c1) as [results2 c2].
    cbn [fst snd] in *. destruct IH as [Hw2 [Ht2 Hin2]].
    split; [congruence|]. split; [lia|].
    intros e He. destruct (Hin2 e He) as [Hr1 | [Hr Hu]].
    + destruct (Hin1 e Hr1) as [Hr0 | [-> Hu]]; [now left|].
      right. split; [now left|].
      apply (unexpired_when_tested_widen c c1 c c2); auto.
    + right. split; [now right|].
      apply (unexpired_when_tested_widen c1 c2 c c2); auto.
Qed.

(** C6, as the code has it. Every entry [query] returns is an entry of the
    store that was found not expired at the clock reading at which the loop
    tested it (so at the instant of the query, when the clock stands still
    meanwhile); the result is sorted by [(confidence, updated)], both
    descending; and for a limit that is not negative it has at most [limit]
    entries. *)
Theorem query_unexpired_sorted_bounded
    (ks : KnowledgeSync.t) (search : string) (source category : option string)
    (topics : option (list string)) (min_confidence : Q) (limit : Z)
    (include_related : bool) (c : Clock) :
  let r := KnowledgeSync.query ks search source category topics
             min_confidence limit include_related c in
  (forall e, In e (value r) ->
             In e (Dict.values (KnowledgeSync.entries ks)) /\
             unexpired_when_tested c (clock_after r) e) /\
  (forall now, (forall k, wall c k = now) ->
               forall e, In e (value r) ->
                         KnowledgeEntry.expired_at now e = false) /\
  StronglySorted precedes (value r) /\
  (0 <= limit -> Z.of_nat (List.length (value r)) <= limit).
Proof.
  cbv zeta. unfold KnowledgeSync.query, value, clock_after, bind.
  pose proof (collect_all search source category min_confidence
                (KnowledgeSync.expand_topics (KnowledgeSync.graph ks) topics
                   include_related)
                (Dict.values (KnowledgeSync.entries ks)) [] c) as Hloop.
  cbv zeta in Hloop. unfold value, clock_after in Hloop.
  destruct (for_each (Dict.values (KnowledgeSync.entries ks)) _ [] c)
    as [results c1].
  cbn [fst snd ret] in *. destruct Hloop as [Hw [Ht Hin]].
  assert (Hall : forall e,
             In e (KnowledgeSync.slice_to (KnowledgeSync.sort_desc results)
                     limit) ->
             In e (Dict.values (KnowledgeSync.entries ks)) /\
             unexpired_when_tested c c1 e).
  { intros e He. apply slice_to_In in He.
    apply (Permutation_in _ (sort_desc_perm results)) in He.
    destruct (Hin e He) as [[] | H]. exact H. }
  split; [exact Hall|]. split; [|split].
  - intros now Hnow e He. destruct (Hall e He) as [_ [Hn | [k [_ Hk]]]].
    + unfold KnowledgeEntry.expired_at. now rewrite Hn.
    + now rewrite Hnow in Hk.
  - apply slice_to_sorted, sort_desc_sorted.
  - apply slice_to_length.
Qed.

Lemma query_unexpired_sorted_bounded_witness :
  0 <= 1 /\
  Z.of_nat
    (List.length
       (value (KnowledgeSync.query store_two_notes EmptyString None None None 0 1
                 false (frozen 200)))) <= 1.
Proof.
  split; [lia|].
  apply (query_unexpired_sorted_bounded store_two_notes EmptyString None None None 0
           1 false (frozen 200)).
  lia.
Defined.

(** With [limit = -1] the slice drops the last result only: a store of two
    entries answers with one, which is more than the limit. C6 as stated
    fails on the code. *)
Lemma query_negative_limit_exceeds :
  value (KnowledgeSync.query store_two_notes EmptyString None None None 0 (-1) false
           (frozen 200)) = [port_note] /\
  ~ (Z.of_nat
       (List.length
          (value (KnowledgeSync.query store_two_notes EmptyString None None None 0
                    (-1) false (frozen 200)))) <= -1).
Proof.
  split; [vm_compute; reflexivity|].
  vm_compute. intros H. apply H. reflexivity.
Qed.

(* ===================================================================== *)
(** ** Store invariant: topics of live entries have counted nodes *)
(* ===================================================================== *)

(** C3 at a failing input: [update(id, topics=["Ports"])] on a store that
    satisfies the invariant gives the entry the topic ["ports"] and leaves
    the graph without a node for it. *)
Theorem update_topics_leaves_graph_behind (now : Time) :
  let ks' := snd (value (KnowledgeSync.update store_with_note
                           "5f2a9c0e7b1d4a63" None None (Some ["Ports"])
                           None None (frozen 200))) in
  topics_have_nodes now store_with_note /\
  (exists e, KnowledgeSync.get ks' "5f2a9c0e7b1d4a63" = Some e /\
             KnowledgeEntry.expired_at now e = false /\
             KnowledgeEntry.topics e = ["ports"]) /\
  KnowledgeGraph.nodes (KnowledgeSync.graph ks') = Dict.empty /\
  ~ topics_have_nodes now ks'.
Proof.
  cbv zeta. split; [|split; [|split]].
  - intros e topic [<- | []] _ [].
  - eexists. split; [vm_compute; reflexivity|]. split; reflexivity.
  - reflexivity.
  - intros H.
    destruct (H (KnowledgeEntry.with_updated 200
                   (KnowledgeEntry.with_topics ["ports"] port_note))
                "ports") as [n [r [Hget _]]].
    + left. reflexivity.
    + reflexivity.
    + left. reflexivity.
    + discriminate.
Qed.

(** Whatever its arguments, [update] hands back the graph it found. *)
Lemma update_leaves_graph ks entry_id content category topics confidence
    metadata c :
  KnowledgeSync.graph
    (snd (value (KnowledgeSync.update ks entry_id content category topics
                   confidence metadata c)))
  = KnowledgeSync.graph ks.
Proof.
  unfold KnowledgeSync.update, value, bind.
  destruct (Dict.get entry_id (KnowledgeSync.entries ks)); [|reflexivity].
  unfold datetime_now.
  destruct (KnowledgeSync.save_if_auto_sync _ _) as [u c1]. reflexivity.
Qed.

Lemma lower_char_idempotent (a : ascii) :
  Str.lower_char (Str.lower_char a) = Str.lower_char a.
Proof.
  destruct a as [[] [] [] [] [] [] [] []]; reflexivity.
Qed.

Lemma lower_idempotent (s : string) : Str.lower (Str.lower s) = Str.lower s.
Proof.
  unfold Str.lower. induction s as [|a s IH]; simpl; [reflexivity|].
  now rewrite IH, lower_char_idempotent.
Qed.

Lemma mem_set {V : Type} (k k' : string) (v : V) (d : Dict.t V) :
  Dict.mem k' (Dict.set k v d) = (String.eqb k k' || Dict.mem k' d)%bool.
Proof.
  unfold Dict.mem. destruct (String.eqb k k') eqn:E.
  - apply String.eqb_eq in E. subst. now rewrite get_set_same.
  - apply String.eqb_neq in E. now rewrite get_set_other.
Qed.

Lemma grows_refl g : grows g g.
Proof. split; auto. Qed.

Lemma grows_trans g1 g2 g3 : grows g1 g2 -> grows g2 g3 -> grows g1 g3.
Proof. intros [H1 H2] [H3 H4]. split; auto. Qed.

Lemma counted_after_set (d : Dict.t Node.t) topic n :
  (forall k m, k <> topic -> Dict.get k d = Some m ->
               exists r, Node.references m = Some r /\ 1 <= r) ->
  0 <= match Node.references n with Some r => r | None => 0 end ->
  forall k m,
    Dict.get k (Dict.set topic (KnowledgeGraph.count_reference n) d) = Some m ->
    exists r, Node.references m = Some r /\ 1 <= r.
Proof.
  intros Hd Hn k m. destruct (String.eqb topic k) eqn:E.
  - apply String.eqb_eq in E. subst k. rewrite get_set_same.
    intros [= <-]. simpl. eexists. split; [reflexivity | lia].
  - apply String.eqb_neq in E. rewrite get_set_other by exact E.
    apply Hd. congruence.
Qed.

(** [add_node], called as the store calls it, keeps every node, counts the
    node of its topic, and leaves every count at 1 or more. *)
Lemma add_node_grows g topic c :
  let g' := value (KnowledgeGraph.add_node g topic None c) in
  grows g g' /\
  Dict.mem (Str.lower topic) (KnowledgeGraph.nodes g') = true.
Proof.
  cbv zeta. unfold KnowledgeGraph.add_node, value, bind, grows, nodes_counted.
  destruct (Dict.mem (Str.lower topic) (KnowledgeGraph.nodes g)) eqn:E.
  - unfold ret. cbn [fst snd KnowledgeGraph.nodes].
    unfold Dict.mem in E.
    destruct (Dict.get (Str.lower topic) (KnowledgeGraph.nodes g))
      as [n|] eqn:G; [|discriminate].
    split; [split|].
    + intros Hd. apply counted_after_set; [intros k m _; apply Hd|].
      destruct (Hd _ _ G) as [r [-> Hr]]. lia.
    + intros k Hk. rewrite mem_set, Hk. apply orb_true_r.
    + rewrite mem_set, String.eqb_refl. reflexivity.
  - unfold datetime_now, ret. cbn [fst snd KnowledgeGraph.nodes].
    rewrite get_set_same.
    split; [split|].
    + intros Hd. apply counted_after_set; [|simpl; lia].
      intros k m Hk. rewrite get_set_other by congruence. apply Hd.
    + intros k Hk. rewrite !mem_set, Hk. now rewrite !orb_true_r.
    + rewrite mem_set, String.eqb_refl. reflexivity.
Qed.

Lemma grows_same_nodes g g' :
  KnowledgeGraph.nodes g' = KnowledgeGraph.nodes g -> grows g g'.
Proof.
  intros H. unfold grows, nodes_counted. rewrite H. auto.
Qed.

Lemma add_edge_grows g source target relation weight c :
  grows g (value (KnowledgeGraph.add_edge g source target relation weight c)).
Proof.
  unfold KnowledgeGraph.add_edge, value, bind.
  pose proof (add_node_grows g (Str.lower source) c) as [H1 _].
  unfold value in H1.
  destruct (KnowledgeGraph.add_node g (Str.lower source) None c) as [g1 c1].
  pose proof (add_node_grows g1 (Str.lower target) c1) as [H2 _].
  unfold value in H2.
  destruct (KnowledgeGraph.add_node g1 (Str.lower target) None c1)
    as [g2 c2].
  cbn [fst] in *.
  apply (grows_trans _ _ _ H1). apply (grows_trans _ _ _ H2).
  destruct (KnowledgeGraph.update_existing _ _ _ _ _);
    now apply grows_same_nodes.
Qed.

Lemma for_each_grows {A : Type} (body : KnowledgeGraph.t -> A -> M KnowledgeGraph.t)
    (xs : list A) :
  (forall g x c, grows g (value (body g x c))) ->
  forall g c, grows g (value (for_each xs body g c)).
Proof.
  intros Hbody. induction xs as [|x xs IH]; intros g c; simpl.
  - apply grows_refl.
  - unfold bind, value in *. specialize (Hbody g x c).
    destruct (body g x c) as [g1 c1]. cbn [fst] in *.
    eapply grows_trans; [exact Hbody | apply IH].
Qed.

Lemma add_cooccurrences_grows ts : forall g c,
  grows g (value (KnowledgeSync.add_cooccurrences g ts c)).
Proof.
  induction ts as [|t ts IH]; intros g c; simpl.
  - apply grows_refl.
  - unfold bind, value in *.
    pose proof (for_each_grows
                  (fun g topic2 =>
                     KnowledgeGraph.add_edge g t topic2 "co-occurs" 1)
                  ts (fun g x c => add_edge_grows g t x "co-occurs" 1 c)
                  g c) as H.
    unfold value in H.
    destruct (for_each ts _ g c) as [g1 c1]. cbn [fst] in *.
    eapply grows_trans; [exact H | apply IH].
Qed.

(** The node loop of [add] leaves a node for each topic. *)
Lemma add_nodes_cover ts : forall g c,
  let g' := value (for_each ts
                     (fun g topic => KnowledgeGraph.add_node g topic None)
                     g c) in
  grows g g' /\
  forall t, In t ts ->
            Dict.mem (Str.lower t) (KnowledgeGraph.nodes g') = true.
Proof.
  induction ts as [|t ts IH]; intros g c; cbv zeta; simpl.
  - split; [apply grows_refl | tauto].
  - unfold bind, value in *.
    pose proof (add_node_grows g t c) as [H1 Hm]. unfold value in H1, Hm.
    destruct (KnowledgeGraph.add_node g t None c) as [g1 c1].
    specialize (IH g1 c1). cbv zeta in IH.
    destruct (for_each ts _ g1 c1) as [g2 c2]. cbn [fst] in *.
    destruct IH as [H2 Hcov]. split; [eapply grows_trans; eauto|].
    intros t' [<- | Hin]; [|auto].
    now apply (proj2 H2).
Qed.

Lemma node_counted_mem g topic :
  nodes_counted g ->
  Dict.mem topic (KnowledgeGraph.nodes g) = true -> node_counted g topic.
Proof.
  unfold Dict.mem, node_counted. intros Hc Hm.
  destruct (Dict.get topic (KnowledgeGraph.nodes g)) as [n|] eqn:G;
    [|discriminate].
  destruct (Hc _ _ G) as [r [Hr Hle]]. eauto.
Qed.

Lemma node_counted_is_mem g topic :
  node_counted g topic -> Dict.mem topic (KnowledgeGraph.nodes g) = true.
Proof.
  unfold Dict.mem. intros [n [r [-> _]]]. reflexivity.
Qed.

Lemma values_set_In {V : Type} (k : string) (v x : V) (d : Dict.t V) :
  In x (Dict.values (Dict.set k v d)) -> x = v \/ In x (Dict.values d).
Proof.
  unfold Dict.values. induction d as [|[k0 v0] d IH]; simpl.
  - intros [<- | []]. now left.
  - destruct (String.eqb k0 k); simpl.
    + intros [<- | H]; auto.
    + intros [<- | H]; auto. destruct (IH H); auto.
Qed.

Lemma values_del_In {V : Type} (k : string) (x : V) (d : Dict.t V) :
  In x (Dict.values (Dict.del k d)) -> In x (Dict.values d).
Proof.
  unfold Dict.values. induction d as [|[k0 v0] d IH]; simpl; [tauto|].
  destruct (String.eqb k0 k); simpl; [tauto|].
  intros [<- | H]; auto.
Qed.

Lemma init_topics sha256_hex16 isoformat content source category topics
    confidence expires references metadata entry_id created updated c :
  KnowledgeEntry.topics
    (value (KnowledgeEntry.init sha256_hex16 isoformat content source
              category topics confidence expires references metadata
              entry_id created updated c))
  = map Str.lower (or_nil topics).
Proof.
  unfold KnowledgeEntry.init, value, bind. now destruct created.
Qed.

(** [add] maintains the invariant: the sibling of [update] does count the
    topics of the entry it stores. *)
Lemma add_keeps_topics_counted sha256_hex16 isoformat ks content category
    topics confidence expires_in_days references metadata c now :
  nodes_counted (KnowledgeSync.graph ks) ->
  topics_have_nodes now ks ->
  let ks' := snd (value (KnowledgeSync.add sha256_hex16 isoformat ks content
                           category topics confidence expires_in_days
                           references metadata c)) in
  nodes_counted (KnowledgeSync.graph ks') /\ topics_have_nodes now ks'.
Proof.
  intros Hc Hinv. cbv zeta. unfold value.
  remember (KnowledgeSync.add sha256_hex16 isoformat ks content category
              topics confidence expires_in_days references metadata c)
    as R eqn:ER.
  unfold KnowledgeSync.add in ER.
  destruct (negb _ || negb _)%bool; [subst R; split; assumption|].
  unfold bind at 1 in ER.
  match type of ER with
  | context [let (_, _) := ?m c in _] =>
      destruct (m c) as [[expires|e] c0]; [|subst R; split; assumption]
  end.
  unfold bind at 1 in ER.
  pose proof (init_topics sha256_hex16 isoformat (Str.strip content)
                (KnowledgeSync.agent ks) category (Some (or_nil topics))
                confidence expires references metadata None None None c0)
    as Htopics.
  unfold value in Htopics.
  destruct (KnowledgeEntry.init _ _ _ _ _ _ _ _ _ _ _ _ _ c0)
    as [entry c1].
  cbn [fst] in Htopics. unfold bind at 1 in ER.
  pose proof (add_nodes_cover (KnowledgeEntry.topics entry)
                (KnowledgeSync.graph ks) c1) as Hnodes.
  cbv zeta in Hnodes. unfold value in Hnodes.
  destruct (for_each (KnowledgeEntry.topics entry) _ _ c1) as [g1 c2].
  cbn [fst] in Hnodes. destruct Hnodes as [Hg1 Hcov].
  unfold bind at 1 in ER.
  pose proof (add_cooccurrences_grows (KnowledgeEntry.topics entry) g1 c2)
    as Hg2.
  unfold value in Hg2.
  destruct (KnowledgeSync.add_cooccurrences g1 _ c2) as [g2 c3].
  cbn [fst] in Hg2. unfold bind in ER.
  destruct (KnowledgeSync.save_if_auto_sync _ c3) as [u c4].
  subst R.
  cbn [fst snd ret KnowledgeSync.graph KnowledgeSync.with_graph
         KnowledgeSync.with_entries KnowledgeSync.entries].
  pose proof (grows_trans _ _ _ Hg1 Hg2) as [Hcounted Hmem].
  split; [now apply Hcounted|].
  intros e topic He Hlive Htopic.
  cbn [KnowledgeSync.entries KnowledgeSync.graph] in *.
  apply node_counted_mem; [now apply Hcounted|].
  apply values_set_In in He as [-> | He].
  - apply (proj2 Hg2). rewrite Htopics in Htopic. cbn [or_nil] in Htopic.
    apply in_map_iff in Htopic as [t0 [<- Ht0]].
    rewrite <- lower_idempotent. apply Hcov.
    rewrite Htopics. cbn [or_nil]. now apply in_map.
  - apply Hmem. apply node_counted_is_mem. now apply (Hinv e).
Qed.

(** [delete] and [cleanup_expired] only remove entries, so they maintain
    the invariant too. *)
Lemma delete_keeps_topics_counted ks entry_id c now :
  topics_have_nodes now ks ->
  topics_have_nodes now (snd (value (KnowledgeSync.delete ks entry_id c))).
Proof.
  intros Hinv. unfold KnowledgeSync.delete, value, bind.
  destruct (negb _); [exact Hinv|].
  destruct (KnowledgeSync.save_if_auto_sync _ c) as [u c1].
  cbn [fst snd ret]. intros e topic He. apply (Hinv e topic).
  cbn [KnowledgeSync.entries KnowledgeSync.with_entries] in He.
  now apply values_del_In in He.
Qed.

Lemma values_del_all_In {V : Type} (ids : list string) (x : V) :
  forall d : Dict.t V,
  In x (Dict.values (fold_left (fun es k => Dict.del k es) ids d)) ->
  In x (Dict.values d).
Proof.
  induction ids as [|k ids IH]; intros d; simpl; [tauto|].
  intros H. apply IH in H. now apply values_del_In in H.
Qed.

Lemma cleanup_expired_keeps_topics_counted ks c now :
  topics_have_nodes now ks ->
  topics_have_nodes now (snd (value (KnowledgeSync.cleanup_expired ks c))).
Proof.
  intros Hinv. unfold KnowledgeSync.cleanup_expired, value, bind.
  destruct (for_each (KnowledgeSync.entries ks) _ [] c) as [ids c1].
  match goal with
  | |- context [let (_, _) := ?m c1 in _] => destruct (m c1) as [u c2]
  end.
  cbn [fst snd ret]. intros e topic He. apply (Hinv e topic).
  cbn [KnowledgeSync.entries KnowledgeSync.with_entries] in He.
  now apply values_del_all_In in He.
Qed.

(* ===================================================================== *)
(** ** Entry model: normal form, serialisation, text match *)
(* ===================================================================== *)

Lemma upper_char_idempotent (a : ascii) :
  Str.upper_char (Str.upper_char a) = Str.upper_char a.
Proof.
  destruct a as [[] [] [] [] [] [] [] []]; reflexivity.
Qed.

Lemma upper_idempotent (s : string) : Str.upper (Str.upper s) = Str.upper s.
Proof.
  unfold Str.upper. induction s as [|a s IH]; simpl; [reflexivity|].
  now rewrite IH, upper_char_idempotent.
Qed.

Lemma lower_upper_char (a : ascii) :
  Str.lower_char (Str.upper_char a) = Str.lower_char a.
Proof.
  destruct a as [[] [] [] [] [] [] [] []]; reflexivity.
Qed.

(** On ASCII text lower-casing undoes upper-casing. *)
Lemma lower_upper (s : string) :
  ascii_only s = true -> Str.lower (Str.upper s) = Str.lower s.
Proof.
  intros _.
  unfold Str.lower, Str.upper. induction s as [|a s IH]; simpl; [reflexivity|].
  now rewrite IH, lower_upper_char.
Qed.

Lemma map_lower_idempotent (l : list string) :
  map Str.lower (map Str.lower l) = map Str.lower l.
Proof.
  rewrite map_map. apply map_ext. intros s. apply lower_idempotent.
Qed.

Lemma clamp_cases (c : Q) :
  (Qltb 0 c = false /\ clamp c = 0%Q) \/
  (Qltb 0 c = true /\ Qltb c 1 = true /\ clamp c = c) \/
  (Qltb 0 c = true /\ Qltb c 1 = false /\ clamp c = 1%Q).
Proof.
  unfold clamp, py_max, py_min.
  destruct (Qltb 0 c) eqn:E0.
  - destruct (Qltb c 1) eqn:E1; auto.
  - left. split; reflexivity.
Qed.

Lemma clamp_idempotent (c : Q) : clamp (clamp c) = clamp c.
Proof.
  destruct (clamp_cases c) as [[_ ->] | [[E0 [E1 ->]] | [_ [_ ->]]]];
    try reflexivity.
  unfold clamp, py_max, py_min. now rewrite E0, E1.
Qed.

(** X1. The constructor clamps the confidence into [0, 1]: a value below
    0 becomes 0, a value above 1 becomes 1, a value in range is kept. *)
Theorem init_clamps_confidence
    (sha256_hex16 : string -> string) (isoformat : Time -> string)
    (content source category : string) (topics : option (list string))
    (confidence : Q) (expires : option Time)
    (references : option (list string)) (metadata : option Metadata)
    (entry_id : option string) (created updated : option Time) (c : Clock) :
  let stored :=
    KnowledgeEntry.confidence
      (value (KnowledgeEntry.init sha256_hex16 isoformat content source
                category topics confidence expires references metadata
                entry_id created updated c)) in
  (0 <= stored <= 1)%Q /\
  ((confidence <= 0)%Q -> stored = 0%Q) /\
  ((1 <= confidence)%Q -> stored = 1%Q) /\
  ((0 < confidence < 1)%Q -> stored = confidence).
Proof.
  cbv zeta.
  assert (Hs : KnowledgeEntry.confidence
                 (value (KnowledgeEntry.init sha256_hex16 isoformat content
                           source category topics confidence expires
                           references metadata entry_id created updated c))
               = clamp confidence).
  { unfold KnowledgeEntry.init, value, bind. now destruct created. }
  rewrite Hs.
  destruct (clamp_cases confidence)
    as [[E0 ->] | [[E0 [E1 ->]] | [E0 [E1 ->]]]].
  - apply Qltb_false in E0. repeat split; try discriminate; auto.
    + intros H. exfalso. apply (Qlt_irrefl 1).
      eapply Qle_lt_trans; [exact H|].
      eapply Qle_lt_trans; [exact E0 | reflexivity].
    + intros [H _]. exfalso. apply (Qlt_irrefl 0).
      eapply Qlt_le_trans; eauto.
  - apply Qltb_true in E0. apply Qltb_true in E1.
    repeat split; auto using Qlt_le_weak.
    + intros H. exfalso. apply (Qlt_irrefl 0). eapply Qlt_le_trans; eauto.
    + intros H. exfalso. apply (Qlt_irrefl 1). eapply Qle_lt_trans; eauto.
  - apply Qltb_true in E0. apply Qltb_false in E1.
    repeat split; try discriminate; auto.
    + intros H. exfalso. apply (Qlt_irrefl 0). eapply Qlt_le_trans; eauto.
    + intros [_ H]. exfalso. apply (Qlt_irrefl 1). eapply Qle_lt_trans; eauto.
Qed.

(** What the constructor builds is in normal form, as soon as it has an
    id. *)
Lemma init_normalised sha256_hex16 isoformat content source category topics
    confidence expires references metadata entry_id created updated c :
  let e := value (KnowledgeEntry.init sha256_hex16 isoformat content source
                    category topics confidence expires references metadata
                    entry_id created updated c) in
  Str.truthy (KnowledgeEntry.entry_id e) = true -> normalised e.
Proof.
  cbv zeta. unfold KnowledgeEntry.init, value, bind, normalised.
  destruct created; cbn [fst ret datetime_now KnowledgeEntry.entry_id
    KnowledgeEntry.source KnowledgeEntry.category KnowledgeEntry.topics
    KnowledgeEntry.confidence];
    (intros Hid; split; [exact Hid|]);
    (split; [apply upper_idempotent|]);
    (destruct (Dict.mem (Str.upper category) CATEGORIES) eqn:E;
     [ split; [apply upper_idempotent|]; split; [exact E|]
     | split; [reflexivity|]; split; [reflexivity|] ]);
    (split; [apply map_lower_idempotent | apply clamp_idempotent]).
Qed.

(** For an entry in normal form [from_dict] undoes [to_dict]. *)
Lemma from_dict_undoes_to_dict sha256_hex16 isoformat e c :
  normalised e ->
  KnowledgeEntry.from_dict sha256_hex16 isoformat (KnowledgeEntry.to_dict e) c
  = (e, c).
Proof.
  intros [Hid [Hsrc [Hcat [Hmem [Htop Hconf]]]]].
  unfold KnowledgeEntry.from_dict, KnowledgeEntry.to_dict, KnowledgeEntry.init,
    bind, ret.
  cbn [EntryDict.content EntryDict.source EntryDict.category EntryDict.topics
       EntryDict.confidence EntryDict.expires EntryDict.references
       EntryDict.metadata EntryDict.entry_id EntryDict.created
       EntryDict.updated or_nil].
  change (py_min 1 (py_max 0 (KnowledgeEntry.confidence e)))
    with (clamp (KnowledgeEntry.confidence e)).
  rewrite Hid, Hsrc, Hcat, Hmem, Htop, Hconf.
  destruct e; reflexivity.
Qed.

(** X2. Serialisation round trip: for an entry in the constructor's normal
    form, [from_dict(to_dict(e))] gives back [e], field for field, without
    reading the clock. *)
Theorem from_dict_to_dict
    (sha256_hex16 : string -> string) (isoformat : Time -> string)
    (e : KnowledgeEntry.t) (c : Clock) :
  normalised e ->
  KnowledgeEntry.from_dict sha256_hex16 isoformat (KnowledgeEntry.to_dict e) c
  = (e, c).
Proof. apply from_dict_undoes_to_dict. Qed.

Lemma from_dict_to_dict_witness :
  normalised port_note /\
  KnowledgeEntry.from_dict example_sha256_hex16 example_isoformat
    (KnowledgeEntry.to_dict port_note) (frozen 300)
  = (port_note, frozen 300).
Proof.
  assert (H : normalised port_note) by (repeat split; reflexivity).
  split; [exact H|].
  exact (from_dict_to_dict example_sha256_hex16 example_isoformat port_note
           (frozen 300) H).
Defined.

Lemma contains_empty (s : string) : Str.contains EmptyString s = true.
Proof. destruct s; reflexivity. Qed.

(** X3. For a query of ASCII characters the text match is
    case-insensitive in the query: the query, its upper-cased form and its
    lower-cased form match the same entries. The empty query matches every
    entry. *)
Theorem matches_query_ignores_case (e : KnowledgeEntry.t) (query : string) :
  ascii_only query = true ->
  KnowledgeEntry.matches_query e (Str.upper query)
  = KnowledgeEntry.matches_query e query /\
  KnowledgeEntry.matches_query e (Str.lower query)
  = KnowledgeEntry.matches_query e query /\
  KnowledgeEntry.matches_query e EmptyString = true.
Proof.
  intros Hascii. unfold KnowledgeEntry.matches_query.
  rewrite (lower_upper query Hascii), lower_idempotent.
  split; [reflexivity|]. split; [reflexivity|].
  simpl Str.lower. now rewrite contains_empty.
Qed.

Lemma matches_query_ignores_case_witness :
  ascii_only "Port" = true /\
  KnowledgeEntry.matches_query port_note "PORT" = true /\
  KnowledgeEntry.matches_query port_note "Port" = true.
Proof.
  destruct (matches_query_ignores_case port_note "Port" eq_refl)
    as [Hup _].
  split; [reflexivity|].
  assert (Hq : KnowledgeEntry.matches_query port_note "Port" = true)
    by reflexivity.
  split; [|exact Hq].
  change "PORT" with (Str.upper "Port"). rewrite Hup. exact Hq.
Defined.

(* ===================================================================== *)
(** ** Topic graph: reference counts and related topics *)
(* ===================================================================== *)

(** X4. [add_node] counts one more reference on the node of the
    lower-cased topic, creating it when it is missing (from the count the
    metadata argument carries, else from 0); it leaves every other node and
    all edges alone, and reads the clock only to stamp a new node. *)
Theorem add_node_counts_reference
    (g : KnowledgeGraph.t) (topic : string) (metadata : option NodeAttrs.t)
    (c : Clock) :
  let r := KnowledgeGraph.add_node g topic metadata c in
  let t := Str.lower topic in
  Dict.mem t (KnowledgeGraph.nodes (value r)) = true /\
  reference_count (value r) t
  = (if Dict.mem t (KnowledgeGraph.nodes g) then reference_count g t
     else match metadata with
          | Some a => match NodeAttrs.references a with
                      | Some n => n
                      | None => 0
                      end
          | None => 0
          end) + 1 /\
  (forall k, k <> t ->
             Dict.get k (KnowledgeGraph.nodes (value r))
             = Dict.get k (KnowledgeGraph.nodes g)) /\
  KnowledgeGraph.edges (value r) = KnowledgeGraph.edges g /\
  ticks (clock_after r)
  = (if Dict.mem t (KnowledgeGraph.nodes g) then ticks c else S (ticks c)).
Proof.
  cbv zeta.
  unfold KnowledgeGraph.add_node, value, clock_after, bind, reference_count.
  destruct (Dict.mem (Str.lower topic) (KnowledgeGraph.nodes g)) eqn:E.
  - unfold ret. cbn [fst snd KnowledgeGraph.nodes KnowledgeGraph.edges].
    unfold Dict.mem in E.
    destruct (Dict.get (Str.lower topic) (KnowledgeGraph.nodes g))
      as [n|] eqn:G; [|discriminate].
    rewrite mem_set, String.eqb_refl, get_set_same.
    repeat split; auto.
    intros k Hk. apply get_set_other. congruence.
  - unfold datetime_now, ret.
    cbn [fst snd KnowledgeGraph.nodes KnowledgeGraph.edges ticks].
    rewrite get_set_same. rewrite mem_set, String.eqb_refl, get_set_same.
    unfold Dict.mem in E.
    destruct (Dict.get (Str.lower topic) (KnowledgeGraph.nodes g));
      [discriminate|].
    repeat split; auto.
    + destruct metadata as [a|]; simpl; [|reflexivity].
      destruct (NodeAttrs.references a); reflexivity.
    + intros k Hk. rewrite !get_set_other by congruence. reflexivity.
Qed.

Lemma strset_mem_In x s : StrSet.mem x s = true <-> In x s.
Proof.
  unfold StrSet.mem. rewrite existsb_exists. split.
  - intros [y [Hy E]]. apply String.eqb_eq in E. now subst.
  - intros H. exists x. split; [exact H | apply String.eqb_refl].
Qed.

Lemma strset_mem_false x s : StrSet.mem x s = false <-> ~ In x s.
Proof.
  rewrite <- strset_mem_In. destruct (StrSet.mem x s); split; congruence.
Qed.

Lemma strset_add_In x y s : In y (StrSet.add x s) <-> y = x \/ In y s.
Proof.
  unfold StrSet.add. destruct (StrSet.mem x s) eqn:E.
  - apply strset_mem_In in E. split; [auto | intros [-> | H]; auto].
  - rewrite in_app_iff. simpl. split.
    + intros [H | [<- | []]]; auto.
    + intros [-> | H]; auto.
Qed.

Lemma strset_add_NoDup x s : NoDup s -> NoDup (StrSet.add x s).
Proof.
  intros H. unfold StrSet.add. destruct (StrSet.mem x s) eqn:E; [exact H|].
  apply strset_mem_false in E.
  induction s as [|y s IH]; simpl.
  - constructor; [tauto | constructor].
  - inversion H as [|? ? Hy Hs]; subst. constructor.
    + rewrite in_app_iff. simpl. intros [Hin | [<- | []]]; [tauto|].
      apply E. now left.
    + apply IH; [exact Hs|]. intros Hin. apply E. now right.
Qed.

Lemma strset_update_In xs : forall s y,
  In y (StrSet.update s xs) <-> In y s \/ In y xs.
Proof.
  unfold StrSet.update.
  induction xs as [|x xs IH]; intros s y; simpl; [tauto|].
  rewrite IH, strset_add_In. split.
  - intros [[-> | H] | H]; auto.
  - intros [H | [<- | H]]; auto.
Qed.

Lemma strset_update_NoDup xs : forall s,
  NoDup s -> NoDup (StrSet.update s xs).
Proof.
  unfold StrSet.update.
  induction xs as [|x xs IH]; intros s H; simpl; [exact H|].
  apply IH. now apply strset_add_NoDup.
Qed.

Lemma hit_Some visited node edge x :
  hit visited node edge = Some x ->
  ~ In x visited /\
  ((Edge.source edge = node /\ Edge.target edge = x) \/
   (Edge.target edge = node /\ Edge.source edge = x)).
Proof.
  unfold hit.
  destruct (String.eqb (Edge.source edge) node
            && negb (StrSet.mem (Edge.target edge) visited))%bool eqn:E1.
  - intros [= <-]. apply andb_true_iff in E1 as [Hs Hv].
    apply String.eqb_eq in Hs. apply negb_true_iff, strset_mem_false in Hv.
    auto.
  - destruct (String.eqb (Edge.target edge) node
              && negb (StrSet.mem (Edge.source edge) visited))%bool eqn:E2;
      [|discriminate].
    intros [= <-]. apply andb_true_iff in E2 as [Ht Hv].
    apply String.eqb_eq in Ht. apply negb_true_iff, strset_mem_false in Hv.
    auto.
Qed.

(** The inner loop of a ring, over the edges. *)
Lemma ring_edges_In visited node es : forall acc x,
  In x (fold_left
          (fun acc edge =>
             if (String.eqb (Edge.source edge) node
                 && negb (StrSet.mem (Edge.target edge) visited))%bool
             then StrSet.add (Edge.target edge) acc
             else if (String.eqb (Edge.target edge) node
                      && negb (StrSet.mem (Edge.source edge) visited))%bool
             then StrSet.add (Edge.source edge) acc
             else acc)
          es acc)
  <-> In x acc \/ exists edge, In edge es /\ hit visited node edge = Some x.
Proof.
  induction es as [|e es IH]; intros acc x; simpl.
  - split; [auto | intros [H | [edge [[] _]]]; exact H].
  - rewrite IH. unfold hit at 2.
    destruct (String.eqb (Edge.source e) node
              && negb (StrSet.mem (Edge.target e) visited))%bool eqn:E1;
      [|destruct (String.eqb (Edge.target e) node
                  && negb (StrSet.mem (Edge.source e) visited))%bool eqn:E2].
    + rewrite strset_add_In. split.
      * intros [[-> | H] | [edge [Hin Hh]]]; eauto.
        right. exists e. split; [now left|]. unfold hit. now rewrite E1.
      * intros [H | [edge [[<- | Hin] Hh]]]; eauto.
        unfold hit in Hh. rewrite E1 in Hh. injection Hh as <-. auto.
    + rewrite strset_add_In. split.
      * intros [[-> | H] | [edge [Hin Hh]]]; eauto.
        right. exists e. split; [now left|]. unfold hit. now rewrite E1, E2.
      * intros [H | [edge [[<- | Hin] Hh]]]; eauto.
        unfold hit in Hh. rewrite E1, E2 in Hh. injection Hh as <-. auto.
    + split.
      * intros [H | [edge [Hin Hh]]]; eauto.
      * intros [H | [edge [[<- | Hin] Hh]]]; eauto.
        unfold hit in Hh. rewrite E1, E2 in Hh. discriminate.
Qed.

Lemma ring_edges_NoDup visited node es : forall acc,
  NoDup acc ->
  NoDup (fold_left
           (fun acc edge =>
              if (String.eqb (Edge.source edge) node
                  && negb (StrSet.mem (Edge.target edge) visited))%bool
              then StrSet.add (Edge.target edge) acc
              else if (String.eqb (Edge.target edge) node
                       && negb (StrSet.mem (Edge.source edge) visited))%bool
              then StrSet.add (Edge.source edge) acc
              else acc)
           es acc).
Proof.
  induction es as [|e es IH]; intros acc H; simpl; [exact H|].
  apply IH.
  destruct (_ && _)%bool; [now apply strset_add_NoDup|].
  destruct (_ && _)%bool; [now apply strset_add_NoDup | exact H].
Qed.

Lemma next_level_In es visited current x :
  In x (KnowledgeGraph.next_level es visited current) <->
  exists node edge,
    In node current /\ In edge es /\ hit visited node edge = Some x.
Proof.
  unfold KnowledgeGraph.next_level.
  assert (H : forall acc,
             In x (fold_left
                     (fun acc node =>
                        fold_left
                          (fun acc edge =>
                             if (String.eqb (Edge.source edge) node
                                 && negb (StrSet.mem (Edge.target edge)
                                            visited))%bool
                             then StrSet.add (Edge.target edge) acc
                             else if (String.eqb (Edge.target edge) node
                                      && negb (StrSet.mem (Edge.source edge)
                                                 visited))%bool
                             then StrSet.add (Edge.source edge) acc
                             else acc)
                          es acc)
                     current acc)
             <-> In x acc \/
                 exists node edge,
                   In node current /\ In edge es /\
                   hit visited node edge = Some x).
  { induction current as [|n current IH]; intros acc; simpl.
    - split; [auto | intros [H | [node [edge [[] _]]]]; exact H].
    - rewrite IH, ring_edges_In. split.
      + intros [[H | [edge [Hin Hh]]] | [node [edge [Hn [Hin Hh]]]]]; eauto 8.
      + intros [H | [node [edge [[<- | Hn] [Hin Hh]]]]]; eauto 8. }
  rewrite H. simpl. tauto.
Qed.

Lemma next_level_NoDup es visited current :
  NoDup (KnowledgeGraph.next_level es visited current).
Proof.
  unfold KnowledgeGraph.next_level.
  assert (H : forall acc, NoDup acc ->
             NoDup (fold_left
                      (fun acc node =>
                         fold_left
                           (fun acc edge =>
                              if (String.eqb (Edge.source edge) node
                                  && negb (StrSet.mem (Edge.target edge)
                                             visited))%bool
                              then StrSet.add (Edge.target edge) acc
                              else if (String.eqb (Edge.target edge) node
                                       && negb (StrSet.mem (Edge.source edge)
                                                  visited))%bool
                              then StrSet.add (Edge.source edge) acc
                              else acc)
                           es acc)
                      current acc)).
  { induction current as [|n current IH]; intros acc Hacc; simpl;
      [exact Hacc|].
    apply IH. now apply ring_edges_NoDup. }
  apply H. constructor.
Qed.

(** Every ring keeps the traversal away from what is visited, and inside
    the edge list. *)
Lemma rings_sound es topic depth : forall related visited current,
  In topic visited ->
  (forall x, In x related ->
             x <> topic /\ exists y, adjacent es y x) ->
  NoDup related ->
  let out := KnowledgeGraph.rings es depth related visited current in
  NoDup out /\
  forall x, In x out -> x <> topic /\ exists y, adjacent es y x.
Proof.
  induction depth as [|depth IH]; intros related visited current Hv Hrel Hnd;
    cbv zeta; simpl.
  - split; assumption.
  - assert (Hnext : forall x,
               In x (KnowledgeGraph.next_level es visited current) ->
               x <> topic /\ exists y, adjacent es y x).
    { intros x Hx. apply next_level_In in Hx as [node [edge [_ [He Hh]]]].
      apply hit_Some in Hh as [Hnv Hends]. split.
      - intros ->. contradiction.
      - exists node, edge. split; [exact He|]. tauto. }
    assert (Hrel' : forall x,
               In x (StrSet.update related
                       (KnowledgeGraph.next_level es visited current)) ->
               x <> topic /\ exists y, adjacent es y x).
    { intros x Hx. apply strset_update_In in Hx as [Hx | Hx]; auto. }
    assert (Hnd' : NoDup (StrSet.update related
                            (KnowledgeGraph.next_level es visited current)))
      by now apply strset_update_NoDup.
    destruct (KnowledgeGraph.next_level es visited current) as [|n next] eqn:E.
    + split; assumption.
    + apply IH; auto.
      apply strset_update_In. now left.
Qed.

(** X5. [get_related] never returns the topic it starts from, returns every
    topic once, and returns only ends of edges; for a topic that is not a
    node, and for a depth below 1, it returns nothing. *)
Theorem get_related_sound (g : KnowledgeGraph.t) (topic : string) (depth : Z) :
  NoDup (KnowledgeGraph.get_related g topic depth) /\
  (forall x, In x (KnowledgeGraph.get_related g topic depth) ->
             x <> Str.lower topic /\
             exists y, adjacent (KnowledgeGraph.edges g) y x) /\
  (Dict.mem (Str.lower topic) (KnowledgeGraph.nodes g) = false ->
   KnowledgeGraph.get_related g topic depth = []) /\
  (depth <= 0 -> KnowledgeGraph.get_related g topic depth = []).
Proof.
  unfold KnowledgeGraph.get_related.
  destruct (Dict.mem (Str.lower topic) (KnowledgeGraph.nodes g)); simpl.
  - pose proof (rings_sound (KnowledgeGraph.edges g) (Str.lower topic)
                  (Z.to_nat depth) [] [Str.lower topic] [Str.lower topic])
      as H.
    cbv zeta in H. destruct H as [Hnd Hin].
    + now left.
    + intros x [].
    + constructor.
    + split; [exact Hnd|]. split; [exact Hin|]. split; [discriminate|].
      intros Hd. replace (Z.to_nat depth) with 0%nat by lia. reflexivity.
  - split; [constructor|]. split; [intros x []|]. split; reflexivity.
Qed.

(** X6. At depth 1 [get_related] is exactly the set of neighbours of the
    topic other than itself, edges being followed in both directions. *)
Theorem get_related_depth_one (g : KnowledgeGraph.t) (topic x : string) :
  Dict.mem (Str.lower topic) (KnowledgeGraph.nodes g) = true ->
  (In x (KnowledgeGraph.get_related g topic 1) <->
   x <> Str.lower topic /\
   adjacent (KnowledgeGraph.edges g) (Str.lower topic) x).
Proof.
  intros Hmem. unfold KnowledgeGraph.get_related. rewrite Hmem.
  cbn [negb]. change (Z.to_nat 1) with 1%nat. cbn [KnowledgeGraph.rings].
  set (t := Str.lower topic).
  set (es := KnowledgeGraph.edges g).
  assert (Hout : forall l : StrSet.t,
             In x (match l with
                   | [] => StrSet.update [] l
                   | _ :: _ => StrSet.update [] l
                   end) <-> In x l).
  { intros l. destruct l; rewrite strset_update_In; simpl; tauto. }
  rewrite Hout, next_level_In. split.
  - intros [node [edge [[<- | []] [He Hh]]]].
    apply hit_Some in Hh as [Hnv Hends]. split.
    + intros ->. apply Hnv. now left.
    + exists edge. split; [exact He | exact Hends].
  - intros [Hne [edge [He Hends]]].
    exists t, edge. split; [now left|]. split; [exact He|].
    assert (Hv : StrSet.mem x [t] = false).
    { apply strset_mem_false. intros [Heq | []]. congruence. }
    unfold hit. destruct Hends as [[Hs Ht] | [Ht Hs]].
    + rewrite Hs, Ht, String.eqb_refl, Hv. reflexivity.
    + destruct (String.eqb (Edge.source edge) t) eqn:Es.
      * apply String.eqb_eq in Es. congruence.
      * cbn [andb]. rewrite Ht, Hs, String.eqb_refl, Hv. reflexivity.
Qed.

Lemma get_related_depth_one_witness :
  Dict.mem (Str.lower "B") (KnowledgeGraph.nodes graph_ab) = true /\
  In "a" (KnowledgeGraph.get_related graph_ab "B" 1).
Proof.
  split; [reflexivity|].
  apply (get_related_depth_one graph_ab "B" "a"); [reflexivity|].
  split; [discriminate|].
  eexists. split; [left; reflexivity|]. right. split; reflexivity.
Defined.

(* ===================================================================== *)
(** ** Dictionaries keep their keys unique *)
(* ===================================================================== *)

Section DictKeys.
Context {V : Type}.
Implicit Types (d : Dict.t V) (k : string) (v : V).

Lemma mem_In_keys k d : Dict.mem k d = true <-> In k (Dict.keys d).
Proof.
  unfold Dict.mem, Dict.keys. induction d as [|[k0 v0] d IH]; simpl.
  - split; [discriminate | tauto].
  - destruct (String.eqb k0 k) eqn:E.
    + apply String.eqb_eq in E. split; auto.
    + apply String.eqb_neq in E. rewrite IH. split; [auto|].
      intros [H | H]; [contradiction | exact H].
Qed.

Lemma keys_set k v d :
  Dict.keys (Dict.set k v d)
  = if Dict.mem k d then Dict.keys d else Dict.keys d ++ [k].
Proof.
  unfold Dict.mem, Dict.keys. induction d as [|[k0 v0] d IH]; simpl.
  - reflexivity.
  - destruct (String.eqb k0 k) eqn:E; simpl; [reflexivity|].
    rewrite IH. now destruct (Dict.get k d).
Qed.

Lemma NoDup_keys_set k v d :
  NoDup (Dict.keys d) -> NoDup (Dict.keys (Dict.set k v d)).
Proof.
  intros H. rewrite keys_set. destruct (Dict.mem k d) eqn:E; [exact H|].
  assert (Hk : ~ In k (Dict.keys d)).
  { intros Hin. apply mem_In_keys in Hin. congruence. }
  clear E. induction (Dict.keys d) as [|x l IH]; simpl.
  - constructor; [tauto | constructor].
  - inversion H; subst. constructor.
    + rewrite in_app_iff. simpl. intros [Hin | [<- | []]]; [tauto|].
      apply Hk. now left.
    + apply IH; auto. intros Hin. apply Hk. now right.
Qed.

Lemma keys_del_incl k d x :
  In x (Dict.keys (Dict.del k d)) -> In x (Dict.keys d).
Proof.
  unfold Dict.keys. induction d as [|[k0 v0] d IH]; simpl; [tauto|].
  destruct (String.eqb k0 k); simpl; [tauto|].
  intros [<- | H]; auto.
Qed.

Lemma NoDup_keys_del k d :
  NoDup (Dict.keys d) -> NoDup (Dict.keys (Dict.del k d)).
Proof.
  unfold Dict.keys. induction d as [|[k0 v0] d IH]; simpl; [auto|].
  intros H. inversion H as [|? ? Hk Hd]; subst.
  destruct (String.eqb k0 k); simpl; [exact Hd|].
  constructor; [|now apply IH].
  intros Hin. apply Hk. now apply (keys_del_incl k d) in Hin.
Qed.

Lemma get_del_same k d :
  NoDup (Dict.keys d) -> Dict.get k (Dict.del k d) = None.
Proof.
  unfold Dict.keys. induction d as [|[k0 v0] d IH]; simpl; [reflexivity|].
  intros H. inversion H as [|? ? Hk Hd]; subst.
  destruct (String.eqb k0 k) eqn:E; simpl.
  - apply String.eqb_eq in E. subst k0.
    destruct (Dict.get k d) eqn:G; [|reflexivity].
    exfalso. apply Hk. apply get_In in G.
    change k with (fst (k, v)). now apply in_map.
  - rewrite E. now apply IH.
Qed.

Lemma get_del_other k k' d :
  k <> k' -> Dict.get k' (Dict.del k d) = Dict.get k' d.
Proof.
  intros Hne. induction d as [|[k0 v0] d IH]; simpl; [reflexivity|].
  destruct (String.eqb k0 k) eqn:E; simpl.
  - apply String.eqb_eq in E. subst k0.
    destruct (String.eqb k k') eqn:E'; [|reflexivity].
    apply String.eqb_eq in E'. contradiction.
  - now rewrite IH.
Qed.

Lemma get_Some_mem k v d : Dict.get k d = Some v -> Dict.mem k d = true.
Proof. unfold Dict.mem. now intros ->. Qed.

Lemma In_get_unique k v d :
  NoDup (Dict.keys d) -> In (k, v) d -> Dict.get k d = Some v.
Proof.
  unfold Dict.keys. induction d as [|[k0 v0] d IH]; simpl; [tauto|].
  intros Hnd [Heq | Hin].
  - inversion Heq; subst. now rewrite String.eqb_refl.
  - inversion Hnd as [|? ? Hnotin Hnd']; subst.
    destruct (String.eqb k0 k) eqn:E.
    + apply String.eqb_eq in E. subst k0. exfalso. apply Hnotin.
      change k with (fst (k, v)). now apply in_map.
    + now apply IH.
Qed.

End DictKeys.

(* ===================================================================== *)
(** ** Store engine: what [add] leaves behind *)
(* ===================================================================== *)

(** The course of a call of [add]: it raises and leaves the store as it
    was, or it builds the entry from the stripped content, stores it under
    its id, and runs the node loop and the co-occurrence loops on the
    graph. *)
Lemma add_shape sha256_hex16 isoformat ks content category topics confidence
    expires_in_days references metadata c :
  let r := KnowledgeSync.add sha256_hex16 isoformat ks content category
             topics confidence expires_in_days references metadata c in
  (exists e, value r = (Raise e, ks) /\
             (Str.whitespace_only content = true \/
              exists d c0, expires_in_days = Some d /\ d <> 0 /\
                           KnowledgeSync.now_plus_days d c
                           = (Raise e, c0))) \/
  (exists expires c0,
      Str.whitespace_only content = false /\
      ((expires = None /\ c0 = c /\
        (expires_in_days = None \/ expires_in_days = Some 0)) \/
       (exists d tm, expires_in_days = Some d /\ d <> 0 /\ expires = Some tm /\
                     KnowledgeSync.now_plus_days d c = (Ok tm, c0))) /\
      let built := KnowledgeEntry.init sha256_hex16 isoformat
                     (Str.strip content) (KnowledgeSync.agent ks) category
                     (Some (or_nil topics)) confidence expires references
                     metadata None None None c0 in
      let e := value built in
      let noded := for_each (KnowledgeEntry.topics e)
                     (fun g topic => KnowledgeGraph.add_node g topic None)
                     (KnowledgeSync.graph ks) (clock_after built) in
      let linked := KnowledgeSync.add_cooccurrences (value noded)
                      (KnowledgeEntry.topics e) (clock_after noded) in
      value r
      = (Ok e,
         KnowledgeSync.Build (KnowledgeSync.agent ks)
           (KnowledgeSync.auto_sync ks)
           (Dict.set (KnowledgeEntry.entry_id e) e (KnowledgeSync.entries ks))
           (value linked) (KnowledgeSync.sync_log ks))).
Proof.
  cbv zeta. unfold value, clock_after.
  remember (KnowledgeSync.add sha256_hex16 isoformat ks content category
              topics confidence expires_in_days references metadata c)
    as R eqn:ER.
  unfold KnowledgeSync.add in ER. rewrite blank_iff_whitespace_only in ER.
  destruct (Str.whitespace_only content) eqn:Hblank.
  { left. subst R. eexists. split; [reflexivity | now left]. }
  unfold bind at 1 in ER.
  assert (Hexp :
    (exists d e c0, expires_in_days = Some d /\ d <> 0 /\
                    KnowledgeSync.now_plus_days d c = (Raise e, c0) /\
                    (match expires_in_days with
                     | Some d =>
                         if d =? 0 then ret (Ok None)
                         else r <- KnowledgeSync.now_plus_days d ;;
                              ret match r with
                                  | Ok tm => Ok (Some tm)
                                  | Raise e => Raise e
                                  end
                     | None => ret (Ok None)
                     end) c = (Raise e, c0)) \/
    (exists expires c0,
        ((expires = None /\ c0 = c /\
          (expires_in_days = None \/ expires_in_days = Some 0)) \/
         (exists d tm, expires_in_days = Some d /\ d <> 0 /\
                       expires = Some tm /\
                       KnowledgeSync.now_plus_days d c = (Ok tm, c0))) /\
        (match expires_in_days with
         | Some d =>
             if d =? 0 then ret (Ok None)
             else r <- KnowledgeSync.now_plus_days d ;;
                  ret match r with
                      | Ok tm => Ok (Some tm)
                      | Raise e => Raise e
                      end
         | None => ret (Ok None)
         end) c = (Ok expires, c0))).
  { destruct expires_in_days as [d|].
    - destruct (d =? 0) eqn:Ed.
      + apply Z.eqb_eq in Ed. subst d. right. exists None, c.
        split; [left; auto | reflexivity].
      + apply Z.eqb_neq in Ed. unfold bind.
        destruct (KnowledgeSync.now_plus_days d c) as [[tm|e] c0] eqn:Enow.
        * right. exists (Some tm), c0. split; [|reflexivity].
          right. exists d, tm. auto.
        * left. exists d, e, c0. auto.
    - right. exists None, c. split; [left; auto | reflexivity]. }
  destruct Hexp as [[d [e [c0 [Hd [Hne [Hnow Heq]]]]]]
                   | [expires [c0 [Hcase Heq]]]];
    rewrite Heq in ER.
  { left. subst R. exists e. split; [reflexivity|]. right. eauto. }
  right. exists expires, c0. split; [reflexivity|]. split; [exact Hcase|].
  unfold bind in ER.
  destruct (KnowledgeEntry.init sha256_hex16 isoformat (Str.strip content)
              (KnowledgeSync.agent ks) category (Some (or_nil topics))
              confidence expires references metadata None None None c0)
    as [entry c1].
  cbn [fst snd].
  destruct (for_each (KnowledgeEntry.topics entry) _ _ c1) as [g1 c2].
  cbn [fst snd].
  destruct (KnowledgeSync.add_cooccurrences g1 _ c2) as [g2 c3].
  destruct (KnowledgeSync.save_if_auto_sync _ c3) as [u c4].
  subst R. reflexivity.
Qed.


Lemma init_fields sha256_hex16 isoformat content source category topics
    confidence expires references metadata entry_id created updated c :
  let e := value (KnowledgeEntry.init sha256_hex16 isoformat content source
                    category topics confidence expires references metadata
                    entry_id created updated c) in
  KnowledgeEntry.content e = content /\
  KnowledgeEntry.source e = Str.upper source /\
  KnowledgeEntry.topics e = map Str.lower (or_nil topics) /\
  KnowledgeEntry.expires e = expires /\
  KnowledgeEntry.references e = or_nil references /\
  KnowledgeEntry.created e
  = match created with Some tm => tm | None => wall c (ticks c) end /\
  KnowledgeEntry.updated e
  = match updated with Some tm => tm | None => KnowledgeEntry.created e end.
Proof.
  cbv zeta. unfold KnowledgeEntry.init, value, bind.
  destruct created; repeat split; reflexivity.
Qed.


Lemma update_existing_keys s t r w es es' :
  KnowledgeGraph.update_existing s t r w es = Some es' ->
  map Edge.key es' = map Edge.key es /\ In (s, t) (map Edge.key es).
Proof.
  revert es'. induction es as [|e es IH]; simpl; [discriminate|].
  intros es'. destruct (Edge.joins s t e) eqn:E.
  - intros [= <-]. apply joins_key in E. simpl. split; [|now left].
    f_equal.
  - destruct (KnowledgeGraph.update_existing s t r w es) as [l|];
      simpl; [|discriminate].
    intros [= <-]. destruct (IH l eq_refl) as [Hk Hin].
    simpl. split; [now rewrite Hk | now right].
Qed.

(** After [add_edge] the ordered pair of the call is in the edge list, and
    so is every pair that was there. *)
Lemma add_edge_pairs g source target relation weight c :
  let es' := KnowledgeGraph.edges
               (value (KnowledgeGraph.add_edge g source target relation
                         weight c)) in
  In (Str.lower source, Str.lower target) (map Edge.key es') /\
  forall k, In k (map Edge.key (KnowledgeGraph.edges g)) ->
            In k (map Edge.key es').
Proof.
  cbv zeta.
  pose proof (add_edge_edges g source target relation weight c) as H.
  cbv zeta in H.
  destruct (KnowledgeGraph.update_existing (Str.lower source)
              (Str.lower target) relation weight (KnowledgeGraph.edges g))
    as [es|] eqn:U.
  - rewrite H. destruct (update_existing_keys _ _ _ _ _ _ U) as [Hk Hin].
    rewrite Hk. auto.
  - destruct H as [now ->]. rewrite map_app. simpl. split.
    + apply in_or_app. right. now left.
    + intros k Hk. apply in_or_app. now left.
Qed.

Lemma link_all_pairs t1 rest : forall g c,
  let es' := KnowledgeGraph.edges
               (value (for_each rest
                         (fun g topic2 =>
                            KnowledgeGraph.add_edge g t1 topic2 "co-occurs" 1)
                         g c)) in
  (forall t2, In t2 rest ->
              In (Str.lower t1, Str.lower t2) (map Edge.key es')) /\
  forall k, In k (map Edge.key (KnowledgeGraph.edges g)) ->
            In k (map Edge.key es').
Proof.
  induction rest as [|t2 rest IH]; intros g c; cbv zeta; simpl.
  - split; [tauto | auto].
  - unfold bind, value in *.
    pose proof (add_edge_pairs g t1 t2 "co-occurs" 1 c) as [Hnew Hold].
    unfold value in Hnew, Hold.
    destruct (KnowledgeGraph.add_edge g t1 t2 "co-occurs" 1 c) as [g1 c1].
    specialize (IH g1 c1). cbv zeta in IH.
    destruct (for_each rest _ g1 c1) as [g2 c2]. cbn [fst] in *.
    destruct IH as [Hall Hkeep]. split.
    + intros t [<- | Hin]; auto.
    + auto.
Qed.

Lemma add_cooccurrences_pairs ts : forall g c,
  let es' := KnowledgeGraph.edges
               (value (KnowledgeSync.add_cooccurrences g ts c)) in
  (forall l1 a l2 b, ts = l1 ++ a :: l2 -> In b l2 ->
                     In (Str.lower a, Str.lower b) (map Edge.key es')) /\
  forall k, In k (map Edge.key (KnowledgeGraph.edges g)) ->
            In k (map Edge.key es').
Proof.
  induction ts as [|t1 rest IH]; intros g c; cbv zeta; simpl.
  - split; [|auto]. intros l1 a l2 b H. destruct l1; discriminate.
  - unfold bind, value in *.
    pose proof (link_all_pairs t1 rest g c) as Hlink. cbv zeta in Hlink.
    unfold value in Hlink.
    destruct (for_each rest _ g c) as [g1 c1].
    specialize (IH g1 c1). cbv zeta in IH.
    destruct (KnowledgeSync.add_cooccurrences g1 rest c1) as [g2 c2].
    cbn [fst] in *. destruct Hlink as [Hall Hkeep]. destruct IH as [Hrec Hkeep'].
    split; [|auto].
    intros l1 a l2 b Heq Hb. destruct l1 as [|x l1]; simpl in Heq.
    + injection Heq as <- <-. auto.
    + injection Heq as <- Hrest. eapply Hrec; eauto.
Qed.

Lemma add_nodes_keep_edges ts : forall g c,
  KnowledgeGraph.edges
    (value (for_each ts (fun g topic => KnowledgeGraph.add_node g topic None)
              g c))
  = KnowledgeGraph.edges g.
Proof.
  induction ts as [|t ts IH]; intros g c; simpl; [reflexivity|].
  unfold bind, value in *.
  pose proof (add_node_edges g t None c) as H. unfold value in H.
  destruct (KnowledgeGraph.add_node g t None c) as [g1 c1].
  cbn [fst] in H. rewrite IH. exact H.
Qed.

(** X8. After a call of [add] that returns, every topic of the entry has a
    graph node, every two topics of the entry are joined by an edge from
    the earlier to the later one, and every ordered pair that was joined
    before still is. *)
Theorem add_links_cooccurring_topics
    (sha256_hex16 : string -> string) (isoformat : Time -> string)
    (ks : KnowledgeSync.t) (content category : string)
    (topics : option (list string)) (confidence : Q)
    (expires_in_days : option Z) (references : option (list string))
    (metadata : option Metadata) (c : Clock) :
  let r := value (KnowledgeSync.add sha256_hex16 isoformat ks content
                    category topics confidence expires_in_days references
                    metadata c) in
  let g' := KnowledgeSync.graph (snd r) in
  match fst r with
  | Ok e =>
      (forall topic, In topic (KnowledgeEntry.topics e) ->
                     Dict.mem topic (KnowledgeGraph.nodes g') = true) /\
      (forall l1 a l2 b,
          KnowledgeEntry.topics e = l1 ++ a :: l2 -> In b l2 ->
          In (a, b) (map Edge.key (KnowledgeGraph.edges g'))) /\
      (forall k,
          In k (map Edge.key (KnowledgeGraph.edges (KnowledgeSync.graph ks))) ->
          In k (map Edge.key (KnowledgeGraph.edges g')))
  | Raise _ => g' = KnowledgeSync.graph ks
  end.
Proof.
  cbv zeta.
  destruct (add_shape sha256_hex16 isoformat ks content category topics
              confidence expires_in_days references metadata c)
    as [[e [Heq _]] | [expires [c0 [Hblank [_ Heq]]]]];
    cbv zeta in Heq; rewrite Heq; cbn [fst snd KnowledgeSync.graph];
    [reflexivity|].
  pose proof (init_fields sha256_hex16 isoformat (Str.strip content)
                (KnowledgeSync.agent ks) category (Some (or_nil topics))
                confidence expires references metadata None None None c0)
    as [_ [_ [Htopics _]]].
  set (built := KnowledgeEntry.init sha256_hex16 isoformat (Str.strip content)
                  (KnowledgeSync.agent ks) category (Some (or_nil topics))
                  confidence expires references metadata None None None c0)
    in *.
  set (e := value built) in *.
  set (noded := for_each (KnowledgeEntry.topics e)
                  (fun g topic => KnowledgeGraph.add_node g topic None)
                  (KnowledgeSync.graph ks) (clock_after built)).
  assert (Hlow : forall t, In t (KnowledgeEntry.topics e) -> Str.lower t = t).
  { intros t Ht. rewrite Htopics in Ht.
    apply in_map_iff in Ht as [t0 [<- _]]. apply lower_idempotent. }
  pose proof (add_nodes_cover (KnowledgeEntry.topics e)
                (KnowledgeSync.graph ks) (clock_after built)) as [_ Hcover].
  pose proof (add_cooccurrences_grows (KnowledgeEntry.topics e)
                (value noded) (clock_after noded)) as [_ Hgrow].
  pose proof (add_cooccurrences_pairs (KnowledgeEntry.topics e)
                (value noded) (clock_after noded)) as [Hpairs Hkeep].
  fold noded in Hcover. split; [|split].
  - intros topic Ht. apply Hgrow. rewrite <- (Hlow topic Ht). now apply Hcover.
  - intros l1 a l2 b Heq' Hb.
    assert (Ha : In a (KnowledgeEntry.topics e))
      by (rewrite Heq'; apply in_or_app; right; now left).
    assert (Hb' : In b (KnowledgeEntry.topics e))
      by (rewrite Heq'; apply in_or_app; right; now right).
    rewrite <- (Hlow a Ha), <- (Hlow b Hb'). eapply Hpairs; eauto.
  - intros k Hk. apply Hkeep. unfold noded. now rewrite add_nodes_keep_edges.
Qed.

(** X9. [add] with a number of days other than 0 sets the expiry to the
    first reading of the clock plus that many days; when the number of days
    or the resulting instant is out of range it raises [OverflowError] and
    leaves the store as it was. *)
Theorem add_sets_expiry
    (sha256_hex16 : string -> string) (isoformat : Time -> string)
    (ks : KnowledgeSync.t) (content category : string)
    (topics : option (list string)) (confidence : Q) (d : Z)
    (references : option (list string)) (metadata : option Metadata)
    (c : Clock) :
  Str.whitespace_only content = false ->
  d <> 0 ->
  let r := value (KnowledgeSync.add sha256_hex16 isoformat ks content
                    category topics confidence (Some d) references
                    metadata c) in
  let tm := wall c (ticks c) + d * 86400 * 1000000 in
  (Z.abs d <= 999999999 /\ 0 <= tm <= datetime_max ->
   exists e, fst r = Ok e /\ KnowledgeEntry.expires e = Some tm) /\
  (~ (Z.abs d <= 999999999 /\ 0 <= tm <= datetime_max) ->
   r = (Raise OverflowError, ks)).
Proof.
  intros Hblank Hd. cbv zeta.
  assert (Hnow :
    KnowledgeSync.now_plus_days d c
    = (if Z.abs d >? 999999999 then Raise OverflowError
       else if ((wall c (ticks c) + d * 86400 * 1000000 <? 0)
                || (wall c (ticks c) + d * 86400 * 1000000 >? datetime_max))%bool
       then Raise OverflowError
       else Ok (wall c (ticks c) + d * 86400 * 1000000),
       MkClock (wall c) (S (ticks c)))).
  { unfold KnowledgeSync.now_plus_days, bind, datetime_now, ret.
    destruct (Z.abs d >? 999999999); [reflexivity|].
    destruct (_ || _)%bool; reflexivity. }
  destruct (add_shape sha256_hex16 isoformat ks content category topics
              confidence (Some d) references metadata c)
    as [[e [Heq [Hb | [d' [c0 [[= <-] [_ Hraise]]]]]]]
       | [expires [c0 [_ [[[_ [_ [Hn | Hz]]] | [d' [tm [[= <-] [_ [-> Hok]]]]]]
                           Heq]]]]];
    try congruence.
  - (* the call raised *)
    rewrite Hnow in Hraise. rewrite Heq. split.
    + intros [Hd1 [Hlo Hhi]]. exfalso.
      destruct (Z.abs d >? 999999999) eqn:E1; [lia|].
      destruct (_ <? 0) eqn:E2; [lia|].
      destruct (_ >? datetime_max) eqn:E3; [lia|]. simpl in Hraise.
      discriminate.
    + intros _. destruct (Z.abs d >? 999999999);
        [|destruct (_ || _)%bool]; congruence.
  - (* the call returned *)
    rewrite Hnow in Hok. cbv zeta in Heq. rewrite Heq. cbn [fst]. split.
    + intros [Hd1 [Hlo Hhi]].
      destruct (Z.abs d >? 999999999) eqn:E1; [lia|].
      destruct (_ <? 0) eqn:E2; [lia|].
      destruct (_ >? datetime_max) eqn:E3; [lia|]. simpl in Hok.
      injection Hok as <- _. eexists. split; [reflexivity|].
      apply init_expires.
    + intros Hout. exfalso. apply Hout.
      destruct (Z.abs d >? 999999999) eqn:E1; [discriminate|].
      destruct (_ <? 0) eqn:E2; [discriminate|].
      destruct (_ >? datetime_max) eqn:E3; [discriminate|]. lia.
Qed.

Lemma add_sets_expiry_witness :
  Str.whitespace_only "Cache is warm" = false /\ 30 <> 0 /\
  exists e,
    fst (value (KnowledgeSync.add example_sha256_hex16 example_isoformat
                  (KnowledgeSync.init "forge" false) "Cache is warm" "FACT"
                  None (8 # 10) (Some 30) None None (frozen 1000)))
    = Ok e /\
    KnowledgeEntry.expires e = Some (1000 + 30 * 86400 * 1000000).
Proof.
  split; [reflexivity|]. split; [discriminate|].
  apply (add_sets_expiry example_sha256_hex16 example_isoformat
           (KnowledgeSync.init "forge" false) "Cache is warm" "FACT" None
           (8 # 10) 30 None None (frozen 1000)).
  - reflexivity.
  - discriminate.
  - unfold datetime_max. simpl. lia.
Defined.

(* ===================================================================== *)
(** ** Store engine: [update], [delete], [cleanup_expired] *)
(* ===================================================================== *)

(** X10. [update] on a stored id changes that entry only: the id, source,
    creation stamp, expiry and references stay, [updated] becomes the
    reading of the clock, each field given is replaced by its normalised
    value (the confidence clamped) and each field omitted stays; the other
    entries, the order of the ids, the graph and the sync log stay as they
    were. *)
Theorem update_touches_one_entry
    (ks : KnowledgeSync.t) (entry_id : string) (e : KnowledgeEntry.t)
    (content category : option string) (topics : option (list string))
    (confidence : option Q) (metadata : option Metadata) (c : Clock) :
  KnowledgeSync.get ks entry_id = Some e ->
  let r := value (KnowledgeSync.update ks entry_id content category topics
                    confidence metadata c) in
  exists e',
    fst r = Some e' /\
    KnowledgeSync.get (snd r) entry_id = Some e' /\
    KnowledgeEntry.entry_id e' = KnowledgeEntry.entry_id e /\
    KnowledgeEntry.source e' = KnowledgeEntry.source e /\
    KnowledgeEntry.created e' = KnowledgeEntry.created e /\
    KnowledgeEntry.expires e' = KnowledgeEntry.expires e /\
    KnowledgeEntry.references e' = KnowledgeEntry.references e /\
    KnowledgeEntry.updated e' = wall c (ticks c) /\
    KnowledgeEntry.content e'
    = match content with
      | Some x => Str.strip x
      | None => KnowledgeEntry.content e
      end /\
    KnowledgeEntry.category e'
    = match category with
      | Some x => Str.upper x
      | None => KnowledgeEntry.category e
      end /\
    KnowledgeEntry.topics e'
    = match topics with
      | Some x => map Str.lower x
      | None => KnowledgeEntry.topics e
      end /\
    KnowledgeEntry.confidence e'
    = match confidence with
      | Some x => clamp x
      | None => KnowledgeEntry.confidence e
      end /\
    (forall other, other <> entry_id ->
                   KnowledgeSync.get (snd r) other
                   = KnowledgeSync.get ks other) /\
    Dict.keys (KnowledgeSync.entries (snd r))
    = Dict.keys (KnowledgeSync.entries ks) /\
    KnowledgeSync.graph (snd r) = KnowledgeSync.graph ks /\
    KnowledgeSync.sync_log (snd r) = KnowledgeSync.sync_log ks.
Proof.
  unfold KnowledgeSync.get. intros Hget. cbv zeta.
  unfold KnowledgeSync.update, value, bind. rewrite Hget.
  unfold datetime_now.
  destruct (KnowledgeSync.save_if_auto_sync _ _) as [u c1].
  cbn [fst snd ret KnowledgeSync.entries KnowledgeSync.with_entries
       KnowledgeSync.graph KnowledgeSync.sync_log].
  eexists. split; [reflexivity|]. split; [apply get_set_same|].
  destruct content, category, topics, confidence, metadata;
    cbn [KnowledgeEntry.with_content KnowledgeEntry.with_category
         KnowledgeEntry.with_topics KnowledgeEntry.with_confidence
         KnowledgeEntry.with_metadata KnowledgeEntry.with_updated
         KnowledgeEntry.entry_id KnowledgeEntry.source
         KnowledgeEntry.created KnowledgeEntry.expires
         KnowledgeEntry.references KnowledgeEntry.updated
         KnowledgeEntry.content KnowledgeEntry.category
         KnowledgeEntry.topics KnowledgeEntry.confidence];
    repeat (split; [reflexivity|]);
    (split; [intros other Hne; apply get_set_other; congruence|]);
    (split; [rewrite keys_set, (get_Some_mem _ _ _ Hget); reflexivity|]);
    split; reflexivity.
Qed.

Lemma update_touches_one_entry_witness :
  KnowledgeSync.get store_two_notes "9d3e1f0a2b4c5d6e" = Some latency_note /\
  exists e',
    KnowledgeSync.get
      (snd (value (KnowledgeSync.update store_two_notes "9d3e1f0a2b4c5d6e"
                     None None None (Some (3 # 2)) None (frozen 400))))
      "9d3e1f0a2b4c5d6e" = Some e' /\
    KnowledgeEntry.confidence e' = 1%Q /\
    KnowledgeEntry.updated e' = 400.
Proof.
  split; [reflexivity|].
  destruct (update_touches_one_entry store_two_notes "9d3e1f0a2b4c5d6e"
              latency_note None None None (Some (3 # 2)) None (frozen 400)
              eq_refl)
    as [e' [_ [Hget [_ [_ [_ [_ [_ [Hu [_ [_ [_ [Hc _]]]]]]]]]]]]].
  exists e'. split; [exact Hget|]. split; [exact Hc | exact Hu].
Defined.

Lemma dict_update_get {V : Type} (m : Dict.t V) : forall (d : Dict.t V) k,
  NoDup (Dict.keys m) ->
  Dict.get k (Dict.update d m)
  = match Dict.get k m with Some v => Some v | None => Dict.get k d end.
Proof.
  unfold Dict.update.
  induction m as [|[k0 v0] m IH]; intros d k Hnd; simpl; [reflexivity|].
  inversion Hnd as [|? ? Hk Hm]; subst. rewrite IH by exact Hm.
  destruct (String.eqb k0 k) eqn:E.
  - apply String.eqb_eq in E. subst k0.
    destruct (Dict.get k m) eqn:G.
    + exfalso. apply Hk. apply get_In in G.
      change k with (fst (k, v)). now apply in_map.
    + apply get_set_same.
  - apply String.eqb_neq in E.
    destruct (Dict.get k m); [reflexivity|]. now apply get_set_other.
Qed.

(** X11. [update] merges the metadata it is given into the entry's own, key
    by key: a key of the argument takes the argument's value, every other
    key keeps the value it had. *)
Theorem update_merges_metadata
    (ks : KnowledgeSync.t) (entry_id : string) (e : KnowledgeEntry.t)
    (content category : option string) (topics : option (list string))
    (confidence : option Q) (metadata : Metadata) (c : Clock) :
  KnowledgeSync.get ks entry_id = Some e ->
  NoDup (Dict.keys metadata) ->
  let r := value (KnowledgeSync.update ks entry_id content category topics
                    confidence (Some metadata) c) in
  exists e',
    KnowledgeSync.get (snd r) entry_id = Some e' /\
    forall k,
      Dict.get k (KnowledgeEntry.metadata e')
      = match Dict.get k metadata with
        | Some v => Some v
        | None => Dict.get k (KnowledgeEntry.metadata e)
        end.
Proof.
  unfold KnowledgeSync.get. intros Hget Hnd. cbv zeta.
  unfold KnowledgeSync.update, value, bind. rewrite Hget.
  unfold datetime_now.
  destruct (KnowledgeSync.save_if_auto_sync _ _) as [u c1].
  cbn [fst snd ret KnowledgeSync.entries KnowledgeSync.with_entries].
  eexists. split; [apply get_set_same|].
  intros k.
  destruct content, category, topics, confidence;
    cbn [KnowledgeEntry.with_content KnowledgeEntry.with_category
         KnowledgeEntry.with_topics KnowledgeEntry.with_confidence
         KnowledgeEntry.with_metadata KnowledgeEntry.with_updated
         KnowledgeEntry.metadata];
    now apply dict_update_get.
Qed.

Lemma update_merges_metadata_witness :
  KnowledgeSync.get store_with_note "5f2a9c0e7b1d4a63" = Some port_note /\
  NoDup (Dict.keys [("reviewed", "yes")]) /\
  exists e',
    KnowledgeSync.get
      (snd (value (KnowledgeSync.update store_with_note "5f2a9c0e7b1d4a63"
                     None None None None (Some [("reviewed", "yes")])
                     (frozen 400))))
      "5f2a9c0e7b1d4a63" = Some e' /\
    Dict.get "reviewed" (KnowledgeEntry.metadata e') = Some "yes".
Proof.
  assert (Hnd : NoDup (Dict.keys [("reviewed", "yes")]))
    by (constructor; [simpl; tauto | constructor]).
  split; [reflexivity|]. split; [exact Hnd|].
  destruct (update_merges_metadata store_with_note "5f2a9c0e7b1d4a63"
              port_note None None None None [("reviewed", "yes")]
              (frozen 400) eq_refl Hnd) as [e' [Hget Hmeta]].
  exists e'. split; [exact Hget|]. exact (Hmeta "reviewed").
Defined.

(** X12. [delete] of a stored id answers [True], removes that id and
    nothing else, keeps the order of the other ids, and leaves the graph
    with the nodes and edges of the deleted entry's topics. *)
Theorem delete_removes_one_entry
    (ks : KnowledgeSync.t) (entry_id : string) (e : KnowledgeEntry.t)
    (c : Clock) :
  NoDup (Dict.keys (KnowledgeSync.entries ks)) ->
  KnowledgeSync.get ks entry_id = Some e ->
  let r := value (KnowledgeSync.delete ks entry_id c) in
  fst r = true /\
  KnowledgeSync.get (snd r) entry_id = None /\
  (forall other, other <> entry_id ->
                 KnowledgeSync.get (snd r) other
                 = KnowledgeSync.get ks other) /\
  NoDup (Dict.keys (KnowledgeSync.entries (snd r))) /\
  KnowledgeSync.graph (snd r) = KnowledgeSync.graph ks.
Proof.
  unfold KnowledgeSync.get. intros Hnd Hget. cbv zeta.
  unfold KnowledgeSync.delete, value, bind.
  rewrite (get_Some_mem _ _ _ Hget). cbn [negb].
  destruct (KnowledgeSync.save_if_auto_sync _ _) as [u c1].
  cbn [fst snd ret KnowledgeSync.entries KnowledgeSync.with_entries
       KnowledgeSync.graph].
  split; [reflexivity|]. split; [now apply get_del_same|].
  split; [intros other Hne; apply get_del_other; congruence|].
  split; [now apply NoDup_keys_del | reflexivity].
Qed.

Lemma delete_removes_one_entry_witness :
  NoDup (Dict.keys (KnowledgeSync.entries store_two_notes)) /\
  KnowledgeSync.get store_two_notes "5f2a9c0e7b1d4a63" = Some port_note /\
  Dict.keys
    (KnowledgeSync.entries
       (snd (value (KnowledgeSync.delete store_two_notes "5f2a9c0e7b1d4a63"
                      (frozen 400)))))
  = ["9d3e1f0a2b4c5d6e"] /\
  KnowledgeSync.get
    (snd (value (KnowledgeSync.delete store_two_notes "5f2a9c0e7b1d4a63"
                   (frozen 400))))
    "5f2a9c0e7b1d4a63" = None.
Proof.
  assert (Hnd : NoDup (Dict.keys (KnowledgeSync.entries store_two_notes))).
  { simpl. constructor; [simpl; intros [H | []]; discriminate|].
    constructor; [simpl; tauto | constructor]. }
  split; [exact Hnd|]. split; [reflexivity|]. split; [reflexivity|].
  exact (proj1 (proj2 (delete_removes_one_entry store_two_notes
                         "5f2a9c0e7b1d4a63" port_note (frozen 400) Hnd
                         eq_refl))).
Defined.

(** X13. An id that is not stored: [get] answers [None], [update] answers
    [None] and [delete] answers [False]; the store stays as it was and
    nothing is saved, even with auto-sync on (the clock is not read). *)
Theorem unknown_id_changes_nothing
    (ks : KnowledgeSync.t) (entry_id : string)
    (content category : option string) (topics : option (list string))
    (confidence : option Q) (metadata : option Metadata) (c : Clock) :
  Dict.mem entry_id (KnowledgeSync.entries ks) = false ->
  KnowledgeSync.get ks entry_id = None /\
  KnowledgeSync.update ks entry_id content category topics confidence
    metadata c = (None, ks, c) /\
  KnowledgeSync.delete ks entry_id c = (false, ks, c).
Proof.
  unfold Dict.mem, KnowledgeSync.get. intros H.
  destruct (Dict.get entry_id (KnowledgeSync.entries ks)) eqn:G;
    [discriminate|].
  split; [reflexivity|]. split.
  - unfold KnowledgeSync.update. now rewrite G.
  - unfold KnowledgeSync.delete, Dict.mem. now rewrite G.
Qed.

Lemma unknown_id_changes_nothing_witness :
  Dict.mem "nonexistent" (KnowledgeSync.entries store_with_note) = false /\
  KnowledgeSync.update store_with_note "nonexistent" (Some "test") None None
    None None (frozen 400) = (None, store_with_note, frozen 400).
Proof.
  split; [reflexivity|].
  exact (proj1 (proj2 (unknown_id_changes_nothing store_with_note
                         "nonexistent" (Some "test") None None None None
                         (frozen 400) eq_refl))).
Defined.

Lemma is_expired_still e c now :
  stands_still c now ->
  value (KnowledgeEntry.is_expired e c) = KnowledgeEntry.expired_at now e /\
  stands_still (clock_after (KnowledgeEntry.is_expired e c)) now.
Proof.
  intros Hs. unfold KnowledgeEntry.is_expired, KnowledgeEntry.expired_at,
    value, clock_after, bind, datetime_now, ret.
  destruct (KnowledgeEntry.expires e); simpl.
  - rewrite (Hs (ticks c)). split; [reflexivity | exact Hs].
  - split; [reflexivity | exact Hs].
Qed.

(** The sweep of [cleanup_expired] under a clock that stands still. *)
Lemma expired_ids_still now (es : Dict.t KnowledgeEntry.t) : forall ids c,
  stands_still c now ->
  value (for_each es
           (fun ids kv =>
              expired <- KnowledgeEntry.is_expired (snd kv) ;;
              ret (if expired then ids ++ [fst kv] else ids))
           ids c)
  = ids ++ map fst
             (filter (fun kv => KnowledgeEntry.expired_at now (snd kv)) es).
Proof.
  induction es as [|[k e] es IH]; intros ids c Hs; simpl.
  - now rewrite app_nil_r.
  - unfold bind at 1. unfold bind at 1.
    destruct (is_expired_still e c now Hs) as [Hv Hs'].
    unfold value, clock_after in *.
    destruct (KnowledgeEntry.is_expired e c) as [b c1].
    cbn [fst snd] in *. subst b. unfold ret at 1.
    rewrite IH by exact Hs'.
    destruct (KnowledgeEntry.expired_at now e); simpl.
    + now rewrite <- app_assoc.
    + reflexivity.
Qed.

Lemma del_all_skips {V : Type} (ids : list string) :
  forall (k : string) (v : V) (d : Dict.t V),
  ~ In k ids ->
  fold_left (fun es id => Dict.del id es) ids ((k, v) :: d)
  = (k, v) :: fold_left (fun es id => Dict.del id es) ids d.
Proof.
  induction ids as [|id ids IH]; intros k v d Hk; simpl; [reflexivity|].
  destruct (String.eqb k id) eqn:E.
  - apply String.eqb_eq in E. exfalso. apply Hk. now left.
  - apply IH. intros Hin. apply Hk. now right.
Qed.

Lemma del_all_filter {V : Type} (P : string * V -> bool) (d : Dict.t V) :
  NoDup (Dict.keys d) ->
  fold_left (fun es id => Dict.del id es) (map fst (filter P d)) d
  = filter (fun kv => negb (P kv)) d.
Proof.
  unfold Dict.keys. induction d as [|[k v] d IH]; intros Hnd; simpl;
    [reflexivity|].
  inversion Hnd as [|? ? Hk Hd]; subst.
  destruct (P (k, v)) eqn:E; simpl.
  - rewrite String.eqb_refl. now apply IH.
  - rewrite del_all_skips.
    + f_equal. now apply IH.
    + intros Hin. apply Hk. apply in_map_iff in Hin as [kv [Hf Hin]].
      apply filter_In in Hin as [Hin _]. rewrite <- Hf. now apply in_map.
Qed.

(** X14. Under a clock that stands still, [cleanup_expired] removes exactly
    the entries that are expired at that instant, keeps the others in
    their order, returns the number removed, and leaves the graph alone. *)
Theorem cleanup_expired_sweeps
    (ks : KnowledgeSync.t) (c : Clock) (now : Time) :
  NoDup (Dict.keys (KnowledgeSync.entries ks)) ->
  stands_still c now ->
  let r := value (KnowledgeSync.cleanup_expired ks c) in
  KnowledgeSync.entries (snd r)
  = filter (fun kv => negb (KnowledgeEntry.expired_at now (snd kv)))
      (KnowledgeSync.entries ks) /\
  fst r
  = List.length
      (filter (fun kv => KnowledgeEntry.expired_at now (snd kv))
         (KnowledgeSync.entries ks)) /\
  (fst r + List.length (KnowledgeSync.entries (snd r)))%nat
  = List.length (KnowledgeSync.entries ks) /\
  KnowledgeSync.graph (snd r) = KnowledgeSync.graph ks.
Proof.
  intros Hnd Hs. cbv zeta.
  assert (Hr : value (KnowledgeSync.cleanup_expired ks c)
               = (List.length
                    (filter (fun kv => KnowledgeEntry.expired_at now (snd kv))
                       (KnowledgeSync.entries ks)),
                  KnowledgeSync.with_entries
                    (filter
                       (fun kv => negb (KnowledgeEntry.expired_at now (snd kv)))
                       (KnowledgeSync.entries ks))
                    ks)).
  { unfold KnowledgeSync.cleanup_expired, value. unfold bind at 1.
    pose proof (expired_ids_still now (KnowledgeSync.entries ks) [] c Hs)
      as Hids.
    unfold value in Hids.
    destruct (for_each (KnowledgeSync.entries ks) _ [] c) as [ids c1].
    cbn [fst app] in Hids. subst ids. unfold bind.
    match goal with
    | |- context [let (_, _) := ?m c1 in _] => destruct (m c1) as [u c2]
    end.
    cbn [fst ret]. now rewrite (del_all_filter _ _ Hnd), length_map. }
  rewrite Hr.
  cbn [fst snd KnowledgeSync.entries KnowledgeSync.with_entries
       KnowledgeSync.graph].
  split; [reflexivity|]. split; [reflexivity|]. split; [|reflexivity].
  clear. induction (KnowledgeSync.entries ks) as [|kv d IH]; simpl;
    [reflexivity|].
  destruct (KnowledgeEntry.expired_at now (snd kv)); simpl; lia.
Qed.

Lemma cleanup_expired_sweeps_witness :
  let ks := KnowledgeSync.Build "FORGE" false
              [("00aa11bb22cc33dd", entry_expiring_at 5);
               ("5f2a9c0e7b1d4a63", port_note)]
              KnowledgeGraph.init [] in
  NoDup (Dict.keys (KnowledgeSync.entries ks)) /\
  stands_still (frozen 9) 9 /\
  KnowledgeSync.entries
    (snd (value (KnowledgeSync.cleanup_expired ks (frozen 9))))
  = [("5f2a9c0e7b1d4a63", port_note)] /\
  fst (value (KnowledgeSync.cleanup_expired ks (frozen 9))) = 1%nat.
Proof.
  cbv zeta.
  assert (Hnd : NoDup (Dict.keys [("00aa11bb22cc33dd", entry_expiring_at 5);
                                  ("5f2a9c0e7b1d4a63", port_note)])).
  { simpl. constructor; [simpl; intros [H | []]; discriminate|].
    constructor; [simpl; tauto | constructor]. }
  assert (Hs : stands_still (frozen 9) 9) by (intros k; reflexivity).
  split; [exact Hnd|]. split; [exact Hs|].
  destruct (cleanup_expired_sweeps
              (KnowledgeSync.Build "FORGE" false
                 [("00aa11bb22cc33dd", entry_expiring_at 5);
                  ("5f2a9c0e7b1d4a63", port_note)]
                 KnowledgeGraph.init [])
              (frozen 9) 9 Hnd Hs) as [He [Hn _]].
  split; [rewrite He | rewrite Hn]; reflexivity.
Defined.

(* ===================================================================== *)
(** ** Store engine: what [query] returns *)
(* ===================================================================== *)

Lemma collect_all_pass search source category min_confidence expanded entries :
  forall results c e,
    In e (value (for_each entries
                   (KnowledgeSync.collect search source category
                      min_confidence expanded)
                   results c)) ->
    In e results \/
    (In e entries /\
     KnowledgeSync.passes_filters search source category min_confidence
       expanded e = true).
Proof.
  induction entries as [|entry entries IH]; intros results c e; simpl.
  - auto.
  - unfold bind, value in *.
    destruct (KnowledgeSync.collect search source category min_confidence
                expanded results entry c) as [results1 c1] eqn:Ec.
    intros He. destruct (IH results1 c1 e He) as [H1 | [H1 H2]]; [|auto].
    unfold KnowledgeSync.collect, bind in Ec.
    destruct (KnowledgeEntry.is_expired entry c) as [b c0].
    destruct b; [injection Ec as <- _; auto|].
    destruct (KnowledgeSync.passes_filters search source category
                min_confidence expanded entry) eqn:Ep;
      injection Ec as <- _; [|auto].
    apply in_app_or in H1 as [H1 | [<- | []]]; auto.
Qed.

Lemma guard_passed (b x : bool) :
  (if b then false else x) = true -> b = false /\ x = true.
Proof. destruct b; [discriminate | auto]. Qed.

Lemma passes_filters_true search source category min_confidence expanded e :
  KnowledgeSync.passes_filters search source category min_confidence
    expanded e = true ->
  (forall s, KnowledgeSync.given source = Some s ->
             KnowledgeEntry.source e = Str.upper s) /\
  (forall s, KnowledgeSync.given category = Some s ->
             KnowledgeEntry.category e = Str.upper s) /\
  (min_confidence <= KnowledgeEntry.confidence e)%Q /\
  (expanded <> [] ->
   exists topic, In topic (KnowledgeEntry.topics e) /\ In topic expanded) /\
  (Str.truthy search = true ->
   KnowledgeEntry.matches_query e search = true).
Proof.
  unfold KnowledgeSync.passes_filters. intros H.
  apply guard_passed in H as [Hsrc H]. apply guard_passed in H as [Hcat H].
  apply guard_passed in H as [Hconf H]. apply guard_passed in H as [Htop H].
  apply guard_passed in H as [Hsearch _].
  split; [|split; [|split; [|split]]].
  - intros s Hs. rewrite Hs in Hsrc.
    now apply negb_false_iff, String.eqb_eq in Hsrc.
  - intros s Hs. rewrite Hs in Hcat.
    now apply negb_false_iff, String.eqb_eq in Hcat.
  - now apply Qltb_false.
  - intros Hne. destruct expanded as [|x xs]; [congruence|].
    apply negb_false_iff in Htop. unfold StrSet.intersects in Htop.
    apply existsb_exists in Htop as [t [Ht Hm]].
    apply strset_mem_In in Hm. unfold StrSet.of_list in Ht.
    apply strset_update_In in Ht as [[] | Ht]. eauto.
  - intros Ht. rewrite Ht in Hsearch. cbn [andb] in Hsearch.
    now apply negb_false_iff in Hsearch.
Qed.

Lemma query_results_pass ks search source category topics min_confidence
    limit include_related c e :
  In e (value (KnowledgeSync.query ks search source category topics
                 min_confidence limit include_related c)) ->
  In e (Dict.values (KnowledgeSync.entries ks)) /\
  KnowledgeSync.passes_filters search source category min_confidence
    (KnowledgeSync.expand_topics (KnowledgeSync.graph ks) topics
       include_related) e = true.
Proof.
  unfold KnowledgeSync.query, value, bind.
  pose proof (collect_all_pass search source category min_confidence
                (KnowledgeSync.expand_topics (KnowledgeSync.graph ks) topics
                   include_related)
                (Dict.values (KnowledgeSync.entries ks)) [] c e) as H.
  unfold value in H.
  destruct (for_each (Dict.values (KnowledgeSync.entries ks)) _ [] c)
    as [results c1].
  cbn [fst ret] in *. intros He. apply slice_to_In in He.
  apply (Permutation_in _ (sort_desc_perm results)) in He.
  destruct (H He) as [[] | Hok]. exact Hok.
Qed.



(** The loop of [query] under a clock that stands still is a filter. *)
Lemma collect_all_still now search source category min_confidence expanded
    entries : forall results c,
  stands_still c now ->
  value (for_each entries
           (KnowledgeSync.collect search source category min_confidence
              expanded)
           results c)
  = results ++ filter (kept now search source category min_confidence
                         expanded) entries.
Proof.
  induction entries as [|entry entries IH]; intros results c Hs; simpl.
  - now rewrite app_nil_r.
  - unfold bind at 1. unfold KnowledgeSync.collect at 1. unfold bind at 1.
    destruct (is_expired_still entry c now Hs) as [Hv Hs'].
    unfold value, clock_after in *.
    destruct (KnowledgeEntry.is_expired entry c) as [b c1].
    cbn [fst snd] in *. subst b.
    assert (Hk : kept now search source category min_confidence expanded entry
                 = (negb (KnowledgeEntry.expired_at now entry)
                    && KnowledgeSync.passes_filters search source category
                         min_confidence expanded entry)%bool)
      by reflexivity.
    rewrite Hk.
    destruct (KnowledgeEntry.expired_at now entry); cbn [negb andb].
    + unfold ret at 1. now apply IH.
    + destruct (KnowledgeSync.passes_filters search source category
                  min_confidence expanded entry); unfold ret at 1.
      * rewrite IH by exact Hs'. now rewrite <- app_assoc.
      * now apply IH.
Qed.

(** X16. Under a clock that stands still, [query] with a limit of at least
    the size of the store returns every entry that is not expired and
    passes the filters, each as often as it is stored: the result is a
    rearrangement of those entries. *)
Theorem query_returns_all_kept
    (ks : KnowledgeSync.t) (search : string) (source category : option string)
    (topics : option (list string)) (min_confidence : Q) (limit : Z)
    (include_related : bool) (c : Clock) (now : Time) :
  stands_still c now ->
  Z.of_nat (List.length (KnowledgeSync.entries ks)) <= limit ->
  Permutation
    (value (KnowledgeSync.query ks search source category topics
              min_confidence limit include_related c))
    (filter (kept now search source category min_confidence
               (KnowledgeSync.expand_topics (KnowledgeSync.graph ks) topics
                  include_related))
       (Dict.values (KnowledgeSync.entries ks))).
Proof.
  intros Hs Hlimit. unfold KnowledgeSync.query, value, bind.
  pose proof (collect_all_still now search source category min_confidence
                (KnowledgeSync.expand_topics (KnowledgeSync.graph ks) topics
                   include_related)
                (Dict.values (KnowledgeSync.entries ks)) [] c Hs) as Hloop.
  unfold value in Hloop.
  destruct (for_each (Dict.values (KnowledgeSync.entries ks)) _ [] c)
    as [results c1].
  cbn [fst ret app] in *. subst results.
  set (l := filter _ _).
  assert (Hlen : (List.length (KnowledgeSync.sort_desc l)
                  <= List.length (KnowledgeSync.entries ks))%nat).
  { rewrite (Permutation_length (sort_desc_perm l)). unfold l.
    etransitivity; [apply filter_length_le|].
    unfold Dict.values. now rewrite length_map. }
  unfold KnowledgeSync.slice_to.
  destruct (limit <? 0) eqn:E; [apply Z.ltb_lt in E; lia|].
  rewrite firstn_all2 by lia. apply sort_desc_perm.
Qed.

Lemma query_returns_all_kept_witness :
  stands_still (frozen 200) 200 /\
  Z.of_nat (List.length (KnowledgeSync.entries store_two_notes)) <= 50 /\
  Permutation
    (value (KnowledgeSync.query store_two_notes EmptyString None None None 0
              50 false (frozen 200)))
    [port_note; latency_note].
Proof.
  assert (Hs : stands_still (frozen 200) 200) by (intros k; reflexivity).
  assert (Hl : Z.of_nat (List.length (KnowledgeSync.entries store_two_notes))
               <= 50) by (simpl; lia).
  split; [exact Hs|]. split; [exact Hl|].
  exact (query_returns_all_kept store_two_notes EmptyString None None None 0
           50 false (frozen 200) 200 Hs Hl).
Defined.

(** X17. [query_agent] returns only entries whose source is the upper-cased
    agent name, at most 100 of them; without a topic it does not filter on
    text. *)
Theorem query_agent_by_source
    (ks : KnowledgeSync.t) (agent : string) (topic : option string)
    (c : Clock) :
  Str.truthy agent = true ->
  (forall e, In e (value (KnowledgeSync.query_agent ks agent topic c)) ->
             In e (Dict.values (KnowledgeSync.entries ks)) /\
             KnowledgeEntry.source e = Str.upper agent /\
             (forall s, topic = Some s -> Str.truthy s = true ->
                        KnowledgeEntry.matches_query e s = true)) /\
  (List.length (value (KnowledgeSync.query_agent ks agent topic c))
   <= 100)%nat.
Proof.
  intros Hagent. unfold KnowledgeSync.query_agent. split.
  - intros e He. apply query_results_pass in He as [Hin Hpass].
    apply passes_filters_true in Hpass as [Hs [_ [_ [_ Hq]]]].
    split; [exact Hin|]. split.
    + apply Hs. unfold KnowledgeSync.given. now rewrite Hagent.
    + intros s -> Hs'. unfold KnowledgeSync.given in Hq. rewrite Hs' in Hq.
      now apply Hq.
  - unfold KnowledgeSync.query, value, bind.
    destruct (for_each _ _ [] c) as [results c1]. cbn [fst ret].
    pose proof (slice_to_length (KnowledgeSync.sort_desc results) 100).
    lia.
Qed.

Lemma query_agent_by_source_witness :
  Str.truthy "forge" = true /\
  (List.length
     (value (KnowledgeSync.query_agent store_two_notes "forge" None
               (frozen 200%Z))) <= 100)%nat.
Proof.
  split; [reflexivity|].
  exact (proj2 (query_agent_by_source store_two_notes "forge" None
                  (frozen 200) eq_refl)).
Defined.

(* ===================================================================== *)
(** ** Store engine: [get_topics] *)
(* ===================================================================== *)

Lemma insert_by_count_perm x l :
  Permutation (KnowledgeSync.insert_by_count x l) (x :: l).
Proof.
  induction l as [|y l IH]; simpl; [reflexivity|].
  destruct (snd x <? snd y); [|reflexivity].
  rewrite IH. apply perm_swap.
Qed.

Lemma insert_by_count_sorted x l :
  Sorted (fun a b : string * Z => snd b <= snd a) l ->
  Sorted (fun a b : string * Z => snd b <= snd a)
    (KnowledgeSync.insert_by_count x l).
Proof.
  induction l as [|y l IH]; simpl; intros Hs.
  - repeat constructor.
  - inversion Hs as [|? ? Hs' Hhd]; subst.
    destruct (snd x <? snd y) eqn:E.
    + constructor; [now apply IH|].
      apply Z.ltb_lt in E.
      destruct l as [|z l]; simpl.
      * constructor. lia.
      * destruct (snd x <? snd z); constructor; [|lia].
        now inversion Hhd.
    + apply Z.ltb_ge in E. constructor; [exact Hs|]. now constructor.
Qed.

(** X18. [get_topics] lists every node of the graph once with its
    reference count (0 when the count is missing), highest count first. *)
Theorem get_topics_sorted_by_count (ks : KnowledgeSync.t) :
  NoDup (Dict.keys (KnowledgeGraph.nodes (KnowledgeSync.graph ks))) ->
  StronglySorted (fun a b : string * Z => snd b <= snd a)
    (KnowledgeSync.get_topics ks) /\
  Permutation (KnowledgeSync.get_topics ks)
    (map (fun topic => (topic, reference_count (KnowledgeSync.graph ks) topic))
       (Dict.keys (KnowledgeGraph.nodes (KnowledgeSync.graph ks)))).
Proof.
  intros Hnd. unfold KnowledgeSync.get_topics. split.
  - apply Sorted_StronglySorted; [intros a b c' H1 H2; lia|].
    induction (map _ (KnowledgeGraph.nodes (KnowledgeSync.graph ks)))
      as [|x l IH]; simpl; [constructor|].
    now apply insert_by_count_sorted.
  - unfold reference_count.
    induction (KnowledgeGraph.nodes (KnowledgeSync.graph ks))
      as [|[k n] d IH]; simpl; [reflexivity|].
    unfold Dict.keys in Hnd. simpl in Hnd.
    inversion Hnd as [|? ? Hk Hd]; subst.
    rewrite insert_by_count_perm, String.eqb_refl. constructor.
    rewrite (IH Hd). unfold Dict.keys. rewrite !map_map.
    apply Permutation_refl'. apply map_ext_in.
    intros [k' n'] Hin. simpl.
    destruct (String.eqb k k') eqn:E; [|reflexivity].
    apply String.eqb_eq in E. subst k'. exfalso. apply Hk.
    change k with (fst (k, n')). now apply in_map.
Qed.

Lemma get_topics_sorted_by_count_witness :
  NoDup (Dict.keys (KnowledgeGraph.nodes (KnowledgeSync.graph store_after_add)))
  /\
  Permutation (KnowledgeSync.get_topics store_after_add)
    [("x", 2); ("latency", 2)].
Proof.
  assert (Hnd : NoDup (Dict.keys (KnowledgeGraph.nodes
                                    (KnowledgeSync.graph store_after_add)))).
  { vm_compute. constructor; [simpl; intros [H | []]; discriminate|].
    constructor; [simpl; tauto | constructor]. }
  split; [exact Hnd|].
  exact (proj2 (get_topics_sorted_by_count store_after_add Hnd)).
Defined.

(* ===================================================================== *)
(** ** Merge engine: what [sync] does to the entries *)
(* ===================================================================== *)

Lemma length_set {V : Type} (k : string) (v : V) (d : Dict.t V) :
  List.length (Dict.set k v d)
  = if Dict.mem k d then List.length d else S (List.length d).
Proof.
  unfold Dict.mem. induction d as [|[k0 v0] d IH]; simpl; [reflexivity|].
  destruct (String.eqb k0 k); simpl; [reflexivity|].
  rewrite IH. now destruct (Dict.get k d).
Qed.

(** What [sync] returns, in terms of its three loops. *)
Lemma sync_result ks other c :
  value (KnowledgeSync.sync ks (Some other) c)
  = (let merged := fold_left KnowledgeSync.sync_entry
                     (KnowledgeSync.entries other)
                     (KnowledgeSync.entries ks, Stats.zero) in
     (snd merged,
      KnowledgeSync.Build (KnowledgeSync.agent ks) (KnowledgeSync.auto_sync ks)
        (fst merged)
        (KnowledgeGraph.Build
           (KnowledgeSync.merge_nodes
              (KnowledgeGraph.nodes (KnowledgeSync.graph ks))
              (KnowledgeGraph.nodes (KnowledgeSync.graph other)))
           (fold_left KnowledgeSync.sync_edge
              (KnowledgeGraph.edges (KnowledgeSync.graph other))
              (KnowledgeGraph.edges (KnowledgeSync.graph ks))))
        (KnowledgeSync.sync_log ks
         ++ [SyncRecord.Build (wall c (ticks c)) (KnowledgeSync.agent ks)
               (KnowledgeSync.agent other) (snd merged)]))).
Proof.
  unfold KnowledgeSync.sync, value. cbv zeta.
  destruct (fold_left KnowledgeSync.sync_entry _ _) as [es st].
  reflexivity.
Qed.

(** One incoming entry: nothing is lost, no stamp goes back, the incoming
    stamp is reached, and what is stored comes from one of the two sides. *)
Lemma sync_entry_step es st k v :
  let acc' := KnowledgeSync.sync_entry (es, st) (k, v) in
  (forall id e, Dict.get id es = Some e ->
     exists e', Dict.get id (fst acc') = Some e' /\
                KnowledgeEntry.updated e <= KnowledgeEntry.updated e') /\
  (exists e', Dict.get k (fst acc') = Some e' /\
              KnowledgeEntry.updated v <= KnowledgeEntry.updated e') /\
  (forall id e', Dict.get id (fst acc') = Some e' ->
     Dict.get id es = Some e' \/ (id = k /\ e' = v)).
Proof.
  cbv zeta. unfold KnowledgeSync.sync_entry.
  destruct (Dict.get k es) as [ours|] eqn:G.
  - destruct (KnowledgeEntry.updated v >? KnowledgeEntry.updated ours) eqn:E.
    + apply Z.gtb_lt in E. cbn [fst]. split; [|split].
      * intros id e Hid. destruct (String.eqb k id) eqn:Ek.
        -- apply String.eqb_eq in Ek. subst id. rewrite get_set_same.
           exists v. split; [reflexivity|]. rewrite G in Hid.
           injection Hid as <-. lia.
        -- apply String.eqb_neq in Ek. rewrite get_set_other by exact Ek.
           exists e. split; [exact Hid | lia].
      * exists v. rewrite get_set_same. split; [reflexivity | lia].
      * intros id e' Hid. destruct (String.eqb k id) eqn:Ek.
        -- apply String.eqb_eq in Ek. subst id. rewrite get_set_same in Hid.
           injection Hid as <-. auto.
        -- apply String.eqb_neq in Ek. rewrite get_set_other in Hid by exact Ek.
           auto.
    + rewrite Z.gtb_ltb in E. apply Z.ltb_ge in E.
      assert (Hsame : fst (if KnowledgeEntry.updated v
                              =? KnowledgeEntry.updated ours
                           then (es, Stats.count_conflict st) else (es, st))
                      = es) by now destruct (_ =? _).
      rewrite Hsame. split; [|split].
      * intros id e Hid. exists e. split; [exact Hid | lia].
      * exists ours. split; [exact G | exact E].
      * auto.
  - cbn [fst]. split; [|split].
    + intros id e Hid. destruct (String.eqb k id) eqn:Ek.
      * apply String.eqb_eq in Ek. subst id. congruence.
      * apply String.eqb_neq in Ek. rewrite get_set_other by exact Ek.
        exists e. split; [exact Hid | lia].
    + exists v. rewrite get_set_same. split; [reflexivity | lia].
    + intros id e' Hid. destruct (String.eqb k id) eqn:Ek.
      * apply String.eqb_eq in Ek. subst id. rewrite get_set_same in Hid.
        injection Hid as <-. auto.
      * apply String.eqb_neq in Ek. rewrite get_set_other in Hid by exact Ek.
        auto.
Qed.

Lemma sync_entries_keep incoming : forall acc id e,
  Dict.get id (fst acc) = Some e ->
  exists e', Dict.get id (fst (fold_left KnowledgeSync.sync_entry incoming acc))
             = Some e' /\
             KnowledgeEntry.updated e <= KnowledgeEntry.updated e'.
Proof.
  induction incoming as [|[k v] incoming IH]; intros [es st] id e Hid; simpl.
  - exists e. split; [exact Hid | lia].
  - destruct (sync_entry_step es st k v) as [Hkeep _].
    destruct (Hkeep id e Hid) as [e1 [H1 Hle1]].
    destruct (IH _ id e1 H1) as [e2 [H2 Hle2]].
    exists e2. split; [exact H2 | lia].
Qed.

Lemma sync_entries_absorb incoming : forall acc k v,
  In (k, v) incoming ->
  exists e', Dict.get k (fst (fold_left KnowledgeSync.sync_entry incoming acc))
             = Some e' /\
             KnowledgeEntry.updated v <= KnowledgeEntry.updated e'.
Proof.
  induction incoming as [|[k0 v0] incoming IH]; intros [es st] k v Hin;
    simpl; [destruct Hin|].
  destruct Hin as [[= -> ->] | Hin]; [|now apply IH].
  destruct (sync_entry_step es st k v) as [_ [[e1 [H1 Hle1]] _]].
  destruct (sync_entries_keep incoming _ k e1 H1) as [e2 [H2 Hle2]].
  exists e2. split; [exact H2 | lia].
Qed.

Lemma sync_entries_provenance incoming : forall acc id e',
  Dict.get id (fst (fold_left KnowledgeSync.sync_entry incoming acc))
  = Some e' ->
  Dict.get id (fst acc) = Some e' \/ In (id, e') incoming.
Proof.
  induction incoming as [|[k v] incoming IH]; intros [es st] id e' H; simpl in *.
  - now left.
  - apply IH in H as [H | H]; [|auto].
    destruct (sync_entry_step es st k v) as [_ [_ Hprov]].
    destruct (Hprov id e' H) as [H' | [-> ->]]; auto.
Qed.

(** X19. [sync] loses nothing and never goes back in time: every local id
    is still stored afterwards, with an [updated] stamp at least as late;
    every incoming id is stored afterwards, with a stamp at least as late
    as the incoming one; and every entry stored afterwards is the local or
    an incoming one. The agent stays, and the sync log gains one record
    that carries the counts returned. *)
Theorem sync_takes_the_newer
    (ks other : KnowledgeSync.t) (c : Clock) :
  let r := value (KnowledgeSync.sync ks (Some other) c) in
  (forall id e, KnowledgeSync.get ks id = Some e ->
     exists e', KnowledgeSync.get (snd r) id = Some e' /\
                KnowledgeEntry.updated e <= KnowledgeEntry.updated e') /\
  (forall id e, In (id, e) (KnowledgeSync.entries other) ->
     exists e', KnowledgeSync.get (snd r) id = Some e' /\
                KnowledgeEntry.updated e <= KnowledgeEntry.updated e') /\
  (forall id e', KnowledgeSync.get (snd r) id = Some e' ->
     KnowledgeSync.get ks id = Some e' \/
     In (id, e') (KnowledgeSync.entries other)) /\
  KnowledgeSync.agent (snd r) = KnowledgeSync.agent ks /\
  KnowledgeSync.sync_log (snd r)
  = KnowledgeSync.sync_log ks
    ++ [SyncRecord.Build (wall c (ticks c)) (KnowledgeSync.agent ks)
          (KnowledgeSync.agent other) (fst r)].
Proof.
  cbv zeta. rewrite sync_result. cbv zeta. unfold KnowledgeSync.get.
  cbn [fst snd KnowledgeSync.entries KnowledgeSync.agent
       KnowledgeSync.sync_log].
  split; [|split; [|split; [|split; reflexivity]]].
  - intros id e H.
    exact (sync_entries_keep _ (KnowledgeSync.entries ks, Stats.zero) id e H).
  - intros id e H. now apply sync_entries_absorb.
  - intros id e' H.
    exact (sync_entries_provenance _ (KnowledgeSync.entries ks, Stats.zero)
             id e' H).
Qed.

Lemma sync_entry_counts es st k v :
  let acc' := KnowledgeSync.sync_entry (es, st) (k, v) in
  (List.length (fst acc') + Stats.added st
   = List.length es + Stats.added (snd acc'))%nat /\
  (Stats.added st <= Stats.added (snd acc'))%nat /\
  (Stats.updated st <= Stats.updated (snd acc'))%nat /\
  (Stats.conflicts st <= Stats.conflicts (snd acc'))%nat /\
  (Stats.added (snd acc') + Stats.updated (snd acc')
   + Stats.conflicts (snd acc')
   <= S (Stats.added st + Stats.updated st + Stats.conflicts st))%nat.
Proof.
  cbv zeta. unfold KnowledgeSync.sync_entry.
  destruct (Dict.get k es) as [ours|] eqn:G.
  - destruct (_ >? _).
    + cbn [fst snd]. rewrite length_set, (get_Some_mem _ _ _ G). simpl. lia.
    + destruct (_ =? _); cbn [fst snd]; simpl; lia.
  - cbn [fst snd]. rewrite length_set. unfold Dict.mem. rewrite G. simpl. lia.
Qed.

Lemma sync_entries_counts incoming : forall acc,
  let acc' := fold_left KnowledgeSync.sync_entry incoming acc in
  (List.length (fst acc') + Stats.added (snd acc)
   = List.length (fst acc) + Stats.added (snd acc'))%nat /\
  (Stats.added (snd acc) <= Stats.added (snd acc'))%nat /\
  (Stats.updated (snd acc) <= Stats.updated (snd acc'))%nat /\
  (Stats.conflicts (snd acc) <= Stats.conflicts (snd acc'))%nat /\
  (Stats.added (snd acc') + Stats.updated (snd acc')
   + Stats.conflicts (snd acc')
   <= List.length incoming
      + (Stats.added (snd acc) + Stats.updated (snd acc)
         + Stats.conflicts (snd acc)))%nat.
Proof.
  induction incoming as [|[k v] incoming IH]; intros [es st]; cbv zeta;
    cbn [fold_left List.length fst snd].
  - lia.
  - pose proof (sync_entry_counts es st k v) as H1. cbv zeta in H1.
    specialize (IH (KnowledgeSync.sync_entry (es, st) (k, v))).
    cbv zeta in IH.
    destruct (KnowledgeSync.sync_entry (es, st) (k, v)) as [es1 st1].
    cbn [fst snd] in *. lia.
Qed.

(** X20. The counts [sync] returns add up: the store grows by exactly
    [added] entries, and [added + updated + conflicts] is at most the number
    of incoming entries (the rest were older than the local copy). *)
Theorem sync_counts_add_up (ks other : KnowledgeSync.t) (c : Clock) :
  let r := value (KnowledgeSync.sync ks (Some other) c) in
  List.length (KnowledgeSync.entries (snd r))
  = (List.length (KnowledgeSync.entries ks) + Stats.added (fst r))%nat /\
  (Stats.added (fst r) + Stats.updated (fst r) + Stats.conflicts (fst r)
   <= List.length (KnowledgeSync.entries other))%nat.
Proof.
  cbv zeta. rewrite sync_result. cbv zeta.
  cbn [fst snd KnowledgeSync.entries].
  pose proof (sync_entries_counts (KnowledgeSync.entries other)
                (KnowledgeSync.entries ks, Stats.zero)) as H.
  cbv zeta in H. cbn [fst snd] in H. simpl Stats.added in H.
  simpl Stats.updated in H. simpl Stats.conflicts in H. lia.
Qed.

(* ===================================================================== *)
(** ** Merge engine: nodes, and merging twice *)
(* ===================================================================== *)

Lemma merge_nodes_get theirs : forall ours k,
  Dict.get k (KnowledgeSync.merge_nodes ours theirs)
  = match Dict.get k ours with
    | Some n => Some n
    | None => Dict.get k theirs
    end.
Proof.
  unfold KnowledgeSync.merge_nodes.
  induction theirs as [|[k0 v0] theirs IH]; intros ours k; simpl.
  - now destruct (Dict.get k ours).
  - rewrite IH. cbn [fst snd]. unfold Dict.mem.
    destruct (Dict.get k0 ours) as [n0|] eqn:G0.
    + destruct (Dict.get k ours) eqn:G; [reflexivity|].
      destruct (String.eqb k0 k) eqn:E; [|reflexivity].
      apply String.eqb_eq in E. congruence.
    + destruct (String.eqb k0 k) eqn:E.
      * apply String.eqb_eq in E. subst k0.
        now rewrite get_set_same, G0.
      * apply String.eqb_neq in E. now rewrite get_set_other.
Qed.

Lemma merge_nodes_nothing_new theirs : forall ours,
  (forall k, In k (Dict.keys theirs) -> Dict.mem k ours = true) ->
  KnowledgeSync.merge_nodes ours theirs = ours.
Proof.
  unfold KnowledgeSync.merge_nodes.
  induction theirs as [|[k0 v0] theirs IH]; intros ours H; simpl;
    [reflexivity|].
  rewrite (H k0) by now left. apply IH. intros k Hk. apply H. now right.
Qed.

(** X21. The node merge of [sync] and [import_from_sync] keeps every local
    node with its own metadata (the reference count is not touched) and
    takes over, as it is, the metadata of every incoming topic that has no
    local node. *)
Theorem merge_keeps_local_nodes
    (sha256_hex16 : string -> string) (isoformat : Time -> string)
    (ks other : KnowledgeSync.t) (data : SyncData.t) (c : Clock)
    (topic : string) :
  Dict.get topic
    (KnowledgeGraph.nodes
       (KnowledgeSync.graph
          (snd (value (KnowledgeSync.sync ks (Some other) c)))))
  = match Dict.get topic (KnowledgeGraph.nodes (KnowledgeSync.graph ks)) with
    | Some n => Some n
    | None =>
        Dict.get topic (KnowledgeGraph.nodes (KnowledgeSync.graph other))
    end /\
  Dict.get topic
    (KnowledgeGraph.nodes
       (KnowledgeSync.graph
          (snd (value (KnowledgeSync.import_from_sync sha256_hex16 isoformat
                         ks data c)))))
  = match Dict.get topic (KnowledgeGraph.nodes (KnowledgeSync.graph ks)) with
    | Some n => Some n
    | None =>
        match SyncData.graph data with
        | Some graph_data =>
            match GraphDict.nodes graph_data with
            | Some ns => Dict.get topic ns
            | None => None
            end
        | None => None
        end
    end.
Proof.
  split.
  - rewrite sync_result. cbv zeta.
    cbn [snd KnowledgeSync.graph KnowledgeGraph.nodes].
    apply merge_nodes_get.
  - unfold KnowledgeSync.import_from_sync, value, bind.
    destruct (for_each _ _ _ c) as [[es st] c1].
    unfold KnowledgeSync.save, bind, datetime_now, ret.
    cbn [fst snd KnowledgeSync.graph KnowledgeSync.with_graph].
    destruct (SyncData.graph data) as [gd|].
    + cbn [KnowledgeGraph.nodes]. rewrite merge_nodes_get.
      destruct (GraphDict.nodes gd); [reflexivity|].
      now destruct (Dict.get topic _).
    + now destruct (Dict.get topic _).
Qed.

Lemma sync_entries_nothing_new incoming : forall es st,
  (forall k v, In (k, v) incoming ->
     exists e', Dict.get k es = Some e' /\
                KnowledgeEntry.updated v <= KnowledgeEntry.updated e') ->
  let acc' := fold_left KnowledgeSync.sync_entry incoming (es, st) in
  fst acc' = es /\
  Stats.added (snd acc') = Stats.added st /\
  Stats.updated (snd acc') = Stats.updated st.
Proof.
  induction incoming as [|[k v] incoming IH]; intros es st H; cbv zeta;
    cbn [fold_left].
  - auto.
  - destruct (H k v (or_introl eq_refl)) as [e' [G Hle]].
    assert (Hstep : exists st1,
               KnowledgeSync.sync_entry (es, st) (k, v) = (es, st1) /\
               Stats.added st1 = Stats.added st /\
               Stats.updated st1 = Stats.updated st).
    { unfold KnowledgeSync.sync_entry. rewrite G.
      destruct (_ >? _) eqn:E; [apply Z.gtb_lt in E; lia|].
      destruct (_ =? _); eexists; repeat split. }
    destruct Hstep as [st1 [-> [Ha Hu]]].
    destruct (IH es st1) as [He [Ha' Hu']].
    + intros k' v' Hin. apply H. now right.
    + cbv zeta in *. split; [exact He|]. split; congruence.
Qed.

Lemma sync_edges_nothing_new incoming : forall ours,
  (forall e, In e incoming -> ordered_pair_present e ours) ->
  fold_left KnowledgeSync.sync_edge incoming ours = ours.
Proof.
  induction incoming as [|e incoming IH]; intros ours H; simpl; [reflexivity|].
  rewrite sync_edge_present by (apply H; now left).
  apply IH. intros e' He'. apply H. now right.
Qed.

(** X22. Merging the same store a second time changes nothing: after
    [sync] with a store, a second [sync] with that store leaves the entries
    and the graph as the first left them, and counts nothing added and
    nothing updated. *)
Theorem sync_twice_changes_nothing
    (ks other : KnowledgeSync.t) (c c' : Clock) :
  let once := snd (value (KnowledgeSync.sync ks (Some other) c)) in
  let again := value (KnowledgeSync.sync once (Some other) c') in
  KnowledgeSync.entries (snd again) = KnowledgeSync.entries once /\
  KnowledgeSync.graph (snd again) = KnowledgeSync.graph once /\
  Stats.added (fst again) = 0%nat /\
  Stats.updated (fst again) = 0%nat.
Proof.
  cbv zeta. rewrite (sync_result _ other c'). cbv zeta.
  cbn [fst snd KnowledgeSync.entries KnowledgeSync.graph].
  rewrite (sync_result ks other c). cbv zeta.
  cbn [snd KnowledgeSync.entries KnowledgeSync.graph KnowledgeGraph.nodes
       KnowledgeGraph.edges].
  set (es1 := fst (fold_left KnowledgeSync.sync_entry
                     (KnowledgeSync.entries other)
                     (KnowledgeSync.entries ks, Stats.zero))).
  pose proof (sync_entries_nothing_new (KnowledgeSync.entries other) es1
                Stats.zero) as Hent.
  cbv zeta in Hent. destruct Hent as [He [Ha Hu]].
  { intros k v Hin. unfold es1. now apply sync_entries_absorb. }
  split; [exact He|]. split; [|split; [exact Ha | exact Hu]].
  f_equal.
  - apply merge_nodes_nothing_new. intros k Hk.
    apply mem_In_keys in Hk. unfold Dict.mem in *.
    rewrite merge_nodes_get.
    destruct (Dict.get k (KnowledgeGraph.nodes (KnowledgeSync.graph ks)));
      [reflexivity | exact Hk].
  - apply sync_edges_nothing_new.
    destruct (sync_edges_additive
                (KnowledgeGraph.edges (KnowledgeSync.graph other))
                (KnowledgeGraph.edges (KnowledgeSync.graph ks)))
      as [app [Heq [_ Hall]]].
    rewrite Heq. exact Hall.
Qed.

(* ===================================================================== *)
(** ** Merge engine: importing an export *)
(* ===================================================================== *)

Lemma set_new_key {V : Type} (k : string) (v : V) (d : Dict.t V) :
  ~ In k (Dict.keys d) -> Dict.set k v d = d ++ [(k, v)].
Proof.
  unfold Dict.keys. induction d as [|[k0 v0] d IH]; simpl; [reflexivity|].
  intros H. destruct (String.eqb k0 k) eqn:E.
  - apply String.eqb_eq in E. tauto.
  - rewrite IH by tauto. reflexivity.
Qed.

Lemma get_new_key {V : Type} (k : string) (d : Dict.t V) :
  ~ In k (Dict.keys d) -> Dict.get k d = None.
Proof.
  intros H. destruct (Dict.get k d) eqn:G; [|reflexivity].
  exfalso. apply H. apply mem_In_keys. unfold Dict.mem. now rewrite G.
Qed.

Lemma import_entries_fresh sha256_hex16 isoformat
    (l : Dict.t KnowledgeEntry.t) : forall acc st c,
  (forall k e, In (k, e) l -> KnowledgeEntry.entry_id e = k /\ normalised e) ->
  NoDup (Dict.keys acc ++ Dict.keys l) ->
  for_each (map KnowledgeEntry.to_dict (Dict.values l))
    (KnowledgeSync.import_entry sha256_hex16 isoformat) (acc, st) c
  = (acc ++ l,
     Stats.Build (Stats.added st + List.length l) (Stats.updated st)
       (Stats.conflicts st),
     c).
Proof.
  induction l as [|[k e] l IH]; intros acc st c Hl Hnd.
  - simpl. rewrite app_nil_r, Nat.add_0_r. now destruct st.
  - destruct (Hl k e (or_introl eq_refl)) as [Hid Hnorm].
    cbn [Dict.values map for_each]. unfold bind at 1.
    unfold KnowledgeSync.import_entry at 1. unfold bind at 1.
    rewrite (from_dict_undoes_to_dict _ _ e c Hnorm). rewrite Hid.
    assert (Hk : ~ In k (Dict.keys acc)).
    { intros Hin. unfold Dict.keys in Hnd. simpl in Hnd.
      apply NoDup_remove_2 in Hnd. apply Hnd. apply in_or_app. now left. }
    rewrite (get_new_key _ _ Hk), (set_new_key _ _ _ Hk). unfold ret at 1.
    change (map KnowledgeEntry.to_dict (map snd l))
      with (map KnowledgeEntry.to_dict (Dict.values l)).
    rewrite IH.
    + rewrite <- app_assoc. simpl. repeat f_equal. lia.
    + intros k' e' Hin. apply Hl. now right.
    + unfold Dict.keys in *. rewrite map_app, <- app_assoc. exact Hnd.
Qed.

Lemma merge_nodes_fresh theirs : forall ours,
  NoDup (Dict.keys ours ++ Dict.keys theirs) ->
  KnowledgeSync.merge_nodes ours theirs = ours ++ theirs.
Proof.
  unfold KnowledgeSync.merge_nodes.
  induction theirs as [|[k v] theirs IH]; intros ours Hnd; simpl.
  - now rewrite app_nil_r.
  - cbn [fst snd].
    assert (Hk : ~ In k (Dict.keys ours)).
    { intros Hin. unfold Dict.keys in Hnd. simpl in Hnd.
      apply NoDup_remove_2 in Hnd. apply Hnd. apply in_or_app. now left. }
    assert (Hm : Dict.mem k ours = false).
    { unfold Dict.mem. now rewrite (get_new_key _ _ Hk). }
    rewrite Hm, (set_new_key _ _ _ Hk), IH.
    + now rewrite <- app_assoc.
    + unfold Dict.keys in *. rewrite map_app, <- app_assoc. exact Hnd.
Qed.

(** X23. Importing a store's export into a fresh store rebuilds the store:
    when every entry is filed under its own id and is in the constructor's
    normal form, the import yields the same entries in the same order and
    the same graph, and counts every entry as added. *)
Theorem import_of_export_restores
    (sha256_hex16 : string -> string) (isoformat : Time -> string)
    (ks : KnowledgeSync.t) (agent : string) (auto_sync : bool)
    (c0 c : Clock) :
  NoDup (Dict.keys (KnowledgeSync.entries ks)) ->
  (forall k e, In (k, e) (KnowledgeSync.entries ks) ->
               KnowledgeEntry.entry_id e = k /\ normalised e) ->
  NoDup (Dict.keys (KnowledgeGraph.nodes (KnowledgeSync.graph ks))) ->
  let data := value (KnowledgeSync.export_for_sync ks c0) in
  let r := value (KnowledgeSync.import_from_sync sha256_hex16 isoformat
                    (KnowledgeSync.init agent auto_sync) data c) in
  KnowledgeSync.entries (snd r) = KnowledgeSync.entries ks /\
  KnowledgeSync.graph (snd r) = KnowledgeSync.graph ks /\
  fst r = Stats.Build (List.length (KnowledgeSync.entries ks)) 0 0.
Proof.
  intros Hnd Hl Hnodes. cbv zeta.
  unfold KnowledgeSync.export_for_sync, KnowledgeSync.import_from_sync,
    value, bind, datetime_now, ret.
  cbn [fst snd SyncData.entries SyncData.graph or_nil KnowledgeSync.init
       KnowledgeSync.entries KnowledgeSync.graph].
  pose proof (import_entries_fresh sha256_hex16 isoformat
                (KnowledgeSync.entries ks) Dict.empty Stats.zero c Hl Hnd)
    as Hloop.
  unfold ret in Hloop. rewrite Hloop.
  unfold KnowledgeSync.save, bind, datetime_now, ret.
  cbn [fst snd KnowledgeSync.entries KnowledgeSync.graph
       KnowledgeSync.with_entries KnowledgeSync.with_graph
       GraphDict.nodes GraphDict.edges or_nil KnowledgeGraph.init
       KnowledgeGraph.nodes KnowledgeGraph.edges Dict.empty app].
  split; [reflexivity|]. split; [|reflexivity].
  rewrite append_each, (merge_nodes_fresh _ Dict.empty Hnodes).
  now destruct (KnowledgeSync.graph ks).
Qed.

Lemma import_of_export_restores_witness :
  NoDup (Dict.keys (KnowledgeSync.entries store_two_notes)) /\
  KnowledgeSync.entries
    (snd (value (KnowledgeSync.import_from_sync example_sha256_hex16
                   example_isoformat (KnowledgeSync.init "atlas" false)
                   (value (KnowledgeSync.export_for_sync store_two_notes
                             (frozen 300)))
                   (frozen 400))))
  = KnowledgeSync.entries store_two_notes.
Proof.
  assert (Hnd : NoDup (Dict.keys (KnowledgeSync.entries store_two_notes))).
  { simpl. constructor; [simpl; intros [H | []]; discriminate|].
    constructor; [simpl; tauto | constructor]. }
  split; [exact Hnd|].
  apply (import_of_export_restores example_sha256_hex16 example_isoformat
           store_two_notes "atlas" false (frozen 300) (frozen 400) Hnd).
  - intros k e [H | [H | []]]; injection H as <- <-;
      (split; [reflexivity | repeat split; reflexivity]).
  - constructor.
Defined.

Lemma sync_entry_at es st k v :
  Dict.get k (fst (KnowledgeSync.sync_entry (es, st) (k, v)))
  = match Dict.get k es with
    | None => Some v
    | Some ours =>
        if KnowledgeEntry.updated v >? KnowledgeEntry.updated ours
        then Some v else Some ours
    end.
Proof.
  unfold KnowledgeSync.sync_entry.
  destruct (Dict.get k es) as [ours|] eqn:G.
  - destruct (_ >? _); cbn [fst]; [apply get_set_same|].
    now destruct (_ =? _).
  - cbn [fst]. apply get_set_same.
Qed.

(** X24. Last writer wins, entry by entry: after [sync] with a store whose
    ids are unique, an id of that store holds the incoming entry when it
    was not stored locally or the incoming [updated] stamp is strictly
    later, and holds the local entry otherwise. *)
Theorem sync_last_writer_wins
    (ks other : KnowledgeSync.t) (entry_id : string)
    (theirs : KnowledgeEntry.t) (c : Clock) :
  NoDup (Dict.keys (KnowledgeSync.entries other)) ->
  KnowledgeSync.get other entry_id = Some theirs ->
  KnowledgeSync.get (snd (value (KnowledgeSync.sync ks (Some other) c)))
    entry_id
  = match KnowledgeSync.get ks entry_id with
    | None => Some theirs
    | Some ours =>
        if KnowledgeEntry.updated theirs >? KnowledgeEntry.updated ours
        then Some theirs else Some ours
    end.
Proof.
  unfold KnowledgeSync.get. intros Hnd Htheirs.
  rewrite sync_result. cbv zeta. cbn [snd KnowledgeSync.entries].
  apply get_In in Htheirs. apply in_split in Htheirs as [l1 [l2 Hsplit]].
  rewrite Hsplit in *. unfold Dict.keys in Hnd. rewrite map_app in Hnd.
  simpl in Hnd. apply NoDup_remove_2 in Hnd.
  rewrite fold_left_app. cbn [fold_left].
  pose proof (sync_entries_other_keys l1
                (KnowledgeSync.entries ks, Stats.zero) entry_id) as H1.
  destruct (fold_left KnowledgeSync.sync_entry l1
              (KnowledgeSync.entries ks, Stats.zero)) as [es1 st1].
  cbn [fst] in H1.
  rewrite sync_entries_other_keys
    by (intros Hin; apply Hnd; apply in_or_app; now right).
  rewrite sync_entry_at, H1; [reflexivity|].
  intros Hin. apply Hnd. apply in_or_app. now left.
Qed.

Lemma sync_last_writer_wins_witness :
  NoDup (Dict.keys (KnowledgeSync.entries store_two_notes)) /\
  KnowledgeSync.get store_two_notes "9d3e1f0a2b4c5d6e" = Some latency_note /\
  KnowledgeSync.get
    (snd (value (KnowledgeSync.sync store_with_note (Some store_two_notes)
                   (frozen 300))))
    "9d3e1f0a2b4c5d6e" = Some latency_note.
Proof.
  assert (Hnd : NoDup (Dict.keys (KnowledgeSync.entries store_two_notes))).
  { simpl. constructor; [simpl; intros [H | []]; discriminate|].
    constructor; [simpl; tauto | constructor]. }
  split; [exact Hnd|]. split; [reflexivity|].
  exact (sync_last_writer_wins store_with_note store_two_notes
           "9d3e1f0a2b4c5d6e" latency_note (frozen 300) Hnd eq_refl).
Defined.

(** X25. Importing the export of another store appends every edge of that
    store, whether or not its endpoint pair is already there, and importing
    the same export once more appends them again: unlike [sync], the import
    is not idempotent on the graph. *)
Theorem import_appends_every_edge
    (sha256_hex16 : string -> string) (isoformat : Time -> string)
    (ks other : KnowledgeSync.t) (c0 c c' : Clock) :
  let data := value (KnowledgeSync.export_for_sync other c0) in
  let once := snd (value (KnowledgeSync.import_from_sync sha256_hex16
                            isoformat ks data c)) in
  let twice := snd (value (KnowledgeSync.import_from_sync sha256_hex16
                             isoformat once data c')) in
  KnowledgeGraph.edges (KnowledgeSync.graph once)
  = KnowledgeGraph.edges (KnowledgeSync.graph ks) ++
    KnowledgeGraph.edges (KnowledgeSync.graph other) /\
  KnowledgeGraph.edges (KnowledgeSync.graph twice)
  = KnowledgeGraph.edges (KnowledgeSync.graph ks) ++
    KnowledgeGraph.edges (KnowledgeSync.graph other) ++
    KnowledgeGraph.edges (KnowledgeSync.graph other).
Proof.
  cbv zeta. rewrite !import_result_edges.
  unfold KnowledgeSync.export_for_sync, value, bind, datetime_now, ret.
  cbn [fst snd SyncData.graph GraphDict.edges or_nil].
  split; [reflexivity | now rewrite app_assoc].
Qed.

(* ===================================================================== *)
(** ** Subscriptions *)
(* ===================================================================== *)

Lemma remove_first_Some x l l' :
  Subscriptions.remove_first x l = Some l' ->
  exists l1 l2, l = l1 ++ x :: l2 /\ ~ In x l1 /\ l' = l1 ++ l2.
Proof.
  revert l'. induction l as [|y l IH]; simpl; [discriminate|].
  intros l'. destruct (Nat.eqb y x) eqn:E.
  - apply Nat.eqb_eq in E. subst y. intros [= <-].
    exists [], l. auto.
  - apply Nat.eqb_neq in E.
    destruct (Subscriptions.remove_first x l) as [r|]; simpl; [|discriminate].
    intros [= <-]. destruct (IH r eq_refl) as [l1 [l2 [-> [Hn ->]]]].
    exists (y :: l1), l2. repeat split; auto.
    intros [H | H]; auto.
Qed.

Lemma remove_first_None x l :
  Subscriptions.remove_first x l = None <-> ~ In x l.
Proof.
  induction l as [|y l IH]; simpl; [tauto|].
  destruct (Nat.eqb y x) eqn:E.
  - apply Nat.eqb_eq in E. split; [discriminate | tauto].
  - apply Nat.eqb_neq in E.
    destruct (Subscriptions.remove_first x l); simpl.
    + split; [discriminate|]. intros H. exfalso.
      assert (Hn : ~ In x l) by tauto. apply IH in Hn. discriminate.
    + split; [|reflexivity]. intros _ [H | H]; [auto|].
      now apply (proj1 IH eq_refl).
Qed.


Lemma subscribe_get subs topic callback :
  let subs' := Subscriptions.subscribe subs topic callback in
  Dict.get (Str.lower topic) subs'
  = Some (match Dict.get (Str.lower topic) subs with
          | Some l => l
          | None => []
          end ++ [callback]) /\
  forall other, other <> Str.lower topic ->
                Dict.get other subs' = Dict.get other subs.
Proof.
  cbv zeta. unfold Subscriptions.subscribe, Dict.mem.
  destruct (Dict.get (Str.lower topic) subs) as [l|] eqn:G.
  - rewrite G. split; [apply get_set_same|].
    intros other Hne. apply get_set_other. congruence.
  - rewrite get_set_same. split; [apply get_set_same|].
    intros other Hne. rewrite !get_set_other by congruence. reflexivity.
Qed.


(** X27. [unsubscribe] answers [True] exactly when the callback is filed
    under the lower-cased topic; it then removes the earliest registration
    of that callback under that topic and nothing else. When it answers
    [False] the subscriptions are unchanged. Unsubscribing what was just
    subscribed always answers [True]. *)
Theorem unsubscribe_removes_first
    (subs : Subscriptions.t) (topic : string)
    (callback : Subscriptions.Callback) :
  let r := Subscriptions.unsubscribe subs topic callback in
  (fst r = true <->
   exists l, Dict.get (Str.lower topic) subs = Some l /\ In callback l) /\
  (fst r = false -> snd r = subs) /\
  (fst r = true ->
   exists l1 l2,
     Dict.get (Str.lower topic) subs = Some (l1 ++ callback :: l2) /\
     ~ In callback l1 /\
     Dict.get (Str.lower topic) (snd r) = Some (l1 ++ l2)) /\
  (forall other, other <> Str.lower topic ->
                 Dict.get other (snd r) = Dict.get other subs) /\
  fst (Subscriptions.unsubscribe
         (Subscriptions.subscribe subs topic callback) topic callback)
  = true.
Proof.
  cbv zeta.
  assert (Hcore : forall s : Subscriptions.t,
    let r := Subscriptions.unsubscribe s topic callback in
    (fst r = true <->
     exists l, Dict.get (Str.lower topic) s = Some l /\ In callback l) /\
    (fst r = false -> snd r = s) /\
    (fst r = true ->
     exists l1 l2,
       Dict.get (Str.lower topic) s = Some (l1 ++ callback :: l2) /\
       ~ In callback l1 /\
       Dict.get (Str.lower topic) (snd r) = Some (l1 ++ l2)) /\
    (forall other, other <> Str.lower topic ->
                   Dict.get other (snd r) = Dict.get other s)).
  { intros s. cbv zeta. unfold Subscriptions.unsubscribe.
    destruct (Dict.get (Str.lower topic) s) as [l|] eqn:G.
    - destruct (Subscriptions.remove_first callback l) as [l'|] eqn:R;
        cbn [fst snd].
      + destruct (remove_first_Some _ _ _ R) as [l1 [l2 [-> [Hn ->]]]].
        split; [|split; [discriminate|split]].
        * split; [|reflexivity]. intros _. eexists. split; [reflexivity|].
          apply in_or_app. right. now left.
        * intros _. exists l1, l2. split; [reflexivity|].
          split; [exact Hn | apply get_set_same].
        * intros other Hne. apply get_set_other. congruence.
      + apply remove_first_None in R.
        split; [|split; [reflexivity|split; [discriminate|reflexivity]]].
        split; [discriminate|]. intros [l0 [[= <-] Hin]]. contradiction.
    - cbn [fst snd].
      split; [|split; [reflexivity|split; [discriminate|reflexivity]]].
      split; [discriminate|]. intros [l0 [H _]]. discriminate. }
  destruct (Hcore subs) as [H1 [H2 [H3 H4]]].
  split; [exact H1|]. split; [exact H2|]. split; [exact H3|].
  split; [exact H4|].
  apply (proj1 (Hcore (Subscriptions.subscribe subs topic callback))).
  destruct (subscribe_get subs topic callback) as [Hget _].
  eexists. split; [exact Hget|]. apply in_or_app. right. now left.
Qed.

(* ===================================================================== *)
(** ** Merge engine: equal timestamps over a whole merge *)
(* ===================================================================== *)

(** The entry loop of [sync] is [merge_with] on equal stamps. *)
Lemma sync_entry_merge_with acc kv :
  KnowledgeSync.sync_entry acc kv = merge_with same_stamp acc kv.
Proof. destruct acc as [es stats], kv as [k v]. reflexivity. Qed.

Lemma sync_entries_merge_with incoming : forall acc,
  fold_left KnowledgeSync.sync_entry incoming acc
  = fold_left (merge_with same_stamp) incoming acc.
Proof.
  induction incoming as [|kv incoming IH]; intros acc; simpl; [reflexivity|].
  now rewrite sync_entry_merge_with, IH.
Qed.

(** The entry loop of [import_from_sync], on the serialised form of entries
    that are filed under their own ids and in normal form, is [merge_with]
    on equal stamps with differing contents; the clock is not read. *)
Lemma import_entries_merge_with sha256_hex16 isoformat
    (incoming : Dict.t KnowledgeEntry.t) : forall acc c,
  (forall k e, In (k, e) incoming ->
               KnowledgeEntry.entry_id e = k /\ normalised e) ->
  for_each (map KnowledgeEntry.to_dict (Dict.values incoming))
    (KnowledgeSync.import_entry sha256_hex16 isoformat) acc c
  = (fold_left (merge_with same_stamp_other_content) incoming acc, c).
Proof.
  induction incoming as [|[k e] incoming IH]; intros [es st] c Hl.
  - reflexivity.
  - destruct (Hl k e (or_introl eq_refl)) as [Hid Hnorm].
    cbn [Dict.values map for_each fold_left]. unfold bind at 1.
    unfold KnowledgeSync.import_entry at 1. unfold bind at 1.
    rewrite (from_dict_undoes_to_dict _ _ e c Hnorm). rewrite Hid.
    change (map KnowledgeEntry.to_dict (map snd incoming))
      with (map KnowledgeEntry.to_dict (Dict.values incoming)).
    assert (Hstep :
      match Dict.get k es with
      | Some our_entry =>
          if KnowledgeEntry.updated e >? KnowledgeEntry.updated our_entry
          then ret (Dict.set k e es, Stats.count_updated st)
          else if ((KnowledgeEntry.updated e
                    =? KnowledgeEntry.updated our_entry)
                   && negb (String.eqb (KnowledgeEntry.content e)
                              (KnowledgeEntry.content our_entry)))%bool
          then ret (es, Stats.count_conflict st)
          else ret (es, st)
      | None => ret (Dict.set k e es, Stats.count_added st)
      end c
      = (merge_with same_stamp_other_content (es, st) (k, e), c)).
    { unfold merge_with, same_stamp_other_content, ret.
      destruct (Dict.get k es) as [our|]; [|reflexivity].
      destruct (_ >? _); [reflexivity|].
      destruct (_ && _)%bool; reflexivity. }
    rewrite Hstep. apply IH.
    intros k' e' Hin. apply Hl. now right.
Qed.

Lemma merge_with_other_key conflict es stats k v entry_id :
  k <> entry_id ->
  Dict.get entry_id (fst (merge_with conflict (es, stats) (k, v)))
  = Dict.get entry_id es.
Proof.
  intros Hne. unfold merge_with.
  destruct (Dict.get k es) as [our|]; simpl.
  - destruct (_ >? _); simpl; [now apply get_set_other|].
    now destruct (conflict v our).
  - now apply get_set_other.
Qed.

Lemma merge_with_other_keys conflict incoming : forall acc entry_id,
  ~ In entry_id (Dict.keys incoming) ->
  Dict.get entry_id (fst (fold_left (merge_with conflict) incoming acc))
  = Dict.get entry_id (fst acc).
Proof.
  induction incoming as [|[k v] incoming IH]; intros [es stats] entry_id Hnot;
    simpl; [reflexivity|].
  simpl in Hnot. rewrite IH by tauto.
  apply merge_with_other_key. tauto.
Qed.

(** One step of the shared loop counts a conflict exactly on a [tied]
    pair. *)
Lemma merge_with_conflicts conflict es stats k v :
  (forall theirs ours, conflict theirs ours = true ->
     KnowledgeEntry.updated theirs = KnowledgeEntry.updated ours) ->
  Stats.conflicts (snd (merge_with conflict (es, stats) (k, v)))
  = (Stats.conflicts stats
     + (if tied conflict es (k, v) then 1 else 0))%nat.
Proof.
  intros Htie. unfold merge_with, tied. cbn [fst snd].
  destruct (Dict.get k es) as [our|]; simpl; [|lia].
  destruct (_ >? _) eqn:G; simpl.
  - destruct (conflict v our) eqn:C; [|lia].
    apply Htie in C. rewrite C, Z.gtb_ltb, Z.ltb_irrefl in G. discriminate.
  - destruct (conflict v our); simpl; lia.
Qed.

(** The conflicts a whole loop counts: one for each [tied] pair of the
    incoming entries, read against the entries the loop starts from. *)
Lemma merge_with_conflicts_count conflict incoming :
  (forall theirs ours, conflict theirs ours = true ->
     KnowledgeEntry.updated theirs = KnowledgeEntry.updated ours) ->
  forall es stats,
  NoDup (Dict.keys incoming) ->
  Stats.conflicts
    (snd (fold_left (merge_with conflict) incoming (es, stats)))
  = (Stats.conflicts stats
     + List.length (filter (tied conflict es) incoming))%nat.
Proof.
  intros Htie.
  induction incoming as [|[k v] incoming IH]; intros es stats Hnd.
  - simpl. lia.
  - cbn [fold_left filter].
    pose proof (merge_with_conflicts conflict es stats k v Htie) as Hstep.
    pose proof (fun entry_id => merge_with_other_key conflict es stats k v
                                  entry_id) as Hkeys.
    destruct (merge_with conflict (es, stats) (k, v)) as [es1 st1].
    cbn [fst snd] in Hstep, Hkeys.
    unfold Dict.keys in Hnd. cbn [map fst] in Hnd.
    apply NoDup_cons_iff in Hnd as [Hk Hnd].
    rewrite (IH es1 st1 Hnd), Hstep.
    assert (Hsame : filter (tied conflict es1) incoming
                    = filter (tied conflict es) incoming).
    { apply filter_ext_in. intros [k' v'] Hin. unfold tied. cbn [fst snd].
      rewrite Hkeys; [reflexivity|].
      intros ->. apply Hk. apply in_map_iff. now exists (k', v'). }
    rewrite Hsame.
    destruct (tied conflict es (k, v)); simpl; lia.
Qed.

(** The local entry of an id whose incoming entry carries the same stamp
    is the local entry after the whole loop. *)
Lemma merge_with_keeps_local conflict incoming es stats entry_id ours theirs :
  NoDup (Dict.keys incoming) ->
  Dict.get entry_id es = Some ours ->
  In (entry_id, theirs) incoming ->
  KnowledgeEntry.updated theirs = KnowledgeEntry.updated ours ->
  Dict.get entry_id
    (fst (fold_left (merge_with conflict) incoming (es, stats)))
  = Some ours.
Proof.
  intros Hnd Hours Hin Heq.
  apply in_split in Hin as [l1 [l2 ->]].
  unfold Dict.keys in Hnd. rewrite map_app in Hnd. cbn [map fst] in Hnd.
  apply NoDup_remove_2 in Hnd. rewrite in_app_iff in Hnd.
  rewrite fold_left_app. cbn [fold_left].
  pose proof (merge_with_other_keys conflict l1 (es, stats) entry_id) as H1.
  destruct (fold_left (merge_with conflict) l1 (es, stats)) as [es1 st1].
  cbn [fst] in H1. rewrite Hours in H1.
  assert (Hstep : fst (merge_with conflict (es1, st1) (entry_id, theirs))
                  = es1).
  { unfold merge_with. rewrite H1 by tauto.
    rewrite Heq, Z.gtb_ltb, Z.ltb_irrefl.
    now destruct (conflict theirs ours). }
  destruct (merge_with conflict (es1, st1) (entry_id, theirs)) as [es2 st2].
  cbn [fst] in Hstep. subst es2.
  rewrite merge_with_other_keys by tauto.
  cbn [fst]. apply H1. tauto.
Qed.

Lemma same_stamp_eq theirs ours :
  same_stamp theirs ours = true ->
  KnowledgeEntry.updated theirs = KnowledgeEntry.updated ours.
Proof. unfold same_stamp. apply Z.eqb_eq. Qed.

Lemma same_stamp_other_content_eq theirs ours :
  same_stamp_other_content theirs ours = true ->
  KnowledgeEntry.updated theirs = KnowledgeEntry.updated ours.
Proof.
  unfold same_stamp_other_content. intros H.
  apply andb_true_iff in H as [H _]. now apply Z.eqb_eq.
Qed.

(** What a whole [sync] returns, in terms of its entry loop. *)
Lemma sync_result_entries ks other c :
  let r := value (KnowledgeSync.sync ks (Some other) c) in
  (KnowledgeSync.entries (snd r), fst r)
  = fold_left (merge_with same_stamp) (KnowledgeSync.entries other)
      (KnowledgeSync.entries ks, Stats.zero).
Proof.
  cbv zeta. unfold KnowledgeSync.sync, value.
  rewrite sync_entries_merge_with.
  destruct (fold_left (merge_with same_stamp) _ _) as [es st].
  reflexivity.
Qed.

(** What a whole [import_from_sync] returns, in terms of its entry loop,
    for a payload that carries the serialised form of [incoming]. *)
Lemma import_result_entries sha256_hex16 isoformat ks data
    (incoming : Dict.t KnowledgeEntry.t) c :
  (forall k e, In (k, e) incoming ->
               KnowledgeEntry.entry_id e = k /\ normalised e) ->
  SyncData.entries data
  = Some (map KnowledgeEntry.to_dict (Dict.values incoming)) ->
  let r := value (KnowledgeSync.import_from_sync sha256_hex16 isoformat
                    ks data c) in
  (KnowledgeSync.entries (snd r), fst r)
  = fold_left (merge_with same_stamp_other_content) incoming
      (KnowledgeSync.entries ks, Stats.zero).
Proof.
  intros Hl Hdata. cbv zeta.
  unfold KnowledgeSync.import_from_sync, value, bind.
  rewrite Hdata. cbn [or_nil].
  rewrite (import_entries_merge_with sha256_hex16 isoformat incoming _ c Hl).
  destruct (fold_left (merge_with same_stamp_other_content) _ _) as [es st].
  reflexivity.
Qed.

(** C2. Equal [updated] timestamps over a whole merge. [sync] with a store
    whose keys are unique counts exactly one conflict for every incoming
    entry whose id is stored locally with the same stamp, whatever the
    contents. [import_from_sync] of a payload that carries the serialised
    entries [incoming] (unique ids, each entry under its own id and in
    normal form) counts exactly one conflict for every incoming entry whose
    id is stored locally with the same stamp and another content, and none
    for equal contents. After either merge the local entry of such an id is
    the entry it was. *)
Theorem equal_timestamps_conflict
    (sha256_hex16 : string -> string) (isoformat : Time -> string)
    (ks other : KnowledgeSync.t) (data : SyncData.t)
    (incoming : Dict.t KnowledgeEntry.t) (c : Clock) :
  NoDup (Dict.keys (KnowledgeSync.entries other)) ->
  NoDup (Dict.keys incoming) ->
  (forall k e, In (k, e) incoming ->
               KnowledgeEntry.entry_id e = k /\ normalised e) ->
  SyncData.entries data
  = Some (map KnowledgeEntry.to_dict (Dict.values incoming)) ->
  let synced := value (KnowledgeSync.sync ks (Some other) c) in
  let imported := value (KnowledgeSync.import_from_sync sha256_hex16
                           isoformat ks data c) in
  Stats.conflicts (fst synced)
  = List.length (filter (tied same_stamp (KnowledgeSync.entries ks))
                   (KnowledgeSync.entries other)) /\
  Stats.conflicts (fst imported)
  = List.length (filter (tied same_stamp_other_content
                           (KnowledgeSync.entries ks)) incoming) /\
  forall entry_id ours theirs,
    Dict.get entry_id (KnowledgeSync.entries ks) = Some ours ->
    KnowledgeEntry.updated theirs = KnowledgeEntry.updated ours ->
    (Dict.get entry_id (KnowledgeSync.entries other) = Some theirs ->
     KnowledgeSync.get (snd synced) entry_id = Some ours) /\
    (In (entry_id, theirs) incoming ->
     KnowledgeSync.get (snd imported) entry_id = Some ours).
Proof.
  intros Hother Hincoming Hl Hdata. cbv zeta.
  pose proof (sync_result_entries ks other c) as Hs.
  pose proof (import_result_entries sha256_hex16 isoformat ks data incoming c
                Hl Hdata) as Hi.
  cbv zeta in Hs, Hi.
  split; [|split].
  - change (Stats.conflicts
              (snd (KnowledgeSync.entries
                      (snd (value (KnowledgeSync.sync ks (Some other) c))),
                    fst (value (KnowledgeSync.sync ks (Some other) c))))
            = List.length (filter (tied same_stamp (KnowledgeSync.entries ks))
                             (KnowledgeSync.entries other))).
    rewrite Hs.
    now rewrite (merge_with_conflicts_count same_stamp _ same_stamp_eq _ _
                   Hother).
  - change (Stats.conflicts
              (snd (KnowledgeSync.entries
                      (snd (value (KnowledgeSync.import_from_sync
                                     sha256_hex16 isoformat ks data c))),
                    fst (value (KnowledgeSync.import_from_sync
                                  sha256_hex16 isoformat ks data c))))
            = List.length (filter (tied same_stamp_other_content
                                     (KnowledgeSync.entries ks)) incoming)).
    rewrite Hi.
    now rewrite (merge_with_conflicts_count same_stamp_other_content _
                   same_stamp_other_content_eq _ _ Hincoming).
  - intros entry_id ours theirs Hours Heq. unfold KnowledgeSync.get. split.
    + intros Htheirs. apply get_In in Htheirs.
      change (Dict.get entry_id
                (fst (KnowledgeSync.entries
                        (snd (value (KnowledgeSync.sync ks (Some other) c))),
                      fst (value (KnowledgeSync.sync ks (Some other) c))))
              = Some ours).
      rewrite Hs.
      now apply (merge_with_keeps_local same_stamp _ _ _ _ ours theirs).
    + intros Hin.
      change (Dict.get entry_id
                (fst (KnowledgeSync.entries
                        (snd (value (KnowledgeSync.import_from_sync
                                       sha256_hex16 isoformat ks data c))),
                      fst (value (KnowledgeSync.import_from_sync
                                    sha256_hex16 isoformat ks data c))))
              = Some ours).
      rewrite Hi.
      now apply (merge_with_keeps_local same_stamp_other_content _ _ _ _
                   ours theirs).
Qed.

Lemma equal_timestamps_conflict_witness :
  let data := value (KnowledgeSync.export_for_sync store_remote (frozen 200)) in
  let synced := value (KnowledgeSync.sync store_with_note (Some store_remote)
                         (frozen 300)) in
  let imported := value (KnowledgeSync.import_from_sync example_sha256_hex16
                           example_isoformat store_with_note data
                           (frozen 300)) in
  NoDup (Dict.keys (KnowledgeSync.entries store_remote)) /\
  normalised port_note_remote /\
  SyncData.entries data
  = Some (map KnowledgeEntry.to_dict
            (Dict.values (KnowledgeSync.entries store_remote))) /\
  Stats.conflicts (fst synced) = 1%nat /\
  Stats.conflicts (fst imported) = 1%nat /\
  KnowledgeSync.get (snd synced) "5f2a9c0e7b1d4a63" = Some port_note /\
  KnowledgeSync.get (snd imported) "5f2a9c0e7b1d4a63" = Some port_note.
Proof.
  cbv zeta.
  assert (Hnd : NoDup (Dict.keys (KnowledgeSync.entries store_remote))).
  { simpl. constructor; [simpl; tauto | constructor]. }
  assert (Hnorm : normalised port_note_remote)
    by (repeat split; reflexivity).
  assert (Hl : forall k e, In (k, e) (KnowledgeSync.entries store_remote) ->
                 KnowledgeEntry.entry_id e = k /\ normalised e).
  { intros k e [H | []]. injection H as <- <-. split; [reflexivity|exact Hnorm]. }
  destruct (equal_timestamps_conflict example_sha256_hex16 example_isoformat
              store_with_note store_remote
              (value (KnowledgeSync.export_for_sync store_remote (frozen 200)))
              (KnowledgeSync.entries store_remote) (frozen 300)
              Hnd Hnd Hl eq_refl) as [Hs [Hi Hkeep]].
  destruct (Hkeep "5f2a9c0e7b1d4a63" port_note port_note_remote
              eq_refl eq_refl) as [Hks Hki].
  split; [exact Hnd|]. split; [exact Hnorm|]. split; [reflexivity|].
  split; [rewrite Hs; reflexivity|]. split; [rewrite Hi; reflexivity|].
  split; [apply Hks; reflexivity | apply Hki; left; reflexivity].
Defined.
